(** * Eigent streaming protocol core: stream client, delegated tool executor,
      orchestrator and chat-parameter builder, embedded from the TypeScript
      sources, with the properties of the specification stated over them. *)

From Stdlib Require Import NArith ZArith List String Ascii Bool Lia DecimalString.
From stdpp Require Import base decidable option list gmap.
Import ListNotations.

Set Warnings "-register-all".

Local Open Scope N_scope.

(* ===================================================================== *)
(** ** JavaScript values as the code sees them *)
(* ===================================================================== *)

Module Js.

(** A JS string is a sequence of UTF-16 code units. *)
Abbreviation jsstring := (list N).

(** String literals of the source, as code units. *)
Fixpoint js (s : string) : jsstring :=
  match s with
  | EmptyString => []
  | String c s' => N_of_ascii c :: js s'
  end.

(** Template-literal rendering of a non-negative integer: [`${n}`]. *)
Definition dec (n : N) : jsstring := js (NilEmpty.string_of_uint (N.to_uint n)).

(** LineTerminator of ECMAScript: LF, CR, LS, PS. *)
Definition is_line_terminator (c : N) : bool :=
  (c =? 10) || (c =? 13) || (c =? 0x2028) || (c =? 0x2029).

(** WhiteSpace and LineTerminator: the class of [\s] and of [trim()]. *)
Definition is_space (c : N) : bool :=
  (c =? 9) || (c =? 11) || (c =? 12) || (c =? 32) || (c =? 0xA0)
  || (c =? 0x1680) || ((0x2000 <=? c) && (c <=? 0x200A))
  || (c =? 0x202F) || (c =? 0x205F) || (c =? 0x3000) || (c =? 0xFEFF)
  || is_line_terminator c.

Fixpoint trimStart (s : jsstring) : jsstring :=
  match s with
  | c :: s' => if is_space c then trimStart s' else s
  | [] => []
  end.

(** [String.prototype.trim]. *)
Definition trim (s : jsstring) : jsstring := rev (trimStart (rev (trimStart s))).

(** Truthiness of a string: non-empty. *)
Definition nonempty (s : jsstring) : bool :=
  match s with [] => false | _ => true end.

(** [s.startsWith(p)], returning the rest after the prefix. *)
Fixpoint strip_prefix (p s : jsstring) : option jsstring :=
  match p, s with
  | [], _ => Some s
  | a :: p', b :: s' => if a =? b then strip_prefix p' s' else None
  | _ :: _, [] => None
  end.

(** Leftmost occurrence of a non-empty separator: the text before it and
    the text after it. *)
Fixpoint find_sep (sep s : jsstring) : option (jsstring * jsstring) :=
  match strip_prefix sep s with
  | Some rest => Some ([], rest)
  | None =>
      match s with
      | [] => None
      | c :: s' =>
          match find_sep sep s' with
          | Some (b, a) => Some (c :: b, a)
          | None => None
          end
      end
  end.

(** Cut at successive leftmost occurrences; every cut removes at least one
    code unit, so [length s] rounds are always enough. *)
Fixpoint split_fuel (fuel : nat) (sep s : jsstring) : list jsstring :=
  match fuel with
  | O => [s]
  | S n =>
      match find_sep sep s with
      | None => [s]
      | Some (b, a) => b :: split_fuel n sep a
      end
  end.

(** [String.prototype.split(sep)] for a string separator: an empty
    separator splits into code units, otherwise the string is cut at the
    non-overlapping occurrences found left to right. *)
Definition split (sep s : jsstring) : list jsstring :=
  match sep with
  | [] => map (fun c => [c]) s
  | _ :: _ => split_fuel (length s) sep s
  end.

(** [Array.prototype.join(sep)] on an array of strings. *)
Fixpoint join (sep : jsstring) (l : list jsstring) : jsstring :=
  match l with
  | [] => []
  | [x] => x
  | x :: l' => x ++ sep ++ join sep l'
  end.

(** [lines.pop() ?? ""] and the array that [pop] leaves behind. *)
Definition pop (l : list jsstring) : jsstring := List.last l [].
Definition popped (l : list jsstring) : list jsstring := removelast l.

(** Values that [JSON.parse] can produce.  A number is kept as its IEEE-754
    binary64 bit pattern. *)
Inductive JsVal :=
| JNull
| JBool (b : bool)
| JNum (bits : N)
| JStr (s : jsstring)
| JArr (l : list JsVal)
| JObj (kvs : list (jsstring * JsVal)).

Definition num_is_zero (bits : N) : bool := N.land bits 0x7FFFFFFFFFFFFFFF =? 0.
Definition num_is_nan (bits : N) : bool :=
  (N.land (N.shiftr bits 52) 0x7FF =? 0x7FF) && negb (N.land bits 0xFFFFFFFFFFFFF =? 0).

(** ToBoolean. *)
Definition truthy (v : JsVal) : bool :=
  match v with
  | JNull => false
  | JBool b => b
  | JNum bits => negb (num_is_zero bits || num_is_nan bits)
  | JStr s => nonempty s
  | JArr _ | JObj _ => true
  end.

(** Truthiness of a possibly undefined value. *)
Definition truthy_opt (v : option JsVal) : bool :=
  match v with Some v => truthy v | None => false end.

Fixpoint assoc (k : jsstring) (kvs : list (jsstring * JsVal)) : option JsVal :=
  match kvs with
  | [] => None
  | (k', v) :: kvs' => if bool_decide (k = k') then Some v else assoc k kvs'
  end.

(** Property read [v.k] for the keys the code uses ([step], [data],
    [agent], [request_id], ...): [None] is [undefined].  Reading a property
    of [null] throws and is handled where it can happen. *)
Definition get (v : JsVal) (k : jsstring) : option JsVal :=
  match v with
  | JObj kvs => assoc k kvs
  | _ => None
  end.

(** [v === "lit"] for a string literal. *)
Definition is_str (v : JsVal) (lit : jsstring) : bool :=
  match v with
  | JStr s => bool_decide (s = lit)
  | _ => false
  end.

(** A thrown value as the catch clauses inspect it. *)
Record Thrown := {
  instanceof_Error : bool;
  e_message : jsstring;
  e_String : jsstring;
  e_all : option jsstring;
  e_stdout : option jsstring;
  e_stderr : option jsstring;
}.

(** [new Error(msg)]. *)
Definition Error (msg : jsstring) : Thrown :=
  {| instanceof_Error := true; e_message := msg;
     e_String := js "Error: " ++ msg;
     e_all := None; e_stdout := None; e_stderr := None |}.

(** [e instanceof Error ? e.message : String(e)]. *)
Definition error_text (e : Thrown) : jsstring :=
  if instanceof_Error e then e_message e else e_String e.

(** Outcome of an expression that may throw. *)
Inductive Completion (A : Type) :=
| Return (a : A)
| Throw (e : Thrown).
Arguments Return {A} a.
Arguments Throw {A} e.

(** [a ?? b] on optional strings. *)
Definition nullish {A} (a : option A) (b : A) : A :=
  match a with Some x => x | None => b end.

End Js.
Import Js.

(* ===================================================================== *)
(** ** Platform services used by the code *)
(* ===================================================================== *)

(** The runtime pieces the sources call but do not define: the streaming
    text decoder, the text encoder, [JSON.parse] and node's [path]. *)
Class Platform := {
  DecState : Type;
  dec_init : DecState;
  (** one byte through [TextDecoder.decode(_, {stream: true})] *)
  dec_byte : DecState -> Byte.byte -> DecState * jsstring;
  (** what a non-streaming [decode] appends at the end of its input *)
  dec_flush : DecState -> jsstring;
  utf8_encode : jsstring -> list Byte.byte;
  (** [None] is a SyntaxError *)
  JSON_parse : jsstring -> option JsVal;
  path_isAbsolute : jsstring -> bool;
  path_resolve : jsstring -> jsstring -> jsstring;
  path_relative : jsstring -> jsstring -> jsstring;
}.

(** [decoder.decode(value, {stream: true})]: the decoder state is kept
    between calls. *)
Fixpoint decode_stream `{Platform} (d : DecState) (value : list Byte.byte)
  : DecState * jsstring :=
  match value with
  | [] => (d, [])
  | b :: value' =>
      let '(d1, out1) := dec_byte d b in
      let '(d2, out2) := decode_stream d1 value' in
      (d2, out1 ++ out2)
  end.

(** [new TextDecoder("utf-8").decode(bytes)]. *)
Definition decode `{Platform} (bytes : list Byte.byte) : jsstring :=
  let '(d, out) := decode_stream dec_init bytes in out ++ dec_flush d.

(* ===================================================================== *)
(** ** Protocol types (services/eigent/types.ts) *)
(* ===================================================================== *)

(** Parsed SSE event.  [step] is whatever truthy value the frame carried:
    the cast to [AgentStep] is unchecked.  [data] is never [null]: the
    parser puts an empty object in its place. *)
Record SSEEvent := { step : JsVal; data : JsVal }.

(** [string | null | undefined]. *)
Inductive Nullable (A : Type) :=
| Undefined
| Null
| Value (a : A).
Arguments Undefined {A}.
Arguments Null {A}.
Arguments Value {A} a.

(** [x != null]. *)
Definition not_nullish {A} (x : Nullable A) : option A :=
  match x with Value a => Some a | _ => None end.

(** Params for POST /chat; optional fields are [None] when undefined,
    numbers are binary64 bit patterns. *)
Record ChatParams := {
  task_id : jsstring;
  project_id : jsstring;
  question : jsstring;
  email : jsstring;
  attaches : option (list jsstring);
  model_platform : jsstring;
  model_type : jsstring;
  api_key : jsstring;
  api_url : Nullable jsstring;
  language : option jsstring;
  browser_port : option N;
  max_retries : option N;
  allow_local_system : option bool;
  installed_mcp : option JsVal;
  env_path : Nullable jsstring;
  file_save_path : option jsstring;
}.

(** Tool execution result. *)
Record ToolResult := {
  success : bool;
  content : option jsstring;
  error : option jsstring;
}.

(** The binary64 bit pattern of a natural number below 2^53. *)
Definition double_of_N (n : N) : N :=
  if n =? 0 then 0
  else let e := N.log2 n in
       N.lor (N.shiftl (e + 1023) 52) (N.shiftl (n - N.shiftl 1 e) (52 - e)).

(* ===================================================================== *)
(** ** Stream client (EigentSSEClient) *)
(* ===================================================================== *)

Module SSEClient.

Record EigentSSEClientOptions := { opt_baseUrl : jsstring; opt_apiKey : option jsstring }.

Record EigentSSEClient := { baseUrl : jsstring; apiKey : option jsstring }.

(** [s.replace(/\/$/, "")]: one trailing slash is removed. *)
Definition strip_trailing_slash (s : jsstring) : jsstring :=
  match rev s with
  | 47 :: r => rev r
  | _ => s
  end.

Definition constructor (options : EigentSSEClientOptions) : EigentSSEClient :=
  {| baseUrl := strip_trailing_slash (opt_baseUrl options);
     apiKey := opt_apiKey options |}.

Definition headers (c : EigentSSEClient) : list (jsstring * jsstring) :=
  let h := [(js "Content-Type", js "application/json")] in
  match apiKey c with
  | Some k => if nonempty k then h ++ [(js "Authorization", js "Bearer " ++ k)] else h
  | None => h
  end.

(** A [fetch] call: the body is the object handed to [JSON.stringify]. *)
Record Request := {
  req_url : jsstring;
  req_method : jsstring;
  req_headers : list (jsstring * jsstring);
  req_body : option JsVal;
}.

Definition mcp_default : JsVal := JObj [(js "mcpServers", JObj [])].

Definition toChatBody (params : ChatParams) : list (jsstring * JsVal) :=
  let body :=
    [ (js "task_id", JStr (task_id params));
      (js "project_id", JStr (project_id params));
      (js "question", JStr (question params));
      (js "email", JStr (email params));
      (js "attaches", JArr (map JStr (nullish (attaches params) [])));
      (js "model_platform", JStr (model_platform params));
      (js "model_type", JStr (model_type params));
      (js "api_key", JStr (api_key params));
      (js "language", JStr (nullish (language params) (js "en")));
      (js "browser_port", JNum (nullish (browser_port params) (double_of_N 9222)));
      (js "max_retries", JNum (nullish (max_retries params) (double_of_N 3)));
      (js "allow_local_system", JBool (nullish (allow_local_system params) false));
      (js "installed_mcp", nullish (installed_mcp params) mcp_default) ] in
  let body :=
    match not_nullish (api_url params) with
    | Some u => body ++ [(js "api_url", JStr u)]
    | None => body
    end in
  let body :=
    match not_nullish (env_path params) with
    | Some p => body ++ [(js "env_path", JStr p)]
    | None => body
    end in
  body.

(** [(.+)$] at the start of [s]: the longest run of characters that are
    not line terminators, at least one. *)
Fixpoint dot_run (s : jsstring) : jsstring :=
  match s with
  | c :: s' => if is_line_terminator c then [] else c :: dot_run s'
  | [] => []
  end.

Definition dot_plus (s : jsstring) : option jsstring :=
  match dot_run s with
  | [] => None
  | r => Some r
  end.

(** [\s*(.+)$]: greedy white space, giving characters back one at a time
    until the group can match. *)
Fixpoint ws_dot_plus (s : jsstring) : option jsstring :=
  match s with
  | c :: s' =>
      if is_space c then
        match ws_dot_plus s' with
        | Some m => Some m
        | None => dot_plus s
        end
      else dot_plus s
  | [] => None
  end.

(** [chunk.match(/^data:\s*(.+)$/m)]: the first group of the leftmost
    match; [^] holds at the start and after every line terminator. *)
Fixpoint match_data (line_start : bool) (s : jsstring) : option jsstring :=
  let here :=
    if line_start then
      match strip_prefix (js "data:") s with
      | Some rest => ws_dot_plus rest
      | None => None
      end
    else None in
  match here with
  | Some m => Some m
  | None =>
      match s with
      | [] => None
      | c :: s' => match_data (is_line_terminator c) s'
      end
  end.

(** The blank line between frames: two line feeds. *)
Definition frame_delimiter : jsstring := [10; 10].

Section WithPlatform.
Context `{Platform}.

Definition parseSSEChunk (chunk : jsstring) : option SSEEvent :=
  match match_data true chunk with
  | None => None
  | Some m =>
      match JSON_parse (trim m) with
      | None => None                       (* parse error, ignored *)
      | Some JNull => None                 (* null.step throws, ignored *)
      | Some d =>
          match get d (js "step") with
          | Some st =>
              if truthy st then
                Some {| step := st;
                        data := match get d (js "data") with
                                | None | Some JNull => JObj []
                                | Some x => x
                                end |}
              else None
          | None => None
          end
      end
  end.

(** The frames of the loop body: [lines] after [pop], each parsed, the
    non-null events yielded in order. *)
Definition frames_events (lines : list jsstring) : list SSEEvent :=
  omap parseSSEChunk lines.

(** One iteration of the read loop for a read that returned [value]. *)
Definition read_step (st : DecState * jsstring) (value : list Byte.byte)
  : (DecState * jsstring) * list SSEEvent :=
  let '(decoder, buffer) := st in
  let '(decoder, txt) := decode_stream decoder value in
  let buffer := buffer ++ txt in
  let lines := split frame_delimiter buffer in
  ((decoder, pop lines), frames_events (popped lines)).

(** The reads until [done], events in the order they are yielded. *)
Fixpoint read_loop (st : DecState * jsstring) (reads : list (list Byte.byte))
  : (DecState * jsstring) * list SSEEvent :=
  match reads with
  | [] => (st, [])
  | value :: reads' =>
      let '(st1, evs1) := read_step st value in
      let '(st2, evs2) := read_loop st1 reads' in
      (st2, evs1 ++ evs2)
  end.

(** After the loop: a buffer that is not blank is parsed as a last frame. *)
Definition final_frame (buffer : jsstring) : list SSEEvent :=
  if nonempty (trim buffer) then
    match parseSSEChunk buffer with Some e => [e] | None => [] end
  else [].

(** The response of [fetch]: [res_body] is the sequence of reads of the
    body reader ([None]: no body), [res_read_error] a rejected read after
    them. *)
Record Response := {
  res_ok : bool;
  res_status : N;
  res_statusText : jsstring;
  res_text : jsstring;
  res_body : option (list (list Byte.byte));
  res_read_error : option Thrown;
}.

(** Events of a body whose reads all succeed. *)
Definition body_events (reads : list (list Byte.byte)) : list SSEEvent :=
  let '((_, buffer), evs) := read_loop (dec_init, []) reads in
  evs ++ final_frame buffer.

Definition startChat_request (c : EigentSSEClient) (params : ChatParams) : Request :=
  {| req_url := baseUrl c ++ js "/chat";
     req_method := js "POST";
     req_headers := headers c;
     req_body := Some (JObj (toChatBody params)) |}.

(** [startChat]: the request issued, the events yielded, and how the
    generator ends ([None]: it returns). *)
Definition startChat (c : EigentSSEClient) (params : ChatParams) (res : Response)
  : Request * list SSEEvent * option Thrown :=
  let req := startChat_request c params in
  if negb (res_ok res) then
    (req, [],
     Some (Error (js "Eigent startChat failed: " ++ dec (res_status res) ++ js " "
                  ++ res_statusText res ++ js " - " ++ res_text res)))
  else
    match res_body res with
    | None => (req, [], Some (Error (js "Eigent startChat: no response body")))
    | Some reads =>
        match res_read_error res with
        | None => (req, body_events reads, None)
        | Some e => (req, snd (read_loop (dec_init, []) reads), Some e)
        end
    end.

End WithPlatform.

(** A successful response whose body is delivered in the given reads. *)
Definition ok_response (reads : list (list Byte.byte)) : Response :=
  {| res_ok := true; res_status := 200; res_statusText := js "OK"; res_text := [];
     res_body := Some reads; res_read_error := None |}.

Definition opt {A} (x : option A) (k : string) : list jsstring :=
  match x with Some _ => [js k] | None => [] end.
Definition nul {A} (x : Nullable A) (k : string) : list jsstring :=
  match x with Undefined => [] | _ => [js k] end.

(** The fields that a ChatParams value defines, by name: the required
    ones and the optional ones that are not undefined. *)
Definition defined_fields (p : ChatParams) : list jsstring :=
  [js "task_id"; js "project_id"; js "question"; js "email"]
  ++ opt (attaches p) "attaches"
  ++ [js "model_platform"; js "model_type"; js "api_key"]
  ++ nul (api_url p) "api_url"
  ++ opt (language p) "language"
  ++ opt (browser_port p) "browser_port"
  ++ opt (max_retries p) "max_retries"
  ++ opt (allow_local_system p) "allow_local_system"
  ++ opt (installed_mcp p) "installed_mcp"
  ++ nul (env_path p) "env_path"
  ++ opt (file_save_path p) "file_save_path".

(** The keys of the request body, and the value under a key. *)
Definition body_keys (p : ChatParams) : list jsstring := map fst (toChatBody p).
Definition body_at (p : ChatParams) (k : string) : option JsVal :=
  assoc (js k) (toChatBody p).

End SSEClient.

(* ===================================================================== *)
(** ** Delegated tool executor (core/eigent/ToolExecutor.ts) *)
(* ===================================================================== *)

Module ToolExecutor.

Record ExecuteFileWriteData := {
  fw_request_id : jsstring; fw_path : jsstring; fw_content : jsstring }.
Record ExecuteReadFileData := {
  rf_request_id : jsstring; rf_path : jsstring }.
Record ExecuteSearchReplaceData := {
  sr_request_id : jsstring; sr_path : jsstring;
  old_string : jsstring; new_string : jsstring }.
Record ExecuteListFilesData := {
  lf_request_id : jsstring; pattern : jsstring }.
Record ExecuteTerminalData := {
  tm_request_id : jsstring; command : jsstring; cwd : option jsstring }.

(** The stored files, by resolved path, and the log of the writes made. *)
Record FsState := {
  files : gmap jsstring (list Byte.byte);
  writes : list (jsstring * list Byte.byte);
}.

(** What [execa] resolves to. *)
Record ExecaResult := {
  r_all : option jsstring;
  r_stdout : option jsstring;
  r_stderr : option jsstring;
  exitCode : Z;
}.

(** The VS Code workspace API, the directory walker and the process runner
    as the executor calls them. *)
Record Host := {
  (** [vscode.workspace.workspaceFolders?.[0]] *)
  workspaceFolder : option jsstring;
  (** what [readFile] throws for a path that holds no file *)
  file_not_found : jsstring -> Thrown;
  (** [Some e]: reading this path is refused with [e] *)
  read_refused : jsstring -> option Thrown;
  (** [Some e]: writing this path is refused with [e] *)
  write_refused : jsstring -> option Thrown;
  (** [findFiles(new RelativePattern(folder, pattern), null, max)] *)
  findFiles : jsstring -> jsstring -> N -> Completion (list jsstring);
  (** [listFiles(dirPath, recursive, limit)] *)
  listFiles : jsstring -> bool -> N -> Completion (list jsstring * bool);
  (** [execa(command, {shell: true, cwd, all: true})]: a command may
      change the stored files *)
  execa : jsstring -> jsstring -> gmap jsstring (list Byte.byte)
          -> Completion ExecaResult * gmap jsstring (list Byte.byte);
}.

(** Computations over the file store that may throw. *)
Definition M (A : Type) : Type := FsState -> Completion A * FsState.

Definition ret {A} (a : A) : M A := fun st => (Return a, st).
Definition throw {A} (e : Thrown) : M A := fun st => (Throw e, st).
Definition bind {A B} (m : M A) (k : A -> M B) : M B :=
  fun st =>
    match m st with
    | (Return a, st') => k a st'
    | (Throw e, st') => (Throw e, st')
    end.
(** [try { m } catch (e) { h e }]. *)
Definition try_catch {A} (m : M A) (h : Thrown -> M A) : M A :=
  fun st =>
    match m st with
    | (Return a, st') => (Return a, st')
    | (Throw e, st') => h e st'
    end.
Definition lift {A} (c : Completion A) : M A := fun st => (c, st).

Declare Scope exec_scope.
Delimit Scope exec_scope with exec.
Notation "'do' x <- m 'in' k" := (bind m (fun x => k))
  (at level 10, x pattern, m at level 100, k at level 200) : exec_scope.
Local Open Scope exec_scope.

Section WithHost.
Context `{Platform} (host : Host) (workspacePath : jsstring).

Definition fs_readFile (uri : jsstring) : M (list Byte.byte) :=
  fun st =>
    match read_refused host uri with
    | Some e => (Throw e, st)
    | None =>
        match files st !! uri with
        | Some bytes => (Return bytes, st)
        | None => (Throw (file_not_found host uri), st)
        end
    end.

Definition fs_writeFile (uri : jsstring) (bytes : list Byte.byte) : M unit :=
  fun st =>
    match write_refused host uri with
    | Some e => (Throw e, st)
    | None =>
        (Return tt, {| files := <[uri := bytes]> (files st);
                       writes := writes st ++ [(uri, bytes)] |})
    end.

Definition run_execa (cmd dir : jsstring) : M ExecaResult :=
  fun st =>
    let '(r, fs) := execa host cmd dir (files st) in
    (r, {| files := fs; writes := writes st |}).

Definition resolvePath (relPath : jsstring) : jsstring :=
  if path_isAbsolute relPath then relPath else path_resolve workspacePath relPath.

(** The result that reports a thrown value by its message:
    [{ success: false, error: e instanceof Error ? e.message : String(e) }],
    and the handler shared by the first four operations. *)
Definition message_result (e : Thrown) : ToolResult :=
  {| success := false; content := None; error := Some (error_text e) |}.

Definition catch_message (e : Thrown) : M ToolResult := ret (message_result e).

Definition executeFileWrite_try (d : ExecuteFileWriteData) : M ToolResult :=
  let fullPath := resolvePath (fw_path d) in
  let bytes := utf8_encode (fw_content d) in
  do _ <- fs_writeFile fullPath bytes in
  ret {| success := true; content := Some (js "Written to " ++ fw_path d); error := None |}.

Definition executeFileWrite (d : ExecuteFileWriteData) : M ToolResult :=
  try_catch (executeFileWrite_try d) catch_message.

Definition executeReadFile_try (d : ExecuteReadFileData) : M ToolResult :=
  let fullPath := resolvePath (rf_path d) in
  do bytes <- fs_readFile fullPath in
  let content := decode bytes in
  ret {| success := true; content := Some content; error := None |}.

Definition executeReadFile (d : ExecuteReadFileData) : M ToolResult :=
  try_catch (executeReadFile_try d) catch_message.

Definition executeSearchReplace_try (d : ExecuteSearchReplaceData) : M ToolResult :=
  let fullPath := resolvePath (sr_path d) in
  do bytes <- fs_readFile fullPath in
  let content := decode bytes in
  let newContent := join (new_string d) (split (old_string d) content) in
  if bool_decide (content = newContent) then
    ret {| success := true;
           content := Some (js "No changes needed (old_string not found)");
           error := None |}
  else
    do _ <- fs_writeFile fullPath (utf8_encode newContent) in
    ret {| success := true; content := Some (js "Search and replace completed");
           error := None |}.

Definition executeSearchReplace (d : ExecuteSearchReplaceData) : M ToolResult :=
  try_catch (executeSearchReplace_try d) catch_message.

(** [s.includes(c)] for a one-character literal. *)
Definition includes (c : N) (s : jsstring) : bool := existsb (N.eqb c) s.

Definition executeListFiles_try (d : ExecuteListFilesData) : M ToolResult :=
  let pattern := if nonempty (pattern d) then pattern d else js "**/*" in
  let isGlob := includes 42 pattern || includes 63 pattern in
  if isGlob then
    match workspaceFolder host with
    | None =>
        ret {| success := false; content := None; error := Some (js "No workspace folder") |}
    | Some folder =>
        do uris <- lift (findFiles host folder pattern 200) in
        let relativePaths := map (path_relative workspacePath) uris in
        ret {| success := true; content := Some (join [10] relativePaths); error := None |}
    end
  else
    let dirPath := resolvePath pattern in
    do (found, didHitLimit) <- lift (listFiles host dirPath true 200) in
    let relativePaths := map (path_relative workspacePath) found in
    let relativePaths :=
      if didHitLimit : bool then relativePaths ++ [js "(... limit reached)"]
      else relativePaths in
    ret {| success := true; content := Some (join [10] relativePaths); error := None |}.

Definition executeListFiles (d : ExecuteListFilesData) : M ToolResult :=
  try_catch (executeListFiles_try d) catch_message.

(** [a ?? b ?? c ?? d]. *)
Definition first_defined (a b c : option jsstring) (d : jsstring) : jsstring :=
  nullish a (nullish b (nullish c d)).

Definition executeTerminal_try (d : ExecuteTerminalData) : M ToolResult :=
  let dir :=
    match cwd d with
    | Some c => if nonempty c then resolvePath c else workspacePath
    | None => workspacePath
    end in
  do result <- run_execa (command d) dir in
  let output := first_defined (r_all result) (r_stdout result) (r_stderr result) [] in
  ret {| success := (exitCode result =? 0)%Z; content := Some output; error := None |}.

(** What the handler of [executeTerminal] reports for a thrown value:
    the captured output, else the message. *)
Definition failure_output (e : Thrown) : jsstring :=
  first_defined (e_all e) (e_stdout e) (e_stderr e) (error_text e).

Definition output_result (e : Thrown) : ToolResult :=
  {| success := false; content := Some (failure_output e);
     error := Some (failure_output e) |}.

Definition executeTerminal (d : ExecuteTerminalData) : M ToolResult :=
  try_catch (executeTerminal_try d) (fun e => ret (output_result e)).

(** [op] is [body] with every exception of [body] turned into the result
    [report e]; in particular it never throws. *)
Definition captures (body op : M ToolResult) (report : Thrown -> ToolResult)
    (st : FsState) : Prop :=
  match body st with
  | (Return r, st') => op st = (Return r, st')
  | (Throw e, st') => op st = (Return (report e), st')
  end.

End WithHost.

(** The replacement of every occurrence of [old] by [new], as the
    specification words it, to compare the split-and-join of the code
    with: the occurrences are taken left to right without overlap, [skip]
    counts the code units of an occurrence still to pass; the empty string
    occurs before every code unit and at the end. *)
Fixpoint replace_every (old new : jsstring) (skip : nat) (s : jsstring) : jsstring :=
  match s with
  | [] => match skip, old with O, [] => new | _, _ => [] end
  | c :: s' =>
      match skip with
      | S k => replace_every old new k s'
      | O =>
          match strip_prefix old s with
          | Some _ =>
              new ++ match old with
                     | [] => c :: replace_every old new 0 s'
                     | _ :: old' => replace_every old new (length old') s'
                     end
          | None => c :: replace_every old new 0 s'
          end
      end
  end.

Definition replace_all (old new s : jsstring) : jsstring := replace_every old new 0 s.

End ToolExecutor.

(* ===================================================================== *)
(** ** Orchestrator (EigentOrchestrator) *)
(* ===================================================================== *)

Module Orchestrator.
Import SSEClient ToolExecutor.

(** The delegated-execution steps. *)
Inductive ToolName :=
| execute_file_write
| execute_read_file
| execute_search_replace
| execute_list_files
| execute_terminal.

Definition tool_step (t : ToolName) : jsstring :=
  match t with
  | execute_file_write => js "execute_file_write"
  | execute_read_file => js "execute_read_file"
  | execute_search_replace => js "execute_search_replace"
  | execute_list_files => js "execute_list_files"
  | execute_terminal => js "execute_terminal"
  end.

(** The [case] labels of [handleEvent] that delegate. *)
Definition tool_of_step (st : JsVal) : option ToolName :=
  if is_str st (js "execute_file_write") then Some execute_file_write
  else if is_str st (js "execute_read_file") then Some execute_read_file
  else if is_str st (js "execute_search_replace") then Some execute_search_replace
  else if is_str st (js "execute_list_files") then Some execute_list_files
  else if is_str st (js "execute_terminal") then Some execute_terminal
  else None.

(** [["end", "error", "timeout"].includes(event.step)]. *)
Definition is_terminal (ev : SSEEvent) : bool :=
  is_str (step ev) (js "end") || is_str (step ev) (js "error")
  || is_str (step ev) (js "timeout").

(** EigentOrchestratorEvents. *)
Inductive OrchestratorEvent :=
| taskStarted
| taskCompleted (taskId : jsstring)
| taskAborted.

(** What the orchestrator does to the outside, one constructor per call
    site. *)
Inductive Effect :=
| Forward (ev : SSEEvent)            (* postMessage in handleEvent *)
| PostError (message : jsstring)     (* postMessage in the catch clause *)
| Emit (e : OrchestratorEvent)
| AskWait (agent : JsVal)            (* waitForHumanReply registers the slot *)
| ReplyResolved (reply : jsstring)   (* pendingHumanReply.resolve(reply) *)
| HumanReplyCall (projectId : jsstring) (agent : JsVal) (reply : jsstring)
| ToolRun (toolName : ToolName) (payload : JsVal)
| ToolResultCall (projectId : jsstring) (requestId : JsVal)
                 (toolName : ToolName) (result : ToolResult)
| StopChatCall (projectId : jsstring).

(** The message handed to [options.postMessage], as [(step, data)] under
    type ["eigentEvent"]. *)
Definition posted (e : Effect) : option (JsVal * JsVal) :=
  match e with
  | Forward ev => Some (step ev, data ev)
  | PostError m => Some (JStr (js "error"), JObj [(js "message", JStr m)])
  | _ => None
  end.

(** The instance fields. *)
Record Session := {
  projectId : jsstring;
  taskId : jsstring;
  aborted : bool;
  (** the agent of the pending slot; its [resolve] belongs to the wait
      [startTask] is suspended in *)
  pendingHumanReply : option JsVal;
  client : option EigentSSEClient;
}.

Definition isRunning (s : Session) : bool :=
  nonempty (projectId s) && negb (aborted s).

(** What one call of [startTask] receives from its collaborators. *)
Record TaskInput := {
  in_params : Completion ChatParams;         (* await buildChatParams(question, images) *)
  in_backendUrl : option jsstring;           (* the configured backend URL *)
  in_apiKey : Completion (option jsstring);  (* await getAscendeApiKey(context) *)
  in_events : list SSEEvent;                 (* what client.startChat(params) yields *)
  in_failure : option Thrown;                (* the stream throws after them *)
}.

Definition DEFAULT_ASCENDE_BACKEND_URL : jsstring := js "http://localhost:8000".

Definition getAscendeBackendUrl (inp : TaskInput) : jsstring :=
  nullish (in_backendUrl inp) DEFAULT_ASCENDE_BACKEND_URL.

(** Where [startTask] is suspended. *)
Inductive Pc :=
| AwaitParams
| AwaitApiKey (params : ChatParams)
| AwaitNext (rest : list SSEEvent)
| AwaitReply (ev : SSEEvent) (agent : JsVal) (rest : list SSEEvent)
             (resolved : option jsstring)
| Returned
| Rejected (e : Thrown).

(** Everything a move can change besides the place where [startTask] is
    suspended. *)
Record World := {
  session : Session;
  fs : FsState;
  trace : list Effect;
}.

Record Config := {
  pc : Pc;
  world : World;
}.

(** What the provider and the event loop can do next. *)
Inductive Move :=
| abortTask
| submitHumanReply (reply : jsstring)
(** [startTask] continues from its pending await; [call] is the error
    of the control call made during this continuation, if it fails *)
| resume (call : option Thrown).

Definition log (e : Effect) (w : World) : World :=
  {| session := session w; fs := fs w; trace := trace w ++ [e] |}.

Definition with_session (s : Session) (w : World) : World :=
  {| session := s; fs := fs w; trace := trace w |}.

Definition with_fs (f : FsState) (w : World) : World :=
  {| session := session w; fs := f; trace := trace w |}.

Definition set_ids (p t : jsstring) (s : Session) : Session :=
  {| projectId := p; taskId := t; aborted := aborted s;
     pendingHumanReply := pendingHumanReply s; client := client s |}.

Definition set_aborted (b : bool) (s : Session) : Session :=
  {| projectId := projectId s; taskId := taskId s; aborted := b;
     pendingHumanReply := pendingHumanReply s; client := client s |}.

Definition set_pending (p : option JsVal) (s : Session) : Session :=
  {| projectId := projectId s; taskId := taskId s; aborted := aborted s;
     pendingHumanReply := p; client := client s |}.

Definition set_client (k : EigentSSEClient) (s : Session) : Session :=
  {| projectId := projectId s; taskId := taskId s; aborted := aborted s;
     pendingHumanReply := pendingHumanReply s; client := Some k |}.

(** The [finally] clause. *)
Definition finally (w : World) : World :=
  with_session (set_ids [] [] (session w)) w.

(** Leaving the loop without an exception, to the return of
    [startTask]. *)
Definition completed (w : World) : World :=
  finally (log (Emit (taskCompleted (taskId (session w)))) w).

(** The [catch] clause, to the return of [startTask]. *)
Definition caught (e : Thrown) (w : World) : World :=
  let w := if aborted (session w) then w else log (PostError (error_text e)) w in
  finally (log (Emit taskAborted) w).

(** How an awaited [handleEvent] stands: it returned, it threw, or it is
    suspended in [waitForHumanReply]. *)
Inductive Outcome :=
| Done (w : World)
| Threw (e : Thrown) (w : World)
| Waiting (agent : JsVal) (w : World).

Definition outcome_world (o : Outcome) : World :=
  match o with
  | Done w | Threw _ w | Waiting _ w => w
  end.

(** The end of a control call. *)
Definition control_call (call : option Thrown) (w : World) : Outcome :=
  match call with
  | Some e => Threw e w
  | None => Done w
  end.

(** The payload fields as the declared types want them. *)
Definition field (payload : JsVal) (k : string) : option jsstring :=
  match get payload (js k) with
  | Some (JStr s) => Some s
  | _ => None
  end.

Section WithHost.
Context `{Platform} (host : Host).
(** The executor on a payload that is not of the declared type of its
    step (the cast in [executeAndPostResult] is unchecked). *)
Variable untyped : ToolName -> JsVal -> FsState -> ToolResult * FsState.
(** [options.workspacePath ?? getWorkspacePath()]. *)
Variable workspacePath : jsstring.

Definition typed_run {A} (d : option A) (op : A -> M ToolResult)
    (t : ToolName) (payload : JsVal) (st : FsState) : ToolResult * FsState :=
  match d with
  | Some d =>
      match op d st with
      | (Return r, st') => (r, st')
      | (Throw e, st') => (* not reached: the executor catches what it throws *)
          (message_result e, st')
      end
  | None => untyped t payload st
  end.

(** The [switch] of [executeAndPostResult]. *)
Definition run_tool (t : ToolName) (payload : JsVal) : FsState -> ToolResult * FsState :=
  match t with
  | execute_file_write =>
      typed_run
        (match field payload "request_id", field payload "path", field payload "content" with
         | Some r, Some p, Some c =>
             Some {| fw_request_id := r; fw_path := p; fw_content := c |}
         | _, _, _ => None
         end)
        (executeFileWrite host workspacePath) t payload
  | execute_read_file =>
      typed_run
        (match field payload "request_id", field payload "path" with
         | Some r, Some p => Some {| rf_request_id := r; rf_path := p |}
         | _, _ => None
         end)
        (executeReadFile host workspacePath) t payload
  | execute_search_replace =>
      typed_run
        (match field payload "request_id", field payload "path",
               field payload "old_string", field payload "new_string" with
         | Some r, Some p, Some o, Some n =>
             Some {| sr_request_id := r; sr_path := p; old_string := o; new_string := n |}
         | _, _, _, _ => None
         end)
        (executeSearchReplace host workspacePath) t payload
  | execute_list_files =>
      typed_run
        (match field payload "request_id", field payload "pattern" with
         | Some r, Some p => Some {| lf_request_id := r; pattern := p |}
         | _, _ => None
         end)
        (executeListFiles host workspacePath) t payload
  | execute_terminal =>
      typed_run
        (match field payload "request_id", field payload "command",
               get payload (js "cwd") with
         | Some r, Some cmd, None =>
             Some {| tm_request_id := r; command := cmd; cwd := None |}
         | Some r, Some cmd, Some (JStr d) =>
             Some {| tm_request_id := r; command := cmd; cwd := Some d |}
         | _, _, _ => None
         end)
        (executeTerminal host workspacePath) t payload
  end.

(** [executeAndPostResult(toolName, data)]. *)
Definition executeAndPostResult (t : ToolName) (payload : JsVal)
    (call : option Thrown) (w : World) : Outcome :=
  let requestId := get payload (js "request_id") in
  match requestId, client (session w) with
  | Some rid, Some _ =>
      if truthy rid && nonempty (projectId (session w)) then
        let '(result, st) := run_tool t payload (fs w) in
        let w := with_fs st (log (ToolRun t payload) w) in
        control_call call (log (ToolResultCall (projectId (session w)) rid t result) w)
      else Done w
  | _, _ => Done w
  end.

(** [handleEvent(event)], up to its return or its suspension in the
    wait of the [ask] case. *)
Definition handleEvent (ev : SSEEvent) (call : option Thrown) (w : World) : Outcome :=
  let w := log (Forward ev) w in
  if is_str (step ev) (js "ask") then
    let agent :=
      match get (data ev) (js "agent") with
      | None | Some JNull => JStr []
      | Some a => a
      end in
    Waiting agent
      (log (AskWait agent) (with_session (set_pending (Some agent) (session w)) w))
  else
    match tool_of_step (step ev) with
    | Some t => executeAndPostResult t (data ev) call w
    | None => Done w
    end.

(** The rest of the [ask] case once the wait is resolved. *)
Definition after_reply (agent : JsVal) (reply : jsstring) (call : option Thrown)
    (w : World) : Outcome :=
  match client (session w) with
  | Some _ =>
      if nonempty reply && nonempty (projectId (session w)) then
        control_call call (log (HumanReplyCall (projectId (session w)) agent reply) w)
      else Done w
  | None => Done w
  end.

(** The loop body around [await this.handleEvent(event)]: an exception
    goes to the [catch] clause, a terminal event leaves the loop. *)
Definition loop_body (ev : SSEEvent) (rest : list SSEEvent) (o : Outcome) : Config :=
  match o with
  | Done w =>
      if is_terminal ev then {| pc := Returned; world := completed w |}
      else {| pc := AwaitNext rest; world := w |}
  | Threw e w => {| pc := Returned; world := caught e w |}
  | Waiting agent w => {| pc := AwaitReply ev agent rest None; world := w |}
  end.

(** [startTask] continues from where it is suspended. *)
Definition do_resume (inp : TaskInput) (call : option Thrown) (c : Config) : Config :=
  let w := world c in
  match pc c with
  | AwaitParams =>
      match in_params inp with
      | Throw e => {| pc := Rejected e; world := w |}
      | Return params =>
          {| pc := AwaitApiKey params;
             world := with_session
                        (set_ids (project_id params) (task_id params) (session w)) w |}
      end
  | AwaitApiKey params =>
      match in_apiKey inp with
      | Throw e => {| pc := Rejected e; world := w |}
      | Return key =>
          let k := constructor {| opt_baseUrl := getAscendeBackendUrl inp;
                                  opt_apiKey := key |} in
          {| pc := AwaitNext (in_events inp);
             world := log (Emit taskStarted) (with_session (set_client k (session w)) w) |}
      end
  | AwaitNext [] =>
      match in_failure inp with
      | None => {| pc := Returned; world := completed w |}
      | Some e => {| pc := Returned; world := caught e w |}
      end
  | AwaitNext (ev :: rest) =>
      if aborted (session w) then {| pc := Returned; world := completed w |}
      else loop_body ev rest (handleEvent ev call w)
  | AwaitReply ev agent rest (Some reply) =>
      loop_body ev rest (after_reply agent reply call w)
  | AwaitReply _ _ _ None => c
  | Returned => c
  | Rejected _ => c
  end.

(** [pendingHumanReply.resolve(reply); pendingHumanReply = null]. *)
Definition resolve_pending (reply : jsstring) (c : Config) : Config :=
  let w := world c in
  match pendingHumanReply (session w) with
  | Some _ =>
      {| pc := match pc c with
               | AwaitReply ev agent rest None => AwaitReply ev agent rest (Some reply)
               | p => p
               end;
         world := with_session (set_pending None (session w)) (log (ReplyResolved reply) w) |}
  | None => c
  end.

Definition do_submitHumanReply (reply : jsstring) (c : Config) : Config :=
  resolve_pending reply c.

(** The stop call of [abortTask]; its failure is swallowed. *)
Definition stop_call (w : World) : World :=
  match client (session w) with
  | Some _ =>
      if nonempty (projectId (session w)) then log (StopChatCall (projectId (session w))) w
      else w
  | None => w
  end.

(** [abortTask()]. *)
Definition do_abortTask (c : Config) : Config :=
  let c := {| pc := pc c;
              world := with_session (set_aborted true (session (world c))) (world c) |} in
  let c := resolve_pending [] c in
  {| pc := pc c; world := log (Emit taskAborted) (stop_call (world c)) |}.

Definition move (inp : TaskInput) (m : Move) (c : Config) : Config :=
  match m with
  | abortTask => do_abortTask c
  | submitHumanReply reply => do_submitHumanReply reply c
  | resume call => do_resume inp call c
  end.

Fixpoint run (inp : TaskInput) (ms : list Move) (c : Config) : Config :=
  match ms with
  | [] => c
  | m :: ms' => run inp ms' (move inp m c)
  end.

(** An orchestrator that no task has used yet, over a given file store. *)
Definition idle (st : FsState) : Config :=
  {| pc := Returned;
     world := {| session := {| projectId := []; taskId := []; aborted := false;
                               pendingHumanReply := None; client := None |};
                 fs := st; trace := [] |} |}.

(** The call [startTask(question, images)], up to its first await. *)
Definition startTask_call (c : Config) : Config :=
  {| pc := AwaitParams;
     world := with_session (set_aborted false (session (world c))) (world c) |}.

(** One task: the call on an idle orchestrator, then the given moves. *)
Definition startTask (inp : TaskInput) (ms : list Move) (st : FsState) : Config :=
  run inp ms (startTask_call (idle st)).

End WithHost.

(** Projections of a trace. *)
Definition forwarded (t : list Effect) : list SSEEvent :=
  omap (fun e => match e with Forward ev => Some ev | _ => None end) t.

Definition terminal_signals (t : list Effect) : list OrchestratorEvent :=
  omap (fun e => match e with
                 | Emit (taskCompleted i) => Some (taskCompleted i)
                 | Emit taskAborted => Some taskAborted
                 | _ => None
                 end) t.

Definition is_human_reply_call (e : Effect) : bool :=
  match e with HumanReplyCall _ _ _ => true | _ => false end.

Definition human_reply_calls (t : list Effect) : list Effect :=
  List.filter is_human_reply_call t.

Definition is_tool_effect (e : Effect) : bool :=
  match e with
  | ToolRun _ _ | ToolResultCall _ _ _ _ => true
  | _ => false
  end.

Definition tool_effects (t : list Effect) : list Effect :=
  List.filter is_tool_effect t.

Definition is_abort (m : Move) : bool :=
  match m with abortTask => true | _ => false end.

(** The events up to and including the first terminal one. *)
Fixpoint upto_terminal (evs : list SSEEvent) : list SSEEvent :=
  match evs with
  | [] => []
  | ev :: evs' => if is_terminal ev then [ev] else ev :: upto_terminal evs'
  end.

Definition posted_errors (t : list Effect) : list jsstring :=
  omap (fun e => match e with PostError m => Some m | _ => None end) t.

Definition no_terminal (l : list SSEEvent) : bool :=
  forallb (fun ev => negb (is_terminal ev)) l.

(** The same input with another stream of events. *)
Definition with_events (evs : list SSEEvent) (inp : TaskInput) : TaskInput :=
  {| in_params := in_params inp; in_backendUrl := in_backendUrl inp;
     in_apiKey := in_apiKey inp; in_events := evs; in_failure := in_failure inp |}.

(** *** Predicates on configurations *)

(** From [w] to [w'] the identifiers, the flags and the client are kept,
    and no terminal signal and no error event is added. *)
Definition keeps (w w' : World) : Prop :=
  projectId (session w') = projectId (session w)
  /\ taskId (session w') = taskId (session w)
  /\ aborted (session w') = aborted (session w)
  /\ client (session w') = client (session w)
  /\ terminal_signals (trace w') = terminal_signals (trace w)
  /\ posted_errors (trace w') = posted_errors (trace w).


(** The pending slot is set exactly while [startTask] is suspended in an
    unresolved wait. *)
Definition linked (c : Config) : Prop :=
  match pendingHumanReply (session (world c)) with
  | Some a => exists ev rest, pc c = AwaitReply ev a rest None
  | None => forall ev a rest, pc c <> AwaitReply ev a rest None
  end.

(** After an abort that found the wait resolved or absent: the session is
    aborted, no slot is pending and a resolved wait holds the empty
    reply. *)
Definition silenced (c : Config) : Prop :=
  aborted (session (world c)) = true
  /\ pendingHumanReply (session (world c)) = None
  /\ forall ev a rest r, pc c = AwaitReply ev a rest (Some r) -> r = [].

(** The forwarded events and the unread rest make up the stream, and no
    terminal event has been passed while the loop is running. *)
Definition tracks (inp : TaskInput) (c : Config) : Prop :=
  let fwd := forwarded (trace (world c)) in
  match pc c with
  | AwaitParams | AwaitApiKey _ | Rejected _ => fwd = []
  | AwaitNext rest => in_events inp = fwd ++ rest /\ no_terminal fwd = true
  | AwaitReply ev _ rest _ =>
      in_events inp = fwd ++ rest /\ no_terminal fwd = true /\ is_terminal ev = false
  | Returned => fwd `prefix_of` upto_terminal (in_events inp)
  end.


(** A configuration with the unread events after the first terminal one
    removed. *)
Definition cut_pc (p : Pc) : Pc :=
  match p with
  | AwaitNext rest => AwaitNext (upto_terminal rest)
  | AwaitReply ev a rest r => AwaitReply ev a (upto_terminal rest) r
  | _ => p
  end.

Definition cut (c : Config) : Config := {| pc := cut_pc (pc c); world := world c |}.

(** The thrown values a task can meet: the failure of the stream and the
    failures of control calls. *)
Definition thrown_in (inp : TaskInput) (ms : list Move) (e : Thrown) : Prop :=
  in_failure inp = Some e \/ In (resume (Some e)) ms.

(** A task during which [abortTask] is not called: no terminal signal and
    no error event before it returns; when it has returned, either the
    completion signal alone, with all events up to the first terminal one
    forwarded, or an error event and the abort signal. *)
Definition quiet (inp : TaskInput) (params : ChatParams)
    (source : Thrown -> Prop) (c : Config) : Prop :=
  let w := world c in
  aborted (session w) = false
  /\ match pc c with
     | AwaitParams | Rejected _ =>
         terminal_signals (trace w) = [] /\ posted_errors (trace w) = []
     | AwaitApiKey _ | AwaitNext _ | AwaitReply _ _ _ _ =>
         taskId (session w) = task_id params
         /\ terminal_signals (trace w) = [] /\ posted_errors (trace w) = []
     | Returned =>
         (terminal_signals (trace w) = [taskCompleted (task_id params)]
          /\ posted_errors (trace w) = []
          /\ forwarded (trace w) = upto_terminal (in_events inp))
         \/ (exists e, source e
                       /\ terminal_signals (trace w) = [taskAborted]
                       /\ posted_errors (trace w) = [error_text e])
     end.

End Orchestrator.

(* ===================================================================== *)
(** ** Chat-parameter builder (buildEigentChatParams) *)
(* ===================================================================== *)

Module ChatParamsBuilder.

(** The fields of ApiConfiguration the builder reads. *)
Record ApiConfiguration := {
  apiProvider : option jsstring;
  openRouterApiKey : option jsstring;
  openAiApiKey : option jsstring;
  apiKey : option jsstring;
  openRouterBaseUrl : option jsstring;
  openAiBaseUrl : option jsstring;
}.

(** A configured string that is truthy. *)
Definition configured (x : option jsstring) : option jsstring :=
  match x with
  | Some s => if nonempty s then Some s else None
  | None => None
  end.

Definition provider_is (config : ApiConfiguration) (name : string) : bool :=
  bool_decide (apiProvider config = Some (js name)).

(** The first candidate that is set. *)
Fixpoint first_set (l : list (option jsstring)) : option jsstring :=
  match l with
  | [] => None
  | Some k :: _ => Some k
  | None :: l' => first_set l'
  end.

(** [p === name && x]. *)
Definition for_provider (config : ApiConfiguration) (name : string)
    (x : option jsstring) : option jsstring :=
  if provider_is config name then configured x else None.

Definition getApiKey (config : ApiConfiguration) : jsstring :=
  nullish
    (first_set
       [ for_provider config "openrouter" (openRouterApiKey config);
         for_provider config "openai" (openAiApiKey config);
         for_provider config "anthropic" (apiKey config);
         configured (openAiApiKey config);
         configured (openRouterApiKey config);
         configured (apiKey config) ])
    (js "not-provided").

Definition getApiUrl (config : ApiConfiguration) : Nullable jsstring :=
  match first_set [ for_provider config "openrouter" (openRouterBaseUrl config);
                    for_provider config "openai" (openAiBaseUrl config) ] with
  | Some u => Value u
  | None => Null
  end.

Section WithAmbient.
(** [buildApiHandler(apiConfiguration).getModel().id],
    [crypto.randomUUID()] and [getWorkspacePath()]. *)
Variable model_id : ApiConfiguration -> jsstring.
Variable randomUUID : jsstring.
Variable getWorkspacePath : jsstring.

Definition buildEigentChatParams (apiConfiguration : ApiConfiguration)
    (question : jsstring) (images : option (list jsstring))
    (workspacePath : option jsstring) : ChatParams :=
  let id := randomUUID in
  let projectId := id in
  let taskId := id in
  let attaches := nullish images [] in
  {| task_id := taskId;
     project_id := projectId;
     question := question;
     email := js "user@ascende.local";
     attaches := Some attaches;
     model_platform := js "openai-compatible-model";
     model_type := model_id apiConfiguration;
     api_key := getApiKey apiConfiguration;
     api_url := getApiUrl apiConfiguration;
     language := Some (js "en");
     browser_port := Some (double_of_N 9222);
     max_retries := Some (double_of_N 3);
     allow_local_system := Some true;
     installed_mcp := Some (JObj [(js "mcpServers", JObj [])]);
     env_path := Undefined;
     file_save_path := Some (nullish workspacePath getWorkspacePath) |}.

End WithAmbient.

End ChatParamsBuilder.

(* ===================================================================== *)
(** ** A concrete platform for running the model *)
(* ===================================================================== *)

Module Sample.
Import ToolExecutor.

(** The UTF-8 decoder of the Encoding standard, one byte at a time. *)
Record Utf8 := {
  u_code_point : N;
  u_seen : N;
  u_needed : N;
  u_lower : N;
  u_upper : N;
  u_bom_seen : bool;
}.

Definition utf8_idle (bom : bool) : Utf8 :=
  {| u_code_point := 0; u_seen := 0; u_needed := 0;
     u_lower := 0x80; u_upper := 0xBF; u_bom_seen := bom |}.

Definition utf8_expect (cp needed lo hi : N) (bom : bool) : Utf8 :=
  {| u_code_point := cp; u_seen := 0; u_needed := needed;
     u_lower := lo; u_upper := hi; u_bom_seen := bom |}.

(** A byte met when no sequence is open. *)
Definition utf8_lead (bom : bool) (b : N) : Utf8 * list N :=
  if b <=? 0x7F then (utf8_idle bom, [b])
  else if (0xC2 <=? b) && (b <=? 0xDF) then
    (utf8_expect (N.land b 0x1F) 1 0x80 0xBF bom, [])
  else if (0xE0 <=? b) && (b <=? 0xEF) then
    (utf8_expect (N.land b 0xF) 2
       (if b =? 0xE0 then 0xA0 else 0x80) (if b =? 0xED then 0x9F else 0xBF) bom, [])
  else if (0xF0 <=? b) && (b <=? 0xF4) then
    (utf8_expect (N.land b 0x7) 3
       (if b =? 0xF0 then 0x90 else 0x80) (if b =? 0xF4 then 0x8F else 0xBF) bom, [])
  else (utf8_idle bom, [0xFFFD]).

(** The handler: code points produced by one byte. *)
Definition utf8_handler (st : Utf8) (b : N) : Utf8 * list N :=
  let bom := u_bom_seen st in
  if u_needed st =? 0 then utf8_lead bom b
  else if (b <? u_lower st) || (u_upper st <? b) then
    let '(st', out) := utf8_lead bom b in (st', 0xFFFD :: out)
  else
    let cp := N.lor (N.shiftl (u_code_point st) 6) (N.land b 0x3F) in
    if u_seen st + 1 =? u_needed st then (utf8_idle bom, [cp])
    else ({| u_code_point := cp; u_seen := u_seen st + 1; u_needed := u_needed st;
             u_lower := 0x80; u_upper := 0xBF; u_bom_seen := bom |}, []).

(** A code point as UTF-16 code units. *)
Definition utf16 (cp : N) : jsstring :=
  if cp <? 0x10000 then [cp]
  else let v := cp - 0x10000 in [0xD800 + N.shiftr v 10; 0xDC00 + N.land v 0x3FF].

Definition with_bom_seen (st : Utf8) : Utf8 :=
  {| u_code_point := u_code_point st; u_seen := u_seen st; u_needed := u_needed st;
     u_lower := u_lower st; u_upper := u_upper st; u_bom_seen := true |}.

(** The decoder with its byte-order-mark rule: a leading U+FEFF is
    dropped. *)
Definition utf8_byte (st : Utf8) (b : Byte.byte) : Utf8 * jsstring :=
  let '(st', out) := utf8_handler st (Byte.to_N b) in
  match out with
  | [] => (st', [])
  | c :: out' =>
      if u_bom_seen st' then (st', flat_map utf16 out)
      else (with_bom_seen st', flat_map utf16 (if c =? 0xFEFF then out' else out))
  end.

Definition utf8_flush (st : Utf8) : jsstring :=
  if u_needed st =? 0 then [] else [0xFFFD].

Definition is_high (c : N) : bool := (0xD800 <=? c) && (c <=? 0xDBFF).
Definition is_low (c : N) : bool := (0xDC00 <=? c) && (c <=? 0xDFFF).

(** The scalar values of a string; a lone surrogate becomes U+FFFD. *)
Fixpoint scalars (s : jsstring) : list N :=
  match s with
  | [] => []
  | c :: s' =>
      if is_high c then
        match s' with
        | d :: s'' =>
            if is_low d then
              (0x10000 + N.shiftl (c - 0xD800) 10 + (d - 0xDC00)) :: scalars s''
            else 0xFFFD :: scalars s'
        | [] => [0xFFFD]
        end
      else if is_low c then 0xFFFD :: scalars s'
      else c :: scalars s'
  end.

Definition byte_of (n : N) : Byte.byte :=
  match Byte.of_N n with Some b => b | None => Byte.x00 end.

Definition utf8_bytes (cp : N) : list Byte.byte :=
  let cont (k : N) := byte_of (N.lor 0x80 (N.land (N.shiftr cp k) 0x3F)) in
  if cp <? 0x80 then [byte_of cp]
  else if cp <? 0x800 then [byte_of (N.lor 0xC0 (N.shiftr cp 6)); cont 0]
  else if cp <? 0x10000 then [byte_of (N.lor 0xE0 (N.shiftr cp 12)); cont 6; cont 0]
  else [byte_of (N.lor 0xF0 (N.shiftr cp 18)); cont 12; cont 6; cont 0].

Definition encode (s : jsstring) : list Byte.byte := flat_map utf8_bytes (scalars s).

(** Absolute paths start with a slash; a relative path is appended to the
    root (enough for paths without dot segments). *)
Definition isAbsolute (p : jsstring) : bool :=
  match p with 47 :: _ => true | _ => false end.
Definition resolve (root p : jsstring) : jsstring := root ++ [47] ++ p.
Definition relative (root p : jsstring) : jsstring :=
  match strip_prefix (root ++ [47]) p with Some r => r | None => p end.

(** [JSON.parse] on the frames of an example, given as a table. *)
Definition table_parse (tbl : list (jsstring * JsVal)) (s : jsstring) : option JsVal :=
  assoc s tbl.

Definition platform (tbl : list (jsstring * JsVal)) : Platform :=
  {| DecState := Utf8;
     dec_init := utf8_idle false;
     dec_byte := utf8_byte;
     dec_flush := utf8_flush;
     utf8_encode := encode;
     JSON_parse := table_parse tbl;
     path_isAbsolute := isAbsolute;
     path_resolve := resolve;
     path_relative := relative |}.

(** A stream of two events around a keep-alive comment, the last frame
    not closed by a blank line, and the table that parses its JSON. *)
Definition quoted (s : string) : jsstring := [34] ++ js s ++ [34].
Definition step_json (name : string) : jsstring :=
  js "{" ++ quoted "step" ++ js ":" ++ quoted name ++ js "}".
Definition stream_text : jsstring :=
  js "data: " ++ step_json "confirmed" ++ [10; 10]
  ++ js ": ping" ++ [10; 10]
  ++ js "event: message" ++ [10] ++ js "data:" ++ step_json "end".
Definition stream_table : list (jsstring * JsVal) :=
  [ (step_json "confirmed", JObj [(js "step", JStr (js "confirmed"))]);
    (step_json "end", JObj [(js "step", JStr (js "end"))]) ].

(** The bytes cut into reads of [n] bytes ([fuel] bounds the number of
    reads). *)
Fixpoint chop (fuel n : nat) (bytes : list Byte.byte) : list (list Byte.byte) :=
  match fuel, bytes with
  | O, _ | _, [] => []
  | S fuel', _ => firstn n bytes :: chop fuel' n (skipn n bytes)
  end.

(** A host on which only the file store matters: every path may be read
    and written, there is no workspace folder and commands fail with the
    given error. *)
Definition host (e : Thrown) : Host :=
  {| workspaceFolder := None;
     file_not_found := fun p => Error (js "ENOENT: " ++ p);
     read_refused := fun _ => None;
     write_refused := fun _ => None;
     findFiles := fun _ _ _ => Return [];
     listFiles := fun _ _ _ => Return ([], false);
     execa := fun _ _ fs => (Throw e, fs) |}.

(** Params as the builder makes them when no base URL is configured,
    without a save path. *)
Definition params : ChatParams :=
  {| task_id := js "t1"; project_id := js "p1"; question := js "hello";
     email := js "user@ascende.local"; attaches := Some [];
     model_platform := js "openai-compatible-model"; model_type := js "m";
     api_key := js "not-provided"; api_url := Null; language := Some (js "en");
     browser_port := Some (double_of_N 9222); max_retries := Some (double_of_N 3);
     allow_local_system := Some true;
     installed_mcp := Some (JObj [(js "mcpServers", JObj [])]);
     env_path := Undefined; file_save_path := None |}.

Definition sse_client : SSEClient.EigentSSEClient :=
  SSEClient.constructor
    {| SSEClient.opt_baseUrl := js "http://localhost:8000/"; SSEClient.opt_apiKey := None |}.

(** A store with one file, "/w/f.txt", holding "ab". *)
Definition store : FsState :=
  {| files := {[ js "/w/f.txt" := list_byte_of_string "ab" ]}; writes := [] |}.

(** The error of a command that exited with code 3 without printing
    anything: the captured output is the empty string. *)
Definition command_failed : Thrown :=
  {| instanceof_Error := true;
     e_message := js "Command failed with exit code 3: exit 3";
     e_String := js "Error: Command failed with exit code 3: exit 3";
     e_all := Some []; e_stdout := Some []; e_stderr := Some [] |}.

(** An executor for untyped payloads that reports a failure. *)
Definition untyped (t : Orchestrator.ToolName) (p : JsVal) (st : FsState)
  : ToolResult * FsState :=
  ({| success := false; content := None; error := Some (js "invalid payload") |}, st).

(** The events of the end-to-end scenario of the specification, and a
    progress notice. *)
Definition ask_event : SSEEvent :=
  {| step := JStr (js "ask");
     data := JObj [(js "agent", JStr (js "a1")); (js "request_id", JStr (js "r1"))] |}.
Definition read_event : SSEEvent :=
  {| step := JStr (js "execute_read_file");
     data := JObj [(js "request_id", JStr (js "r2")); (js "path", JStr (js "f.txt"))] |}.
Definition end_event : SSEEvent := {| step := JStr (js "end"); data := JObj [] |}.
Definition notice_event : SSEEvent := {| step := JStr (js "notice"); data := JObj [] |}.

(** A delegated read whose payload has no [request_id]. *)
Definition anonymous_read_event : SSEEvent :=
  {| step := JStr (js "execute_read_file"); data := JObj [(js "path", JStr (js "f.txt"))] |}.

(** A task over the given stream, with params for project p1 and task
    t1, no API key, and the default backend. *)
Definition task (evs : list SSEEvent) (failure : option Thrown) : Orchestrator.TaskInput :=
  {| Orchestrator.in_params := Return params;
     Orchestrator.in_backendUrl := None;
     Orchestrator.in_apiKey := Return None;
     Orchestrator.in_events := evs;
     Orchestrator.in_failure := failure |}.

(** [startTask] on the sample platform, workspace "/w". *)
Definition startTask (inp : Orchestrator.TaskInput) (ms : list Orchestrator.Move)
  : Orchestrator.Config :=
  Orchestrator.startTask (H := platform []) (host command_failed) untyped (js "/w")
    inp ms store.

End Sample.

(* ===================================================================== *)
(** ** Stream client: the control calls and the frames of a stream *)
(* ===================================================================== *)

Module SSEControl.
Import SSEClient.

(** [new Error(`Eigent ${name} failed: ${res.status} - ${text}`)]. *)
Definition failed (name : string) (res : Response) : Thrown :=
  Error (js "Eigent " ++ js name ++ js " failed: " ++ dec (res_status res)
         ++ js " - " ++ res_text res).

(** [if (!res.ok) throw ...]. *)
Definition check_ok (name : string) (res : Response) : Completion unit :=
  if res_ok res then Return tt else Throw (failed name res).

(** A control call: the request it makes, and how it ends on the given
    response. *)
Definition Call : Type := Request * Completion unit.

Definition stopChat (c : EigentSSEClient) (projectId : jsstring) (res : Response) : Call :=
  ({| req_url := baseUrl c ++ js "/chat/" ++ projectId;
      req_method := js "DELETE";
      req_headers := headers c;
      req_body := None |},
   if negb (res_ok res) && negb (res_status res =? 204)
   then Throw (failed "stopChat" res) else Return tt).

(** The agent and the request identifier are passed on as they come from
    the payload of the event. *)
Definition humanReply (c : EigentSSEClient) (projectId : jsstring) (agent : JsVal)
    (reply : jsstring) (res : Response) : Call :=
  ({| req_url := baseUrl c ++ js "/chat/" ++ projectId ++ js "/human-reply";
      req_method := js "POST";
      req_headers := headers c;
      req_body := Some (JObj [(js "agent", agent); (js "reply", JStr reply)]) |},
   check_ok "humanReply" res).

(** A field of an object literal that [JSON.stringify] leaves out when it
    is undefined. *)
Definition optional (k : string) (v : option JsVal) : list (jsstring * JsVal) :=
  match v with
  | Some x => [(js k, x)]
  | None => []
  end.

(** A ToolResult as the object the executor built. *)
Definition result_json (r : ToolResult) : JsVal :=
  JObj ([(js "success", JBool (success r))]
        ++ optional "content" (JStr <$> content r)
        ++ optional "error" (JStr <$> error r)).

Definition toolResult (c : EigentSSEClient) (projectId : jsstring) (requestId : JsVal)
    (toolName : jsstring) (result : ToolResult) (res : Response) : Call :=
  ({| req_url := baseUrl c ++ js "/chat/" ++ projectId ++ js "/tool-result";
      req_method := js "POST";
      req_headers := headers c;
      req_body := Some (JObj [(js "request_id", requestId);
                              (js "tool_name", JStr toolName);
                              (js "result", result_json result)]) |},
   check_ok "toolResult" res).

Record AddTaskOptions := {
  taskId : option jsstring;
  additionalInfo : option JsVal;
  insertPosition : option N;
  isIndependent : option bool;
}.

(** [options?.k]. *)
Definition option_of {A B} (options : option A) (k : A -> option B) : option B :=
  match options with
  | Some o => k o
  | None => None
  end.

Definition addTask_body (projectId content : jsstring) (options : option AddTaskOptions)
  : list (jsstring * JsVal) :=
  [(js "content", JStr content); (js "project_id", JStr projectId)]
  ++ optional "task_id" (JStr <$> option_of options taskId)
  ++ optional "additional_info" (option_of options additionalInfo)
  ++ optional "insert_position" (JNum <$> option_of options insertPosition)
  ++ optional "is_independent" (JBool <$> option_of options isIndependent).

Definition addTask (c : EigentSSEClient) (projectId content : jsstring)
    (options : option AddTaskOptions) (res : Response) : Call :=
  ({| req_url := baseUrl c ++ js "/chat/" ++ projectId ++ js "/add-task";
      req_method := js "POST";
      req_headers := headers c;
      req_body := Some (JObj (addTask_body projectId content options)) |},
   check_ok "addTask" res).

Definition removeTask (c : EigentSSEClient) (projectId taskId : jsstring) (res : Response)
  : Call :=
  ({| req_url := baseUrl c ++ js "/chat/" ++ projectId ++ js "/remove-task/" ++ taskId;
      req_method := js "DELETE";
      req_headers := headers c;
      req_body := None |},
   check_ok "removeTask" res).

Definition skipTask (c : EigentSSEClient) (projectId : jsstring) (res : Response) : Call :=
  ({| req_url := baseUrl c ++ js "/chat/" ++ projectId ++ js "/skip-task";
      req_method := js "POST";
      req_headers := headers c;
      req_body := None |},
   check_ok "skipTask" res).

Record ImproveOptions := {
  im_taskId : option jsstring;
  im_attaches : option (list jsstring);
}.

Definition improve_body (question : jsstring) (options : option ImproveOptions)
  : list (jsstring * JsVal) :=
  [(js "question", JStr question)]
  ++ optional "task_id" (JStr <$> option_of options im_taskId)
  ++ optional "attaches" ((fun l => JArr (map JStr l)) <$> option_of options im_attaches).

Definition improve (c : EigentSSEClient) (projectId question : jsstring)
    (options : option ImproveOptions) (res : Response) : Call :=
  ({| req_url := baseUrl c ++ js "/chat/" ++ projectId;
      req_method := js "POST";
      req_headers := headers c;
      req_body := Some (JObj (improve_body question options)) |},
   check_ok "improve" res).

(** The calls by name, each on arguments of its own. *)
Inductive ControlCall :=
| StopChat (projectId : jsstring)
| HumanReply (projectId : jsstring) (agent : JsVal) (reply : jsstring)
| ToolResultOf (projectId : jsstring) (requestId : JsVal) (toolName : jsstring)
               (result : ToolResult)
| AddTask (projectId content : jsstring) (options : option AddTaskOptions)
| RemoveTask (projectId taskId : jsstring)
| SkipTask (projectId : jsstring)
| Improve (projectId question : jsstring) (options : option ImproveOptions).

Definition perform (c : EigentSSEClient) (k : ControlCall) (res : Response) : Call :=
  match k with
  | StopChat p => stopChat c p res
  | HumanReply p a r => humanReply c p a r res
  | ToolResultOf p i t r => toolResult c p i t r res
  | AddTask p x o => addTask c p x o res
  | RemoveTask p t => removeTask c p t res
  | SkipTask p => skipTask c p res
  | Improve p q o => improve c p q o res
  end.

Definition project_of (k : ControlCall) : jsstring :=
  match k with
  | StopChat p | HumanReply p _ _ | ToolResultOf p _ _ _ | AddTask p _ _
  | RemoveTask p _ | SkipTask p | Improve p _ _ => p
  end.

Definition method_name (k : ControlCall) : string :=
  match k with
  | StopChat _ => "stopChat"
  | HumanReply _ _ _ => "humanReply"
  | ToolResultOf _ _ _ _ => "toolResult"
  | AddTask _ _ _ => "addTask"
  | RemoveTask _ _ => "removeTask"
  | SkipTask _ => "skipTask"
  | Improve _ _ _ => "improve"
  end.

End SSEControl.

Module SSEFrames.
Import SSEClient.

Section WithPlatform.
Context `{Platform}.

(** What [parseSSEChunk] makes of the text of its [data:] line. *)
Definition event_of_text (m : jsstring) : option SSEEvent :=
  match JSON_parse (trim m) with
  | None => None
  | Some JNull => None
  | Some d =>
      match get d (js "step") with
      | Some st =>
          if truthy st then
            Some {| step := st;
                    data := match get d (js "data") with
                            | None | Some JNull => JObj []
                            | Some x => x
                            end |}
          else None
      | None => None
      end
  end.

End WithPlatform.

(** A frame as the backend writes it: one [data:] line, then the blank
    line. *)
Definition frame (payload : jsstring) : jsstring :=
  js "data: " ++ payload ++ frame_delimiter.

(** A payload that fits on the [data:] line: no line terminator in it,
    and a first character that is not white space. *)
Definition single_line (p : jsstring) : bool :=
  forallb (fun c => negb (is_line_terminator c)) p.

Definition one_line_payload (p : jsstring) : bool :=
  single_line p && match p with c :: _ => negb (is_space c) | [] => false end.

End SSEFrames.

(* ===================================================================== *)
(** ** Tool executor: what an operation may do to the store *)
(* ===================================================================== *)

Module ToolEffects.
Import ToolExecutor.

(** From [st] to [st'] nothing happened, or [path] was written once. *)
Definition wrote_at_most (path : jsstring) (st st' : FsState) : Prop :=
  st' = st
  \/ exists bytes,
      st' = {| files := <[path := bytes]> (files st);
               writes := writes st ++ [(path, bytes)] |}.

(** The two forms of the result of a file operation: success with a
    content and no error, or failure with an error and no content. *)
Definition file_result (r : ToolResult) : Prop :=
  (success r = true /\ is_Some (content r) /\ error r = None)
  \/ (success r = false /\ content r = None /\ is_Some (error r)).

(** The result of a command: the output is always there; an error, when
    there is one, repeats it and goes with a failure. *)
Definition command_result (r : ToolResult) : Prop :=
  is_Some (content r)
  /\ (error r = None \/ (success r = false /\ error r = content r)).

End ToolEffects.

(* ===================================================================== *)
(** ** Orchestrator: the shape of a running task *)
(* ===================================================================== *)

Module TaskShape.
Import SSEClient ToolExecutor Orchestrator.

(** [(data.agent as string) ?? ""]. *)
Definition ask_agent (ev : SSEEvent) : JsVal :=
  match get (data ev) (js "agent") with
  | None | Some JNull => JStr []
  | Some a => a
  end.

(** [startTask] is suspended inside the loop over the stream. *)
Definition in_loop (p : Pc) : bool :=
  match p with
  | AwaitNext _ | AwaitReply _ _ _ _ => true
  | _ => false
  end.

(** The identifiers have been taken from the params, and the [finally]
    clause has not been passed. *)
Definition started (p : Pc) : bool :=
  match p with
  | AwaitParams | Returned => false
  | _ => true
  end.

(** What holds of a task whose params are [params]: the identifiers of
    the session are those of the params from the first await to the
    [finally] clause and empty otherwise; inside the loop the client is the
    one built from the configured URL and the stored key; a wait belongs to
    an [ask] event and its agent; a slot is pending only in a session that
    is not aborted. *)
Definition established (inp : TaskInput) (params : ChatParams) (c : Config) : Prop :=
  let s := session (world c) in
  (if started (pc c)
   then projectId s = project_id params /\ taskId s = task_id params
   else projectId s = [] /\ taskId s = [])
  /\ (in_loop (pc c) = true ->
      exists key, in_apiKey inp = Return key
                  /\ client s = Some (constructor {| opt_baseUrl := getAscendeBackendUrl inp;
                                                     opt_apiKey := key |}))
  /\ (forall ev a rest r, pc c = AwaitReply ev a rest r ->
        a = ask_agent ev /\ is_str (step ev) (js "ask") = true)
  /\ (pendingHumanReply s <> None -> aborted s = false).

(** The tool effects of a trace come in pairs: the run of a tool on a
    payload with a usable request identifier, then the tool-result call
    for project [pid] with that identifier and that tool. *)
Inductive tool_pairs (pid : jsstring) : list Effect -> Prop :=
| tool_pairs_nil : tool_pairs pid []
| tool_pairs_snoc l t payload rid r :
    tool_pairs pid l ->
    get payload (js "request_id") = Some rid ->
    truthy rid = true ->
    tool_pairs pid (l ++ [ToolRun t payload; ToolResultCall pid rid t r]).

Section WithHost.
Context `{Platform} (host : Host).
Variable untyped : ToolName -> JsVal -> FsState -> ToolResult * FsState.
Variable workspacePath : jsstring.

(** The world after a delegated tool has run on the payload and its
    result has been handed to the tool-result call. *)
Definition tool_world (t : ToolName) (payload rid : JsVal) (w : World) : World :=
  {| session := session w;
     fs := snd (run_tool host untyped workspacePath t payload (fs w));
     trace := trace w ++ [ToolRun t payload;
                          ToolResultCall (projectId (session w)) rid t
                            (fst (run_tool host untyped workspacePath t payload (fs w)))] |}.

End WithHost.

(** The reply to the pending wait is resolved. *)
Definition resolved (reply : jsstring) (p : Pc) : Pc :=
  match p with
  | AwaitReply ev agent rest None => AwaitReply ev agent rest (Some reply)
  | _ => p
  end.

End TaskShape.

(* ===================================================================== *)
(** ** Orchestrator: every await on its own *)
(* ===================================================================== *)

(** The orchestrator once more, with each [await] of [startTask],
    [handleEvent], [executeAndPostResult] and [abortTask] as a place of its
    own where the provider can come in between: the tool in flight, the
    control calls in flight, the stop call of an abort.  The moves of
    [Orchestrator] are the runs of this machine in which every tool and
    every call settles before anything else happens. *)
Module Interleaved.
Import SSEClient ToolExecutor Orchestrator TaskShape.

(** Where [startTask] is suspended. *)
Inductive Await :=
| AtParams                        (* await this.options.buildChatParams(...) *)
| AtApiKey (params : ChatParams)  (* await getAscendeApiKey(...) *)
| AtNext (rest : list SSEEvent)   (* for await: the next event of the stream *)
| AtReply (ev : SSEEvent) (agent : JsVal) (rest : list SSEEvent)
          (resolved : option jsstring)  (* await this.waitForHumanReply(agent) *)
| AtReplyCall (ev : SSEEvent) (rest : list SSEEvent)
                                  (* await this.client.humanReply(...) *)
| AtTool (ev : SSEEvent) (rest : list SSEEvent) (t : ToolName) (requestId : JsVal)
                                  (* result = await this.toolExecutor.execute...(data) *)
| AtResultCall (ev : SSEEvent) (rest : list SSEEvent)
                                  (* await this.client.toolResult(...) *)
(** the loop is left by [break] ([None]) or by an exception of
    [handleEvent]: a [for await] loop that is left before its stream is
    done awaits the [return()] of the generator, whose [finally] clause
    releases the reader, before the statement after the loop or the
    [catch] clause runs *)
| AtClose (failure : option Thrown)
| AtEnd
| AtRejection (e : Thrown).

(** [stopping] counts the calls of [abortTask] that are suspended in
    their stop call. *)
Record State := {
  suspended : Await;
  stopping : nat;
  now : World;
}.

Inductive Turn :=
| call_abortTask
| call_submitHumanReply (reply : jsstring)
(** the await [startTask] is suspended in settles; [call] is the error
    of the awaited control call, if it fails *)
| settle (call : option Thrown)
(** the stop call of an [abortTask] settles, one way or the other
    ([.catch(() => {})]) *)
| stop_settled.

Definition suspend (a : Await) (s : State) (w : World) : State :=
  {| suspended := a; stopping := stopping s; now := w |}.

(** After [await this.handleEvent(event)]: the test for a terminal
    event. *)
Definition handled (ev : SSEEvent) (rest : list SSEEvent) (s : State) (w : World)
  : State :=
  if is_terminal ev then suspend (AtClose None) s w else suspend (AtNext rest) s w.

(** A control call of [handleEvent] has settled. *)
Definition called (call : option Thrown) (ev : SSEEvent) (rest : list SSEEvent)
    (s : State) (w : World) : State :=
  match call with
  | Some e => suspend (AtClose (Some e)) s w
  | None => handled ev rest s w
  end.

(** [executeAndPostResult(toolName, data)] up to its first await: the
    guard, then the call of the executor. *)
Definition begin_tool (t : ToolName) (ev : SSEEvent) (rest : list SSEEvent)
    (s : State) (w : World) : State :=
  match get (data ev) (js "request_id"), client (session w) with
  | Some rid, Some _ =>
      if truthy rid && nonempty (projectId (session w)) then
        suspend (AtTool ev rest t rid) s (log (ToolRun t (data ev)) w)
      else handled ev rest s w
  | _, _ => handled ev rest s w
  end.

(** [handleEvent(event)] up to its first await. *)
Definition begin_event (ev : SSEEvent) (rest : list SSEEvent) (s : State) : State :=
  let w := log (Forward ev) (now s) in
  if is_str (step ev) (js "ask") then
    let agent := ask_agent ev in
    suspend (AtReply ev agent rest None) s
      (log (AskWait agent) (with_session (set_pending (Some agent) (session w)) w))
  else
    match tool_of_step (step ev) with
    | Some t => begin_tool t ev rest s w
    | None => handled ev rest s w
    end.

Section WithHost.
Context `{Platform} (host : Host).
Variable untyped : ToolName -> JsVal -> FsState -> ToolResult * FsState.
Variable workspacePath : jsstring.

(** [startTask] continues from the await it is suspended in, up to its
    next await.  The run of a tool is taken when its await settles: the
    other moves do not touch the store. *)
Definition do_settle (inp : TaskInput) (call : option Thrown) (s : State) : State :=
  let w := now s in
  match suspended s with
  | AtParams =>
      match in_params inp with
      | Throw e => suspend (AtRejection e) s w
      | Return params =>
          suspend (AtApiKey params) s
            (with_session (set_ids (project_id params) (task_id params) (session w)) w)
      end
  | AtApiKey params =>
      match in_apiKey inp with
      | Throw e => suspend (AtRejection e) s w
      | Return key =>
          let k := constructor {| opt_baseUrl := getAscendeBackendUrl inp;
                                  opt_apiKey := key |} in
          suspend (AtNext (in_events inp)) s
            (log (Emit taskStarted) (with_session (set_client k (session w)) w))
      end
  | AtNext [] =>
      match in_failure inp with
      | None => suspend AtEnd s (completed w)
      | Some e => suspend AtEnd s (caught e w)
      end
  | AtNext (ev :: rest) =>
      if aborted (session w) then suspend (AtClose None) s w
      else begin_event ev rest s
  | AtReply ev agent rest (Some reply) =>
      match client (session w) with
      | Some _ =>
          if nonempty reply && nonempty (projectId (session w)) then
            suspend (AtReplyCall ev rest) s
              (log (HumanReplyCall (projectId (session w)) agent reply) w)
          else handled ev rest s w
      | None => handled ev rest s w
      end
  | AtReply _ _ _ None => s
  | AtReplyCall ev rest => called call ev rest s w
  | AtTool ev rest t rid =>
      let '(result, st) := run_tool host untyped workspacePath t (data ev) (fs w) in
      suspend (AtResultCall ev rest) s
        (log (ToolResultCall (projectId (session w)) rid t result) (with_fs st w))
  | AtResultCall ev rest => called call ev rest s w
  | AtClose None => suspend AtEnd s (completed w)
  | AtClose (Some e) => suspend AtEnd s (caught e w)
  | AtEnd => s
  | AtRejection _ => s
  end.

(** [pendingHumanReply.resolve(reply); pendingHumanReply = null]. *)
Definition resolve (reply : jsstring) (s : State) : State :=
  let w := now s in
  match pendingHumanReply (session w) with
  | Some _ =>
      suspend
        match suspended s with
        | AtReply ev agent rest None => AtReply ev agent rest (Some reply)
        | a => a
        end
        s (with_session (set_pending None (session w)) (log (ReplyResolved reply) w))
  | None => s
  end.

(** [abortTask()] up to its await of the stop call, or to its end when
    no stop call is made. *)
Definition do_abortTask (s : State) : State :=
  let s := suspend (suspended s) s
             (with_session (set_aborted true (session (now s))) (now s)) in
  let s := resolve [] s in
  let w := now s in
  match client (session w) with
  | Some _ =>
      if nonempty (projectId (session w)) then
        {| suspended := suspended s; stopping := S (stopping s);
           now := log (StopChatCall (projectId (session w))) w |}
      else suspend (suspended s) s (log (Emit taskAborted) w)
  | None => suspend (suspended s) s (log (Emit taskAborted) w)
  end.

(** The rest of an [abortTask()] whose stop call has settled. *)
Definition do_stop_settled (s : State) : State :=
  match stopping s with
  | O => s
  | S n => {| suspended := suspended s; stopping := n;
              now := log (Emit taskAborted) (now s) |}
  end.

Definition turn (inp : TaskInput) (m : Turn) (s : State) : State :=
  match m with
  | call_abortTask => do_abortTask s
  | call_submitHumanReply reply => resolve reply s
  | settle call => do_settle inp call s
  | stop_settled => do_stop_settled s
  end.

Fixpoint turns (inp : TaskInput) (ms : list Turn) (s : State) : State :=
  match ms with
  | [] => s
  | m :: ms' => turns inp ms' (turn inp m s)
  end.

(** The call [startTask(question, images)] on an idle orchestrator, up
    to its first await, then the given turns. *)
Definition start (inp : TaskInput) (ms : list Turn) (st : FsState) : State :=
  turns inp ms
    {| suspended := AtParams; stopping := 0; now := world (startTask_call (idle st)) |}.

End WithHost.

(** A configuration of [Orchestrator] as a state: no abort is suspended
    in its stop call. *)
Definition place (p : Pc) : Await :=
  match p with
  | AwaitParams => AtParams
  | AwaitApiKey params => AtApiKey params
  | AwaitNext rest => AtNext rest
  | AwaitReply ev agent rest r => AtReply ev agent rest r
  | Returned => AtEnd
  | Rejected e => AtRejection e
  end.

Definition embed (c : Config) : State :=
  {| suspended := place (pc c); stopping := 0; now := world c |}.

(** The runs of tools and the tool-result calls of a trace. *)
Definition is_tool_run (e : Effect) : bool :=
  match e with ToolRun _ _ => true | _ => false end.

Definition is_result_call (e : Effect) : bool :=
  match e with ToolResultCall _ _ _ _ => true | _ => false end.

Definition tool_runs (t : list Effect) : list Effect := List.filter is_tool_run t.

Definition result_calls (t : list Effect) : list Effect := List.filter is_result_call t.

(** [startTask] is inside its [try] block. *)
Definition in_try (a : Await) : bool :=
  match a with
  | AtNext _ | AtReply _ _ _ _ | AtReplyCall _ _ | AtTool _ _ _ _ | AtResultCall _ _
  | AtClose _ => true
  | _ => false
  end.

(** The identifiers have been taken from the params and the [finally]
    clause has not been passed. *)
Definition holds_ids (a : Await) : bool :=
  match a with
  | AtParams | AtEnd => false
  | _ => true
  end.

(** The reply to the pending wait is resolved. *)
Definition answered (reply : jsstring) (a : Await) : Await :=
  match a with
  | AtReply ev agent rest None => AtReply ev agent rest (Some reply)
  | _ => a
  end.

(** What holds of the states of a task whose params are [params]: the
    identifiers of the session, the client inside the [try] block, and the
    slot, which is pending exactly in an unresolved wait. *)
Definition settled_in (inp : TaskInput) (params : ChatParams) (s : State) : Prop :=
  let se := session (now s) in
  (if holds_ids (suspended s)
   then projectId se = project_id params /\ taskId se = task_id params
   else projectId se = [] /\ taskId se = [])
  /\ (in_try (suspended s) = true -> client se <> None)
  /\ match pendingHumanReply se with
     | Some a => exists ev rest, suspended s = AtReply ev a rest None
     | None => forall ev a rest, suspended s <> AtReply ev a rest None
     end.

(** A move of the provider: [startTask] stays where it is, but for a
    wait that is resolved; the session keeps its project identifier, the
    store is kept, and nothing is forwarded, run or posted. *)
Definition provider_move (s s' : State) : Prop :=
  (suspended s' = suspended s \/ exists reply, suspended s' = answered reply (suspended s))
  /\ projectId (session (now s')) = projectId (session (now s))
  /\ fs (now s') = fs (now s)
  /\ forwarded (trace (now s')) = forwarded (trace (now s))
  /\ tool_runs (trace (now s')) = tool_runs (trace (now s))
  /\ posted_errors (trace (now s')) = posted_errors (trace (now s))
  /\ result_calls (trace (now s')) = result_calls (trace (now s)).

Section WithHost.
Context `{Platform} (host : Host).
Variable untyped : ToolName -> JsVal -> FsState -> ToolResult * FsState.
Variable workspacePath : jsstring.

(** The world after the tool in flight has finished and its result has
    been handed to the tool-result call. *)
Definition landed (ev : SSEEvent) (t : ToolName) (rid : JsVal) (w : World)
  : FsState * list Effect :=
  let r := run_tool host untyped workspacePath t (data ev) (fs w) in
  (snd r,
   result_calls (trace w) ++ [ToolResultCall (projectId (session w)) rid t (fst r)]).

(** What has happened since [abortTask] was called in state [s0]: the
    session is aborted, nothing has been forwarded, no tool has been
    started and no error event has been posted; a tool that was in flight
    in [s0] is still in flight, or it has finished and its result has been
    handed to the tool-result call; otherwise the store and the
    tool-result calls are as they were. *)
Definition winding_down (s0 s : State) : Prop :=
  let w0 := now s0 in
  let w := now s in
  aborted (session w) = true
  /\ forwarded (trace w) = forwarded (trace w0)
  /\ tool_runs (trace w) = tool_runs (trace w0)
  /\ posted_errors (trace w) = posted_errors (trace w0)
  /\ match suspended s with
     | AtTool ev rest t rid =>
         suspended s0 = AtTool ev rest t rid
         /\ projectId (session w) = projectId (session w0)
         /\ fs w = fs w0 /\ result_calls (trace w) = result_calls (trace w0)
     | _ =>
         (fs w = fs w0 /\ result_calls (trace w) = result_calls (trace w0))
         \/ exists ev rest t rid,
              suspended s0 = AtTool ev rest t rid
              /\ (fs w, result_calls (trace w)) = landed ev t rid w0
     end.

End WithHost.

End Interleaved.

(* ===================================================================== *)
(** ** Backend configuration (shared/ascendeBackend.ts) *)
(* ===================================================================== *)

Module AscendeBackend.

Definition ASCENDE_BACKEND_URL_KEY : jsstring := js "roo-cline.ascendeBackendUrl".
Definition ASCENDE_USE_EIGENT_ENGINE_KEY : jsstring := js "roo-cline.ascendeUseEigentEngine".
Definition ASCENDE_API_KEY_SECRET_KEY : jsstring := js "ascendeBackendApiKey".

Definition DEFAULT_ASCENDE_BACKEND_URL : jsstring := js "http://localhost:8000".

(** The settings as [getConfiguration().get] returns them ([None]:
    undefined), and the secret storage of the extension. *)
Record Context := {
  settings : gmap jsstring JsVal;
  secrets : gmap jsstring jsstring;
}.

(** The value under the key is returned as it is: the type argument of
    [get<string>] is not checked. *)
Definition getAscendeBackendUrl (ctx : Context) : JsVal :=
  match settings ctx !! ASCENDE_BACKEND_URL_KEY with
  | Some v => match v with JNull => JStr DEFAULT_ASCENDE_BACKEND_URL | _ => v end
  | None => JStr DEFAULT_ASCENDE_BACKEND_URL
  end.

Definition getAscendeUseEigentEngine (ctx : Context) : JsVal :=
  match settings ctx !! ASCENDE_USE_EIGENT_ENGINE_KEY with
  | Some v => match v with JNull => JBool false | _ => v end
  | None => JBool false
  end.

Definition setAscendeApiKey (ctx : Context) (apiKey : jsstring) : Context :=
  {| settings := settings ctx;
     secrets := <[ASCENDE_API_KEY_SECRET_KEY := apiKey]> (secrets ctx) |}.

Definition getAscendeApiKey (ctx : Context) : option jsstring :=
  secrets ctx !! ASCENDE_API_KEY_SECRET_KEY.

Definition clearAscendeApiKey (ctx : Context) : Context :=
  {| settings := settings ctx;
     secrets := delete ASCENDE_API_KEY_SECRET_KEY (secrets ctx) |}.

End AscendeBackend.

(* ===================================================================== *)
(** ** Properties of the stream client *)
(* ===================================================================== *)

Module SSEClientFacts.
Import SSEClient.

Lemma strip_prefix_spec sep s r :
  strip_prefix sep s = Some r -> s = sep ++ r.
Proof.
  revert s; induction sep as [|a sep IH]; intros s Hs; simpl in *.
  - congruence.
  - destruct s as [|b s]; [discriminate|].
    destruct (N.eqb_spec a b); [|discriminate].
    subst; f_equal; auto.
Qed.

Lemma strip_prefix_app sep s r t :
  strip_prefix sep s = Some r -> strip_prefix sep (s ++ t) = Some (r ++ t).
Proof.
  revert s; induction sep as [|a sep IH]; intros s Hs; simpl in *.
  - congruence.
  - destruct s as [|b s]; [discriminate|]; simpl.
    destruct (a =? b); [auto|discriminate].
Qed.

(** A mismatch inside the string stays a mismatch when text is appended. *)
Lemma strip_prefix_none_app sep s t :
  strip_prefix sep s = None -> (length sep <= length s)%nat ->
  strip_prefix sep (s ++ t) = None.
Proof.
  revert s; induction sep as [|a sep IH]; intros s Hs Hlen; simpl in *.
  - discriminate.
  - destruct s as [|b s]; simpl in *; [lia|].
    destruct (a =? b); [apply IH; [assumption|lia]|reflexivity].
Qed.

Lemma find_sep_spec sep s b a :
  find_sep sep s = Some (b, a) -> s = b ++ sep ++ a.
Proof.
  revert b; induction s as [|c s IH]; intros b Hf.
  - simpl in Hf. destruct (strip_prefix sep []) eqn:Hp; [|discriminate].
    inversion Hf; subst. apply strip_prefix_spec in Hp. exact Hp.
  - simpl in Hf. destruct (strip_prefix sep (c :: s)) eqn:Hp.
    + inversion Hf; subst. apply strip_prefix_spec in Hp. exact Hp.
    + destruct (find_sep sep s) as [[b' a']|] eqn:Hs; [|discriminate].
      inversion Hf; subst. simpl. f_equal. apply IH. reflexivity.
Qed.

Lemma find_sep_app sep s b a t :
  find_sep sep s = Some (b, a) -> find_sep sep (s ++ t) = Some (b, a ++ t).
Proof.
  revert b; induction s as [|c s IH]; intros b Hf.
  - simpl in Hf. destruct (strip_prefix sep []) eqn:Hp; [|discriminate].
    inversion Hf; subst.
    pose proof (strip_prefix_app _ _ _ t Hp) as Hq. simpl in Hq.
    destruct t; simpl; rewrite Hq; reflexivity.
  - simpl in Hf. destruct (strip_prefix sep (c :: s)) eqn:Hp.
    + inversion Hf; subst.
      pose proof (strip_prefix_app _ _ _ t Hp) as Hq. simpl in *. rewrite Hq. reflexivity.
    + destruct (find_sep sep s) as [[b' a']|] eqn:Hs; [|discriminate].
      inversion Hf; subst.
      assert (Hlen : (length sep <= length (c :: s))%nat).
      { apply find_sep_spec in Hs. rewrite Hs. simpl. rewrite !length_app. lia. }
      pose proof (strip_prefix_none_app _ _ t Hp Hlen) as Hq.
      simpl in *. rewrite Hq. rewrite (IH b' eq_refl). reflexivity.
Qed.

Lemma find_sep_nil sep : sep <> [] -> find_sep sep [] = None.
Proof. destruct sep; [congruence|reflexivity]. Qed.

Lemma split_fuel_enough sep : sep <> [] ->
  forall n m s, (length s <= n)%nat -> (length s <= m)%nat ->
  split_fuel n sep s = split_fuel m sep s.
Proof.
  intros Hsep. induction n as [|n IH]; intros m s Hn Hm.
  - destruct s; simpl in Hn; [|lia].
    destruct m; cbn [split_fuel]; [reflexivity|].
    rewrite find_sep_nil by assumption. reflexivity.
  - destruct m as [|m].
    + destruct s; simpl in Hm; [|lia].
      cbn [split_fuel]. rewrite find_sep_nil by assumption. reflexivity.
    + cbn [split_fuel]. destruct (find_sep sep s) as [[b a]|] eqn:Hf; [|reflexivity].
      f_equal. pose proof (find_sep_spec _ _ _ _ Hf) as Hs.
      assert (length a < length s)%nat.
      { rewrite Hs, !length_app. destruct sep; [congruence|simpl; lia]. }
      apply IH; lia.
Qed.

(** The equation of [split] for a non-empty separator. *)
Lemma split_unfold sep s : sep <> [] ->
  split sep s =
  match find_sep sep s with
  | None => [s]
  | Some (b, a) => b :: split sep a
  end.
Proof.
  intros Hsep. unfold split. destruct sep as [|x sep]; [congruence|].
  set (sp := x :: sep) in *.
  destruct s as [|c s].
  - cbn [length split_fuel]. rewrite find_sep_nil by assumption. reflexivity.
  - cbn [length split_fuel].
    destruct (find_sep sp (c :: s)) as [[b a]|] eqn:Hf; [|reflexivity].
    f_equal. apply split_fuel_enough; [assumption| |lia].
    apply find_sep_spec in Hf.
    assert (length (c :: s) = length (b ++ sp ++ a)) as Hl by (rewrite Hf; reflexivity).
    rewrite !length_app in Hl. subst sp. simpl in Hl. lia.
Qed.

Lemma split_nonempty sep s : split sep s <> [] \/ (sep = [] /\ s = []).
Proof.
  destruct sep as [|x sep].
  - destruct s; [right; auto|left; discriminate].
  - left. rewrite split_unfold by discriminate.
    destruct (find_sep (x :: sep) s) as [[b a]|]; discriminate.
Qed.

Lemma pop_cons x l : l <> [] -> pop (x :: l) = pop l.
Proof. destruct l; [congruence|reflexivity]. Qed.

Lemma popped_cons x l : l <> [] -> popped (x :: l) = x :: popped l.
Proof. destruct l; [congruence|reflexivity]. Qed.

Lemma pop_app l1 l2 : l2 <> [] -> pop (l1 ++ l2) = pop l2.
Proof.
  intros Hl. induction l1 as [|x l1 IH]; [reflexivity|].
  simpl app. rewrite pop_cons; [exact IH|]. destruct l1, l2; simpl; congruence.
Qed.

Lemma popped_app l1 l2 : l2 <> [] -> popped (l1 ++ l2) = l1 ++ popped l2.
Proof.
  intros Hl. induction l1 as [|x l1 IH]; [reflexivity|].
  simpl app. rewrite popped_cons; [rewrite IH; reflexivity|].
  destruct l1, l2; simpl; congruence.
Qed.

Section Split.
Variable sep : jsstring.
Hypothesis sep_nonempty : sep <> [].

Lemma split_ne s : split sep s <> [].
Proof. destruct (split_nonempty sep s) as [|[? _]]; congruence. Qed.

(** Text appended to a string only touches its last piece. *)
Lemma split_app t : forall s,
  split sep (s ++ t) = popped (split sep s) ++ split sep (pop (split sep s) ++ t).
Proof.
  intros s. remember (length s) as n eqn:Hn. revert s Hn.
  induction n as [n IH] using lt_wf_ind. intros s Hn.
  rewrite (split_unfold sep s) by assumption.
  destruct (find_sep sep s) as [[b a]|] eqn:Hf.
  - rewrite (split_unfold sep (s ++ t)) by assumption.
    rewrite (find_sep_app _ _ _ _ t Hf).
    rewrite popped_cons, pop_cons by apply split_ne.
    simpl. f_equal. apply (IH (length a)); [|reflexivity].
    apply find_sep_spec in Hf. subst n. rewrite Hf, !length_app.
    destruct sep; [congruence|simpl; lia].
  - reflexivity.
Qed.

(** The piece left in the buffer holds no separator. *)
Lemma split_pop_whole : forall s, find_sep sep (pop (split sep s)) = None.
Proof.
  intros s. remember (length s) as n eqn:Hn. revert s Hn.
  induction n as [n IH] using lt_wf_ind. intros s Hn.
  rewrite (split_unfold sep s) by assumption.
  destruct (find_sep sep s) as [[b a]|] eqn:Hf.
  - rewrite pop_cons by apply split_ne.
    apply (IH (length a)); [|reflexivity].
    apply find_sep_spec in Hf. subst n. rewrite Hf, !length_app.
    destruct sep; [congruence|simpl; lia].
  - exact Hf.
Qed.

Lemma split_whole s : find_sep sep s = None -> split sep s = [s].
Proof. intros Hf. rewrite split_unfold, Hf by assumption. reflexivity. Qed.

End Split.

Lemma frame_delimiter_nonempty : frame_delimiter <> [].
Proof. discriminate. Qed.

Section Reads.
Context `{Platform}.

Lemma decode_stream_app (d : DecState) (v1 v2 : list Byte.byte) :
  decode_stream d (v1 ++ v2) =
  let '(d1, out1) := decode_stream d v1 in
  let '(d2, out2) := decode_stream d1 v2 in
  (d2, out1 ++ out2).
Proof.
  revert d; induction v1 as [|b v1 IH]; intros d; simpl.
  - destruct (decode_stream d v2); reflexivity.
  - destruct (dec_byte d b) as [d1 o1]. rewrite IH.
    destruct (decode_stream d1 v1) as [d2 o2].
    destruct (decode_stream d2 v2) as [d3 o3].
    rewrite app_assoc. reflexivity.
Qed.

Lemma frames_events_app l1 l2 :
  frames_events (l1 ++ l2) = frames_events l1 ++ frames_events l2.
Proof. unfold frames_events. apply omap_app. Qed.

(** The read loop, whatever the reads are, has split the whole text
    decoded so far. *)
Lemma read_loop_whole (reads : list (list Byte.byte)) :
  forall (d : DecState) (buffer : jsstring),
  find_sep frame_delimiter buffer = None ->
  read_loop (d, buffer) reads =
  let '(d', txt) := decode_stream d (List.concat reads) in
  let lines := split frame_delimiter (buffer ++ txt) in
  ((d', pop lines), frames_events (popped lines)).
Proof.
  induction reads as [|value reads IH]; intros d buffer Hbuf.
  - cbn [read_loop List.concat decode_stream]. cbv zeta. rewrite app_nil_r.
    rewrite split_whole by (auto using frame_delimiter_nonempty). reflexivity.
  - cbn [read_loop List.concat]. unfold read_step.
    rewrite decode_stream_app.
    destruct (decode_stream d value) as [d1 txt1].
    rewrite IH by (apply split_pop_whole, frame_delimiter_nonempty).
    destruct (decode_stream d1 (List.concat reads)) as [d2 txt2].
    rewrite (app_assoc buffer txt1 txt2).
    rewrite (split_app frame_delimiter frame_delimiter_nonempty txt2 (buffer ++ txt1)).
    rewrite pop_app, popped_app, frames_events_app
      by (apply split_ne, frame_delimiter_nonempty).
    reflexivity.
Qed.

Lemma body_events_whole (reads : list (list Byte.byte)) :
  body_events reads =
  let '(_, txt) := decode_stream dec_init (List.concat reads) in
  let lines := split frame_delimiter txt in
  frames_events (popped lines) ++ final_frame (pop lines).
Proof.
  unfold body_events. rewrite read_loop_whole by reflexivity.
  destruct (decode_stream dec_init (List.concat reads)) as [d txt].
  reflexivity.
Qed.

End Reads.

End SSEClientFacts.

(* ===================================================================== *)
(** ** Stream client: the claims *)
(* ===================================================================== *)

Module SSEClientClaims.
Import SSEClient SSEClientFacts.

(** The sample stream read seven bytes at a time, delimiters and JSON
    cut in the middle: the two events, the comment frame dropped. *)
Example sample_stream_in_small_reads :
  body_events (H := Sample.platform Sample.stream_table)
    (Sample.chop 100 7 (Sample.encode Sample.stream_text))
  = [ {| step := JStr (js "confirmed"); data := JObj [] |};
      {| step := JStr (js "end"); data := JObj [] |} ]
  /\ length (Sample.chop 100 7 (Sample.encode Sample.stream_text)) = 10%nat.
Proof. vm_compute. split; reflexivity. Qed.

(** Claim C1 (chunk-boundary invariance).  For every sequence of reads of
    the response body, [startChat] yields the same events, in the same
    order, as for the single read that delivers all the bytes at once.
    These events are the frames of the decoded text cut at the blank-line
    delimiter, each complete frame parsed in order, followed by the
    remainder after the last delimiter, parsed as a final frame when it is
    not blank. *)
Theorem startChat_chunk_invariance `{Platform}
    (c : EigentSSEClient) (params : ChatParams) (reads : list (list Byte.byte)) :
  startChat c params (ok_response reads)
  = startChat c params (ok_response [List.concat reads])
  /\ startChat c params (ok_response reads)
     = (startChat_request c params,
        (let '(_, txt) := decode_stream dec_init (List.concat reads) in
         let lines := split frame_delimiter txt in
         omap parseSSEChunk (popped lines) ++ final_frame (pop lines)),
        None).
Proof.
  unfold startChat, ok_response; cbn [res_ok res_body res_read_error negb].
  rewrite (body_events_whole reads), (body_events_whole [List.concat reads]).
  cbn [List.concat]. rewrite app_nil_r. split; reflexivity.
Qed.

(** Claim C7, as stated, fails: params whose [api_url] is [null] define
    the field, and the request body does not carry it. *)
Lemma toChatBody_drops_null_api_url :
  ~ (forall f, In f (defined_fields Sample.params) -> In f (body_keys Sample.params)).
Proof.
  intros Hall. specialize (Hall (js "api_url")).
  assert (Hin : In (js "api_url") (defined_fields Sample.params)) by (vm_compute; tauto).
  apply Hall in Hin. vm_compute in Hin.
  repeat (destruct Hin as [Hin|Hin]; [discriminate Hin|]). exact Hin.
Qed.

(** Claim C7 (amended).  The request of [startChat] is a POST to
    [/chat] whose body carries the required fields of the params
    unchanged, the optional fields [attaches], [language], [browser_port],
    [max_retries], [allow_local_system] and [installed_mcp] with their
    defaults when undefined, and [api_url] and [env_path] exactly when they
    are neither null nor undefined.  When the response is not successful,
    [startChat] yields no event and throws at once an error whose message
    carries the status code and the response text. *)
Theorem startChat_request_and_failure `{Platform}
    (c : EigentSSEClient) (params : ChatParams) (res : Response) :
  let req := fst (fst (startChat c params res)) in
  req_url req = baseUrl c ++ js "/chat"
  /\ req_method req = js "POST"
  /\ req_body req = Some (JObj (toChatBody params))
  /\ body_at params "task_id" = Some (JStr (task_id params))
  /\ body_at params "project_id" = Some (JStr (project_id params))
  /\ body_at params "question" = Some (JStr (question params))
  /\ body_at params "email" = Some (JStr (email params))
  /\ body_at params "attaches" = Some (JArr (map JStr (nullish (attaches params) [])))
  /\ body_at params "model_platform" = Some (JStr (model_platform params))
  /\ body_at params "model_type" = Some (JStr (model_type params))
  /\ body_at params "api_key" = Some (JStr (api_key params))
  /\ body_at params "language" = Some (JStr (nullish (language params) (js "en")))
  /\ body_at params "browser_port" = Some (JNum (nullish (browser_port params) (double_of_N 9222)))
  /\ body_at params "max_retries" = Some (JNum (nullish (max_retries params) (double_of_N 3)))
  /\ body_at params "allow_local_system" = Some (JBool (nullish (allow_local_system params) false))
  /\ body_at params "installed_mcp" = Some (nullish (installed_mcp params) mcp_default)
  /\ body_at params "api_url" = JStr <$> not_nullish (api_url params)
  /\ body_at params "env_path" = JStr <$> not_nullish (env_path params)
  /\ (res_ok res = false ->
      startChat c params res =
      (req, [],
       Some (Error (js "Eigent startChat failed: " ++ dec (res_status res) ++ js " "
                    ++ res_statusText res ++ js " - " ++ res_text res)))).
Proof.
  cbv zeta.
  assert (Hreq : fst (fst (startChat c params res)) = startChat_request c params).
  { unfold startChat. destruct (negb (res_ok res)); [reflexivity|].
    destruct (res_body res); [|reflexivity].
    destruct (res_read_error res); reflexivity. }
  rewrite Hreq.
  repeat split; try reflexivity;
    try (unfold body_at, toChatBody; destruct (api_url params), (env_path params); reflexivity).
  intros Hok. unfold startChat. rewrite Hok. reflexivity.
Qed.

(** A rejected request: status 503 with text "busy". *)
Lemma startChat_request_and_failure_witness :
  snd (startChat (H := Sample.platform []) Sample.sse_client Sample.params
         {| res_ok := false; res_status := 503;
            res_statusText := js "Service Unavailable"; res_text := js "busy";
            res_body := None; res_read_error := None |})
  = Some (Error (js "Eigent startChat failed: 503 Service Unavailable - busy")).
Proof.
  pose proof (startChat_request_and_failure (H := Sample.platform [])
                Sample.sse_client Sample.params
                {| res_ok := false; res_status := 503;
                   res_statusText := js "Service Unavailable"; res_text := js "busy";
                   res_body := None; res_read_error := None |}) as Hthm.
  cbv zeta in Hthm.
  destruct Hthm as (_&_&_&_&_&_&_&_&_&_&_&_&_&_&_&_&_&_& Hfail).
  rewrite (Hfail eq_refl). reflexivity.
Defined.

End SSEClientClaims.

(* ===================================================================== *)
(** ** Tool executor: facts and claims *)
(* ===================================================================== *)

Module ToolExecutorFacts.
Import ToolExecutor SSEClientFacts.

Lemma try_catch_captures (body : M ToolResult) (report : Thrown -> ToolResult) st :
  captures body (try_catch body (fun e => ret (report e))) report st.
Proof.
  unfold captures, try_catch, ret. destruct (body st) as [[r|e] st']; reflexivity.
Qed.

Lemma captures_returns body op report st :
  captures body op report st -> exists r st', op st = (Return r, st').
Proof.
  unfold captures. destruct (body st) as [[r|e] st']; eauto.
Qed.

Lemma join_cons sep x l : l <> [] -> join sep (x :: l) = x ++ sep ++ join sep l.
Proof. destruct l; [congruence|reflexivity]. Qed.

Section Replace.
Variables old new : jsstring.
Hypothesis old_nonempty : old <> [].

Lemma replace_every_skip : forall s k, (k <= length s)%nat ->
  replace_every old new k s = replace_every old new 0 (drop k s).
Proof.
  induction s as [|c s IH]; intros k Hk.
  - destruct k; [reflexivity|simpl in Hk; lia].
  - destruct k as [|k]; [reflexivity|].
    cbn [replace_every drop]. apply IH. simpl in Hk. lia.
Qed.

Lemma replace_every_unfold : forall s,
  replace_every old new 0 s =
  match find_sep old s with
  | None => s
  | Some (b, a) => b ++ new ++ replace_every old new 0 a
  end.
Proof.
  destruct old as [|o old'] eqn:Hold; [congruence|].
  induction s as [|c s IH].
  - reflexivity.
  - cbn [replace_every find_sep].
    destruct (strip_prefix (o :: old') (c :: s)) as [rest|] eqn:Hp.
    + apply strip_prefix_spec in Hp. injection Hp as -> ->.
      rewrite <- Hold. rewrite replace_every_skip by (rewrite length_app; lia).
      rewrite drop_app_length. reflexivity.
    + rewrite IH. destruct (find_sep (o :: old') s) as [[b a]|]; reflexivity.
Qed.

(** For a non-empty [old], the split-and-join of the code is the
    replacement of every occurrence. *)
Lemma split_join_replace_all : forall s,
  join new (split old s) = replace_all old new s.
Proof.
  intros s. remember (length s) as n eqn:Hn. revert s Hn.
  induction n as [n IH] using lt_wf_ind. intros s Hn.
  unfold replace_all. rewrite replace_every_unfold, split_unfold by assumption.
  destruct (find_sep old s) as [[b a]|] eqn:Hf; [|reflexivity].
  rewrite join_cons by (apply split_ne; assumption).
  do 2 f_equal. apply (IH (length a)); [|reflexivity].
  apply find_sep_spec in Hf. subst n. rewrite Hf, !length_app.
  destruct old; [congruence|simpl; lia].
Qed.

(** Without an occurrence the text is unchanged. *)
Lemma split_join_absent s : find_sep old s = None -> join new (split old s) = s.
Proof. intros Hf. rewrite split_whole by assumption. reflexivity. Qed.

End Replace.

End ToolExecutorFacts.

Module ToolExecutorClaims.
Import ToolExecutor ToolExecutorFacts.

(** Reading a file that does not exist, and listing by a glob pattern
    without a workspace folder: results, not exceptions. *)
Example executeReadFile_missing_file :
  fst (executeReadFile (H := Sample.platform []) (Sample.host Sample.command_failed)
         (js "/w") {| rf_request_id := js "r1"; rf_path := js "none.txt" |} Sample.store)
  = Return {| success := false; content := None;
              error := Some (js "ENOENT: /w/none.txt") |}.
Proof. vm_compute. reflexivity. Qed.

Example executeListFiles_no_workspace_folder :
  fst (executeListFiles (H := Sample.platform []) (Sample.host Sample.command_failed)
         (js "/w") {| lf_request_id := js "r1"; pattern := [] |} Sample.store)
  = Return {| success := false; content := None;
              error := Some (js "No workspace folder") |}.
Proof. vm_compute. reflexivity. Qed.

(** Claim C5, as stated, fails for [executeTerminal]: for a command that
    fails without output, the error field is the captured output, the
    empty string, not the failure message. *)
Lemma executeTerminal_error_is_output :
  let d := {| tm_request_id := js "r1"; command := js "exit 3"; cwd := None |} in
  let run op := op (Sample.platform []) (Sample.host Sample.command_failed) (js "/w") d
                   Sample.store in
  fst (run (@executeTerminal_try)) = Throw Sample.command_failed
  /\ exists r, fst (run (@executeTerminal)) = Return r
               /\ success r = false
               /\ error r = Some []
               /\ error r <> Some (error_text Sample.command_failed).
Proof.
  cbv zeta. split; [reflexivity|].
  eexists. split; [reflexivity|]. split; [reflexivity|]. split; [reflexivity|].
  vm_compute. discriminate.
Qed.

(** Claim C5 (amended).  Each of the five operations returns a
    ToolResult and never throws: whatever its body throws is turned into a
    result with [success] false.  For [executeFileWrite], [executeReadFile],
    [executeSearchReplace] and [executeListFiles] the [error] field is the
    failure message; for [executeTerminal] the [content] and [error] fields
    are the captured output of the command ([all], else [stdout], else
    [stderr]) and the failure message only when there is none. *)
Theorem executor_never_throws `{Platform} (host : Host) (workspacePath : jsstring)
    (st : FsState) :
  (forall d, captures (executeFileWrite_try host workspacePath d)
               (executeFileWrite host workspacePath d) message_result st)
  /\ (forall d, captures (executeReadFile_try host workspacePath d)
                  (executeReadFile host workspacePath d) message_result st)
  /\ (forall d, captures (executeSearchReplace_try host workspacePath d)
                  (executeSearchReplace host workspacePath d) message_result st)
  /\ (forall d, captures (executeListFiles_try host workspacePath d)
                  (executeListFiles host workspacePath d) message_result st)
  /\ (forall d, captures (executeTerminal_try host workspacePath d)
                  (executeTerminal host workspacePath d) output_result st)
  /\ (forall d, exists r st', executeFileWrite host workspacePath d st = (Return r, st'))
  /\ (forall d, exists r st', executeReadFile host workspacePath d st = (Return r, st'))
  /\ (forall d, exists r st', executeSearchReplace host workspacePath d st = (Return r, st'))
  /\ (forall d, exists r st', executeListFiles host workspacePath d st = (Return r, st'))
  /\ (forall d, exists r st', executeTerminal host workspacePath d st = (Return r, st')).
Proof.
  assert (H1 : forall d, captures (executeFileWrite_try host workspacePath d)
               (executeFileWrite host workspacePath d) message_result st)
    by (intros; apply try_catch_captures).
  assert (H2 : forall d, captures (executeReadFile_try host workspacePath d)
               (executeReadFile host workspacePath d) message_result st)
    by (intros; apply try_catch_captures).
  assert (H3 : forall d, captures (executeSearchReplace_try host workspacePath d)
               (executeSearchReplace host workspacePath d) message_result st)
    by (intros; apply try_catch_captures).
  assert (H4 : forall d, captures (executeListFiles_try host workspacePath d)
               (executeListFiles host workspacePath d) message_result st)
    by (intros; apply try_catch_captures).
  assert (H5 : forall d, captures (executeTerminal_try host workspacePath d)
               (executeTerminal host workspacePath d) output_result st)
    by (intros; apply (try_catch_captures _ output_result)).
  repeat split; try assumption; intros d; eapply captures_returns; eauto.
Qed.

(** Claim C6, as stated, fails for an empty [old_string]: on a file
    holding "ab", replacing "" by "X" writes "aXb", which is not the
    replacement of every occurrence of the empty string ("XaXbX"). *)
Lemma executeSearchReplace_empty_old_string :
  let d := {| sr_request_id := js "r1"; sr_path := js "/w/f.txt";
              old_string := []; new_string := js "X" |} in
  let st' := snd (executeSearchReplace (H := Sample.platform [])
                    (Sample.host Sample.command_failed) (js "/w") d Sample.store) in
  files st' !! js "/w/f.txt" = Some (list_byte_of_string "aXb")
  /\ files st' !! js "/w/f.txt"
     <> Some (Sample.encode (replace_all [] (js "X") (js "ab"))).
Proof.
  cbv zeta. split; [vm_compute; reflexivity|]. vm_compute. discriminate.
Qed.

(** Claim C6 (amended).  On a file that can be read, with [content] its
    decoded text, [executeSearchReplace] computes the text in which every
    occurrence of a non-empty [old_string] is replaced literally by
    [new_string] (for an empty [old_string]: [new_string] put between the
    code units of the content).  When that text equals the content, as it
    does when [old_string] does not occur, the result is success with the
    no-changes message and the store is left as it was, without a write;
    otherwise, the write being accepted, the new text is written to the
    file, once, and the result is success with the completed message. *)
Theorem executeSearchReplace_effect `{Platform} (host : Host) (workspacePath : jsstring)
    (d : ExecuteSearchReplaceData) (st : FsState) (bytes : list Byte.byte) :
  let fullPath := resolvePath workspacePath (sr_path d) in
  let content := decode bytes in
  let newContent := join (new_string d) (split (old_string d) content) in
  read_refused host fullPath = None ->
  files st !! fullPath = Some bytes ->
  (old_string d <> [] -> newContent = replace_all (old_string d) (new_string d) content)
  /\ (old_string d = [] -> newContent = join (new_string d) (map (fun c => [c]) content))
  /\ (old_string d <> [] -> find_sep (old_string d) content = None -> content = newContent)
  /\ (content = newContent ->
      executeSearchReplace host workspacePath d st =
      (Return {| success := true;
                 content := Some (js "No changes needed (old_string not found)");
                 error := None |}, st))
  /\ (content <> newContent -> write_refused host fullPath = None ->
      executeSearchReplace host workspacePath d st =
      (Return {| success := true; content := Some (js "Search and replace completed");
                 error := None |},
       {| files := <[fullPath := utf8_encode newContent]> (files st);
          writes := writes st ++ [(fullPath, utf8_encode newContent)] |})).
Proof.
  cbv zeta. intros Hread Hfile.
  split; [intros Hold; apply split_join_replace_all; assumption|].
  split; [intros ->; reflexivity|].
  split; [intros Hold Habs; symmetry; apply split_join_absent; assumption|].
  unfold executeSearchReplace, executeSearchReplace_try, try_catch, bind, fs_readFile.
  rewrite Hread, Hfile.
  split.
  - intros Heq. rewrite bool_decide_eq_true_2 by assumption. reflexivity.
  - intros Hne Hwrite. rewrite bool_decide_eq_false_2 by assumption.
    unfold fs_writeFile. rewrite Hwrite. reflexivity.
Qed.

(** The no-op of the specification: content "ab", [old_string] "xyz". *)
Lemma executeSearchReplace_effect_witness :
  let d := {| sr_request_id := js "r1"; sr_path := js "/w/f.txt";
              old_string := js "xyz"; new_string := js "q" |} in
  executeSearchReplace (H := Sample.platform []) (Sample.host Sample.command_failed)
    (js "/w") d Sample.store
  = (Return {| success := true;
               content := Some (js "No changes needed (old_string not found)");
               error := None |}, Sample.store).
Proof.
  cbv zeta.
  refine (proj1 (proj2 (proj2 (proj2
    (executeSearchReplace_effect (H := Sample.platform [])
       (Sample.host Sample.command_failed) (js "/w")
       {| sr_request_id := js "r1"; sr_path := js "/w/f.txt";
          old_string := js "xyz"; new_string := js "q" |}
       Sample.store (list_byte_of_string "ab") eq_refl _)))) _).
  - vm_compute. reflexivity.
  - vm_compute. reflexivity.
Defined.

End ToolExecutorClaims.

(* ===================================================================== *)
(** ** Orchestrator: facts *)
(* ===================================================================== *)

Module OrchestratorFacts.
Import SSEClient ToolExecutor Orchestrator.

(** The steps named by the [case] labels and by the terminal test are
    pairwise distinct. *)
Lemma is_str_inj (v : JsVal) (a b : jsstring) :
  is_str v a = true -> a <> b -> is_str v b = false.
Proof.
  destruct v; simpl; try discriminate.
  intros Ha Hab. apply bool_decide_eq_true in Ha. subst.
  apply bool_decide_eq_false. congruence.
Qed.

Lemma ask_not_terminal ev :
  is_str (step ev) (js "ask") = true -> is_terminal ev = false.
Proof.
  intros Hask. unfold is_terminal.
  rewrite !(is_str_inj _ _ _ Hask) by (vm_compute; discriminate). reflexivity.
Qed.

Lemma tool_of_step_Some st t :
  tool_of_step st = Some t -> is_str st (tool_step t) = true.
Proof.
  unfold tool_of_step. repeat case_match; intros [= <-]; assumption.
Qed.

Lemma tool_not_terminal ev t :
  tool_of_step (step ev) = Some t ->
  is_terminal ev = false /\ is_str (step ev) (js "ask") = false.
Proof.
  intros Ht. apply tool_of_step_Some in Ht. unfold is_terminal.
  rewrite !(is_str_inj _ _ _ Ht) by (destruct t; vm_compute; discriminate).
  split; reflexivity.
Qed.

Lemma terminal_default ev :
  is_terminal ev = true ->
  is_str (step ev) (js "ask") = false /\ tool_of_step (step ev) = None.
Proof.
  intros Hterm. split.
  - destruct (is_str (step ev) (js "ask")) eqn:Hask; [|reflexivity].
    apply ask_not_terminal in Hask. congruence.
  - destruct (tool_of_step (step ev)) as [t|] eqn:Ht; [|reflexivity].
    apply tool_not_terminal in Ht. destruct Ht. congruence.
Qed.

Lemma upto_terminal_app l1 l2 :
  no_terminal l1 = true -> upto_terminal (l1 ++ l2) = l1 ++ upto_terminal l2.
Proof.
  unfold no_terminal. induction l1 as [|ev l1 IH]; simpl; [reflexivity|].
  intros Hall. apply andb_true_iff in Hall as [Hev Hl1].
  destruct (is_terminal ev); [discriminate|]. rewrite IH by assumption. reflexivity.
Qed.

Lemma upto_terminal_stop l1 ev :
  no_terminal l1 = true -> is_terminal ev = true ->
  forall l2, upto_terminal (l1 ++ ev :: l2) = l1 ++ [ev].
Proof.
  intros Hall Hev l2. rewrite upto_terminal_app by assumption. simpl.
  rewrite Hev. reflexivity.
Qed.

Lemma no_terminal_snoc l ev :
  no_terminal (l ++ [ev]) = no_terminal l && negb (is_terminal ev).
Proof. unfold no_terminal. rewrite forallb_app. simpl. rewrite andb_true_r. reflexivity. Qed.

Lemma prefix_of_upto fwd rest :
  no_terminal fwd = true -> fwd `prefix_of` upto_terminal (fwd ++ rest).
Proof. intros Hn. rewrite upto_terminal_app by exact Hn. apply prefix_app_r. reflexivity. Qed.

Lemma prefix_of_upto_snoc fwd ev rest :
  no_terminal fwd = true -> (fwd ++ [ev]) `prefix_of` upto_terminal (fwd ++ ev :: rest).
Proof.
  intros Hn. rewrite upto_terminal_app by exact Hn. apply prefix_app.
  simpl. destruct (is_terminal ev); [reflexivity|].
  apply prefix_cons, prefix_nil.
Qed.

Lemma forwarded_snoc t e :
  forwarded (t ++ [e]) = forwarded t ++ match e with Forward ev => [ev] | _ => [] end.
Proof. unfold forwarded. rewrite omap_app. destruct e; reflexivity. Qed.

Lemma terminal_signals_app t1 t2 :
  terminal_signals (t1 ++ t2) = terminal_signals t1 ++ terminal_signals t2.
Proof. apply omap_app. Qed.

Lemma terminal_signals_snoc t e :
  terminal_signals (t ++ [e]) =
  terminal_signals t ++ match e with
                        | Emit (taskCompleted i) => [taskCompleted i]
                        | Emit taskAborted => [taskAborted]
                        | _ => []
                        end.
Proof. rewrite terminal_signals_app. destruct e as [| |[]| | | | | |]; reflexivity. Qed.

Lemma posted_errors_snoc t e :
  posted_errors (t ++ [e]) = posted_errors t ++ match e with PostError m => [m] | _ => [] end.
Proof. unfold posted_errors. rewrite omap_app. destruct e; reflexivity. Qed.

Lemma human_reply_calls_snoc t e :
  human_reply_calls (t ++ [e]) =
  human_reply_calls t ++ (if is_human_reply_call e then [e] else []).
Proof. unfold human_reply_calls. rewrite List.filter_app. reflexivity. Qed.

Lemma tool_effects_snoc t e :
  tool_effects (t ++ [e]) = tool_effects t ++ (if is_tool_effect e then [e] else []).
Proof. unfold tool_effects. rewrite List.filter_app. reflexivity. Qed.

(** Rewriting the projections of a trace that was extended by [log]. *)
Ltac trace_simpl :=
  cbn [pc world session fs trace projectId taskId aborted pendingHumanReply client
       outcome_world log with_session with_fs set_ids set_aborted set_pending set_client]
    in *;
  rewrite ?forwarded_snoc, ?terminal_signals_snoc, ?posted_errors_snoc,
    ?human_reply_calls_snoc, ?tool_effects_snoc, ?app_nil_r in *;
  cbn [is_human_reply_call is_tool_effect] in *;
  rewrite ?app_nil_r in *.

Lemma control_call_world call w : outcome_world (control_call call w) = w.
Proof. destruct call; reflexivity. Qed.

Lemma control_call_cases call w :
  match control_call call w with
  | Done w' => w' = w
  | Threw e w' => call = Some e /\ w' = w
  | Waiting _ _ => False
  end.
Proof. destruct call; simpl; auto. Qed.

Section WithHost.
Context `{Platform} (host : Host).
Variable untyped : ToolName -> JsVal -> FsState -> ToolResult * FsState.
Variable workspacePath : jsstring.

Local Abbreviation executeAndPostResult :=
  (executeAndPostResult host untyped workspacePath).
Local Abbreviation handleEvent := (handleEvent host untyped workspacePath).
Local Abbreviation move := (move host untyped workspacePath).
Local Abbreviation run := (run host untyped workspacePath).
Local Abbreviation startTask := (startTask host untyped workspacePath).

(** What [executeAndPostResult] can do: tool effects only; it never
    waits, and it throws only the error of its control call. *)
Lemma executeAndPostResult_spec t payload call w :
  let o := executeAndPostResult t payload call w in
  let w' := outcome_world o in
  keeps w w'
  /\ pendingHumanReply (session w') = pendingHumanReply (session w)
  /\ forwarded (trace w') = forwarded (trace w)
  /\ human_reply_calls (trace w') = human_reply_calls (trace w)
  /\ trace w `prefix_of` trace w'
  /\ match o with
     | Done _ => True
     | Threw e _ => call = Some e
     | Waiting _ _ => False
     end.
Proof.
  cbv zeta. unfold Orchestrator.executeAndPostResult.
  destruct (get payload (js "request_id")) as [rid|];
    [|repeat split; reflexivity].
  destruct (client (session w)) as [k|] eqn:Hk; [|repeat split; reflexivity].
  destruct (truthy rid && nonempty (projectId (session w)));
    [|repeat split; reflexivity].
  destruct (run_tool host untyped workspacePath t payload (fs w)) as [result st].
  rewrite control_call_world.
  pose proof (control_call_cases call
    (log (ToolResultCall (projectId (session (with_fs st (log (ToolRun t payload) w))))
            rid t result) (with_fs st (log (ToolRun t payload) w)))) as Hc.
  unfold keeps. trace_simpl.
  repeat split; try reflexivity.
  - rewrite <- app_assoc. apply prefix_app_r. reflexivity.
  - destruct (control_call call _); tauto.
Qed.

(** What [handleEvent] can do: it forwards the event first; it waits
    exactly for an [ask] event, with the slot set. *)
Lemma handleEvent_spec ev call w :
  let o := handleEvent ev call w in
  let w' := outcome_world o in
  keeps w w'
  /\ forwarded (trace w') = forwarded (trace w) ++ [ev]
  /\ human_reply_calls (trace w') = human_reply_calls (trace w)
  /\ trace w `prefix_of` trace w'
  /\ match o with
     | Done _ => pendingHumanReply (session w') = pendingHumanReply (session w)
     | Threw e _ =>
         call = Some e /\ pendingHumanReply (session w') = pendingHumanReply (session w)
     | Waiting a _ =>
         is_str (step ev) (js "ask") = true /\ pendingHumanReply (session w') = Some a
     end.
Proof.
  cbv zeta. unfold Orchestrator.handleEvent.
  destruct (is_str (step ev) (js "ask")) eqn:Hask.
  - unfold keeps. trace_simpl. repeat split; try reflexivity.
    rewrite <- app_assoc. apply prefix_app_r. reflexivity.
  - destruct (tool_of_step (step ev)) as [t|].
    + pose proof (executeAndPostResult_spec t (data ev) call (log (Forward ev) w)) as Hs.
      cbv zeta in Hs. destruct Hs as (Hk & Hp & Hf & Hh & Hpre & Ho).
      unfold keeps in *. trace_simpl.
      destruct Hk as (? & ? & ? & ? & ? & ?).
      repeat split; try assumption.
      * etransitivity; [|exact Hpre]. apply prefix_app_r. reflexivity.
      * destruct (executeAndPostResult t (data ev) call (log (Forward ev) w));
          simpl in *; tauto.
    + unfold keeps. trace_simpl. repeat split; try reflexivity.
      apply prefix_app_r. reflexivity.
Qed.

(** What the continuation of the [ask] case can do: at most the
    human-reply call, none for an empty reply. *)
Lemma after_reply_spec agent reply call w :
  let o := after_reply agent reply call w in
  let w' := outcome_world o in
  keeps w w'
  /\ pendingHumanReply (session w') = pendingHumanReply (session w)
  /\ forwarded (trace w') = forwarded (trace w)
  /\ (reply = [] -> human_reply_calls (trace w') = human_reply_calls (trace w))
  /\ trace w `prefix_of` trace w'
  /\ match o with
     | Done _ => True
     | Threw e _ => call = Some e
     | Waiting _ _ => False
     end.
Proof.
  cbv zeta. unfold after_reply.
  destruct (client (session w)); [|repeat split; reflexivity].
  destruct (nonempty reply && nonempty (projectId (session w))) eqn:Hr;
    [|repeat split; reflexivity].
  rewrite control_call_world.
  pose proof (control_call_cases call
                (log (HumanReplyCall (projectId (session w)) agent reply) w)) as Hc.
  unfold keeps. trace_simpl. repeat split; try reflexivity.
  - intros ->. discriminate.
  - apply prefix_app_r. reflexivity.
  - destruct (control_call call _); tauto.
Qed.

(** An invariant of the moves holds after every run. *)
Lemma run_invariant inp (P : Config -> Prop) :
  (forall m c, P c -> P (move inp m c)) ->
  forall ms c, P c -> P (run inp ms c).
Proof.
  intros Hstep. induction ms as [|m ms IH]; intros c Hc; simpl; [assumption|].
  apply IH, Hstep, Hc.
Qed.

(** Case analysis on a resumption of [startTask]: the place where it is
    suspended, then how the awaited call stands. *)
Ltac resume_cases c :=
  unfold Orchestrator.move, do_resume;
  let Hpc := fresh "Hpc" in
  destruct (pc c) as [|params0|[|ev rest]|ev agent rest [reply|]| |e0] eqn:Hpc.

Ltac env_cases c :=
  unfold Orchestrator.move, do_abortTask, do_submitHumanReply, resolve_pending, stop_call;
  cbn [pc world session with_session set_aborted pendingHumanReply client projectId];
  let Hpc := fresh "Hpc" in
  destruct (pendingHumanReply (session (world c))) eqn:Hpending;
  cbn [pc world session with_session set_pending set_aborted log pendingHumanReply
       client projectId];
  try destruct (client (session (world c)));
  try destruct (nonempty (projectId (session (world c))));
  cbn [pc world session with_session set_pending set_aborted log pendingHumanReply
       client projectId].

Ltac unfold_exits := unfold loop_body, completed, caught, finally in *.



Lemma linked_env reply (c : Config) (s : Session) :
  linked c ->
  pendingHumanReply s = pendingHumanReply (session (world c)) ->
  linked (resolve_pending reply {| pc := pc c; world := with_session s (world c) |}).
Proof.
  unfold linked, resolve_pending. cbn [pc world session with_session].
  intros Hl Hs. rewrite Hs.
  destruct (pendingHumanReply (session (world c))) as [a|] eqn:Hp.
  - destruct Hl as (ev & rest & Hpc). rewrite Hpc.
    cbn [pc world session with_session set_pending pendingHumanReply log].
    intros; discriminate.
  - cbn [pc world session with_session]. rewrite Hs. exact Hl.
Qed.

Lemma move_linked inp m c : linked c -> linked (move inp m c).
Proof.
  intros Hl. destruct m as [|reply|call].
  - pose proof (linked_env [] c (set_aborted true (session (world c))) Hl eq_refl) as Hl'.
    unfold Orchestrator.move, do_abortTask.
    destruct (resolve_pending [] _) as [p w] eqn:Hr.
    unfold linked, stop_call in *. cbn [pc world] in *.
    destruct (client (session w)); [destruct (nonempty (projectId (session w)))|];
      exact Hl'.
  - destruct c as [p [s f t]].
    exact (linked_env reply {| pc := p; world := {| session := s; fs := f; trace := t |} |}
             s Hl eq_refl).
  - assert (Hnone : (forall ev a rest, pc c <> AwaitReply ev a rest None) ->
                    pendingHumanReply (session (world c)) = None).
    { intros Hne. unfold linked in Hl.
      destruct (pendingHumanReply (session (world c))); [|reflexivity].
      destruct Hl as (ev' & rest' & Hpc'). exfalso. eapply Hne, Hpc'. }
    unfold linked in *. resume_cases c; try (rewrite Hpc; exact Hl).
    + destruct (in_params inp); cbn [pc world session with_session set_ids pendingHumanReply];
        (rewrite Hnone by congruence; discriminate).
    + destruct (in_apiKey inp);
        cbn [pc world session with_session log set_client pendingHumanReply];
        (rewrite Hnone by congruence; discriminate).
    + destruct (in_failure inp); unfold_exits; trace_simpl;
        try destruct (aborted (session (world c))); trace_simpl;
        (rewrite Hnone by congruence; discriminate).
    + destruct (aborted (session (world c)));
        [unfold_exits; trace_simpl; rewrite Hnone by congruence; discriminate|].
      pose proof (handleEvent_spec ev call (world c)) as Hs. cbv zeta in Hs.
      destruct Hs as (_ & _ & _ & _ & Ho).
      rewrite Hnone in Ho by congruence.
      destruct (handleEvent ev call (world c)) as [w'|e w'|a w']; unfold_exits;
        cbn [outcome_world] in Ho.
      * destruct (is_terminal ev); trace_simpl; rewrite Ho; discriminate.
      * destruct Ho as [_ Ho]. destruct (aborted (session w')); trace_simpl;
          rewrite Ho; discriminate.
      * destruct Ho as [_ Ho]. cbn [pc world]. rewrite Ho. eauto.
    + pose proof (after_reply_spec agent reply call (world c)) as Hs. cbv zeta in Hs.
      destruct Hs as (_ & Hp & _ & _ & _ & Ho).
      rewrite Hnone in Hp by congruence.
      destruct (after_reply agent reply call (world c)) as [w'|e w'|a w']; unfold_exits;
        cbn [outcome_world] in *; [| |contradiction].
      * destruct (is_terminal ev); trace_simpl; rewrite Hp; discriminate.
      * destruct (aborted (session w')); trace_simpl; rewrite Hp; discriminate.
Qed.

Lemma startTask_linked inp ms st : linked (startTask inp ms st).
Proof.
  unfold Orchestrator.startTask. apply run_invariant; [apply move_linked|].
  intros ev a rest. discriminate.
Qed.

Lemma move_silenced inp m c :
  silenced c ->
  silenced (move inp m c)
  /\ human_reply_calls (trace (world (move inp m c))) = human_reply_calls (trace (world c)).
Proof.
  unfold silenced. intros (Hab & Hp & Hr). destruct m as [|reply|call].
  - unfold Orchestrator.move, do_abortTask, resolve_pending, stop_call.
    cbn [pc world session with_session set_aborted pendingHumanReply client projectId].
    rewrite Hp. cbn [pc world session with_session set_aborted pendingHumanReply client
                     projectId].
    destruct (client (session (world c)));
      [destruct (nonempty (projectId (session (world c))))|];
      trace_simpl; repeat split; auto.
  - unfold Orchestrator.move, do_submitHumanReply, resolve_pending. rewrite Hp. auto.
  - resume_cases c; try (rewrite Hpc; auto; fail).
    + destruct (in_params inp); trace_simpl; repeat split; auto; intros; discriminate.
    + destruct (in_apiKey inp); trace_simpl; repeat split; auto; intros; discriminate.
    + destruct (in_failure inp); unfold_exits; rewrite ?Hab; trace_simpl;
        repeat split; auto; intros; discriminate.
    + rewrite Hab. unfold_exits. trace_simpl. repeat split; auto; intros; discriminate.
    + assert (reply = []) as -> by (eapply Hr; reflexivity).
      pose proof (after_reply_spec agent [] call (world c)) as Hs. cbv zeta in Hs.
      destruct Hs as (Hk & Hp' & _ & Hh & _ & Ho). specialize (Hh eq_refl).
      destruct Hk as (_ & _ & Hab' & _).
      rewrite Hab in Hab'. rewrite Hp in Hp'.
      destruct (after_reply agent [] call (world c)) as [w'|e w'|a w']; unfold_exits;
        cbn [outcome_world] in *; [| |contradiction].
      * destruct (is_terminal ev); trace_simpl; repeat split; auto; intros; discriminate.
      * rewrite Hab'. trace_simpl. repeat split; auto; intros; discriminate.
Qed.

Lemma run_silenced inp ms c :
  silenced c ->
  silenced (run inp ms c)
  /\ human_reply_calls (trace (world (run inp ms c))) = human_reply_calls (trace (world c)).
Proof.
  revert c; induction ms as [|m ms IH]; intros c Hc; simpl; [auto|].
  destruct (move_silenced inp m c Hc) as [Hs Heq].
  destruct (IH _ Hs) as [Hs' Heq']. split; [assumption|congruence].
Qed.

Lemma prefix_of_upto_all fwd :
  no_terminal fwd = true -> fwd `prefix_of` upto_terminal fwd.
Proof. intros Hn. rewrite <- (app_nil_r fwd) at 2. apply prefix_of_upto, Hn. Qed.

(** The exits of the loop body keep [tracks], given what the awaited
    call has forwarded. *)
Lemma loop_body_tracks inp ev rest o fwd :
  in_events inp = fwd ++ ev :: rest ->
  no_terminal fwd = true ->
  forwarded (trace (outcome_world o)) = fwd ++ [ev] ->
  match o with Waiting _ _ => is_terminal ev = false | _ => True end ->
  tracks inp (loop_body ev rest o).
Proof.
  intros Hev Hn Hf Hw. unfold tracks.
  assert (Hpre : (fwd ++ [ev]) `prefix_of` upto_terminal (in_events inp))
    by (rewrite Hev; apply prefix_of_upto_snoc, Hn).
  destruct o as [w'|e w'|a w']; unfold_exits; cbn [outcome_world] in Hf.
  - destruct (is_terminal ev) eqn:Hterm; trace_simpl; rewrite Hf.
    + exact Hpre.
    + rewrite <- app_assoc, no_terminal_snoc, Hn, Hterm. auto.
  - destruct (aborted (session w')); trace_simpl; rewrite Hf; exact Hpre.
  - cbn [pc world]. rewrite Hf, <- app_assoc, no_terminal_snoc, Hn, Hw. auto.
Qed.

Lemma move_tracks inp m c : tracks inp c -> tracks inp (move inp m c).
Proof.
  intros Ht. destruct m as [|reply|call].
  - unfold tracks in *. env_cases c; trace_simpl;
      destruct (pc c) as [| | |? ? ? []| |]; exact Ht.
  - unfold tracks in *. env_cases c; trace_simpl;
      destruct (pc c) as [| | |? ? ? []| |]; exact Ht.
  - unfold tracks in Ht. resume_cases c; try (unfold tracks; rewrite Hpc; exact Ht).
    + unfold tracks. destruct (in_params inp); trace_simpl; exact Ht.
    + unfold tracks. destruct (in_apiKey inp); trace_simpl; [|exact Ht].
      rewrite Ht. split; reflexivity.
    + destruct Ht as [Hev Hn]. rewrite app_nil_r in Hev. unfold tracks.
      destruct (in_failure inp); unfold_exits;
        try destruct (aborted (session (world c))); trace_simpl;
        rewrite Hev; apply prefix_of_upto_all, Hn.
    + destruct Ht as [Hev Hn].
      destruct (aborted (session (world c))).
      { unfold tracks, completed, finally. trace_simpl. rewrite Hev.
        apply prefix_of_upto, Hn. }
      pose proof (handleEvent_spec ev call (world c)) as Hs. cbv zeta in Hs.
      destruct Hs as (_ & Hf & _ & _ & Ho).
      apply (loop_body_tracks inp ev rest _ _ Hev Hn Hf).
      destruct (handleEvent ev call (world c)); [exact I|exact I|].
      apply ask_not_terminal, Ho.
    + destruct Ht as (Hev & Hn & Hterm).
      pose proof (after_reply_spec agent reply call (world c)) as Hs. cbv zeta in Hs.
      destruct Hs as (_ & _ & Hf & _ & _ & Ho).
      unfold tracks.
      destruct (after_reply agent reply call (world c)) as [w'|e w'|a w']; unfold_exits;
        cbn [outcome_world] in *; [| |contradiction].
      * rewrite Hterm. cbn [pc world]. rewrite Hf. auto.
      * destruct (aborted (session w')); trace_simpl; rewrite Hf, Hev;
          apply prefix_of_upto, Hn.
Qed.

Lemma startTask_tracks inp ms st : tracks inp (startTask inp ms st).
Proof.
  unfold Orchestrator.startTask. apply run_invariant; [apply move_tracks|]. reflexivity.
Qed.

Lemma tracks_prefix inp c :
  tracks inp c ->
  forwarded (trace (world c)) `prefix_of` upto_terminal (in_events inp).
Proof.
  unfold tracks. destruct (pc c); intros Hc;
    repeat match goal with
           | Hx : _ /\ _ |- _ => destruct Hx
           | Hev : in_events _ = _ |- _ => rewrite Hev
           | Hf : forwarded _ = [] |- _ => rewrite Hf
           end;
    auto using prefix_of_upto, prefix_nil.
Qed.

Lemma loop_body_cut ev rest rest' o :
  (is_terminal ev = false -> rest' = upto_terminal rest) ->
  match o with Waiting _ _ => is_terminal ev = false | _ => True end ->
  loop_body ev rest' o = cut (loop_body ev rest o).
Proof.
  intros Hrest Hw. unfold cut, loop_body.
  destruct o as [w'|e w'|a w'].
  - destruct (is_terminal ev); [reflexivity|]. rewrite Hrest; reflexivity.
  - reflexivity.
  - rewrite Hrest by exact Hw. reflexivity.
Qed.

(** Removing the events after the first terminal one commutes with every
    move. *)
Lemma move_cut inp m c :
  move (with_events (upto_terminal (in_events inp)) inp) m (cut c) = cut (move inp m c).
Proof.
  destruct c as [p w]. destruct m as [|reply|call].
  - unfold Orchestrator.move, do_abortTask, resolve_pending, cut.
    cbn [pc world session with_session set_aborted pendingHumanReply].
    destruct (pendingHumanReply (session w)); cbn [pc world];
      destruct p as [| | |? ? ? []| |]; reflexivity.
  - unfold Orchestrator.move, do_submitHumanReply, resolve_pending, cut.
    cbn [pc world]. destruct (pendingHumanReply (session w)); cbn [pc world];
      destruct p as [| | |? ? ? []| |]; reflexivity.
  - unfold Orchestrator.move.
    destruct p as [|params|[|ev rest]|ev agent rest [reply|]| |e0];
      try reflexivity.
    + unfold do_resume, cut. cbn [pc world cut_pc with_events in_params].
      destruct (in_params inp); reflexivity.
    + unfold do_resume, cut. cbn [pc world cut_pc with_events in_apiKey in_events].
      destruct (in_apiKey inp); reflexivity.
    + unfold do_resume, cut. cbn [pc world cut_pc with_events in_failure upto_terminal].
      destruct (in_failure inp); reflexivity.
    + pose proof (handleEvent_spec ev call w) as Hs. cbv zeta in Hs.
      destruct Hs as (_ & _ & _ & _ & Ho).
      assert (Hw : match handleEvent ev call w with
                   | Waiting _ _ => is_terminal ev = false
                   | _ => True
                   end).
      { destruct (handleEvent ev call w); try exact I. apply ask_not_terminal, Ho. }
      unfold do_resume. cbn [cut pc world cut_pc upto_terminal].
      destruct (is_terminal ev) eqn:Hterm; cbn [pc world];
        (destruct (aborted (session w)); [reflexivity|]);
        apply loop_body_cut;
        first [exact Hw | rewrite Hterm; exact Hw | reflexivity | intros; congruence].
    + pose proof (after_reply_spec agent reply call w) as Hs. cbv zeta in Hs.
      destruct Hs as (_ & _ & _ & _ & _ & Ho).
      unfold do_resume. cbn [cut pc world cut_pc].
      apply loop_body_cut; [reflexivity|].
      destruct (after_reply agent reply call w); tauto.
Qed.

Lemma run_cut inp ms c :
  run (with_events (upto_terminal (in_events inp)) inp) ms (cut c) = cut (run inp ms c).
Proof.
  revert c; induction ms as [|m ms IH]; intros c; simpl; [reflexivity|].
  rewrite move_cut. apply IH.
Qed.

(** The exits of the loop body keep [quiet]. *)
Lemma loop_body_quiet inp params (source : Thrown -> Prop) ev rest o w call :
  (forall e, call = Some e -> source e) ->
  aborted (session w) = false ->
  taskId (session w) = task_id params ->
  terminal_signals (trace w) = [] ->
  posted_errors (trace w) = [] ->
  keeps w (outcome_world o) ->
  (is_terminal ev = true ->
   forwarded (trace (outcome_world o)) = upto_terminal (in_events inp)) ->
  match o with Threw e _ => call = Some e | _ => True end ->
  quiet inp params source (loop_body ev rest o).
Proof.
  intros Hsrc Hab Hid Hsig Herr (Hk1 & Hk2 & Hk3 & Hk4 & Hk5 & Hk6) Hf Ho.
  unfold quiet. rewrite Hab in Hk3. rewrite Hid in Hk2. rewrite Hsig in Hk5.
  rewrite Herr in Hk6.
  destruct o as [w'|e w'|a w']; unfold_exits; cbn [outcome_world] in *.
  - destruct (is_terminal ev) eqn:Hterm; trace_simpl.
    + split; [assumption|]. left. rewrite Hk2, Hk5, Hk6. repeat split.
      apply Hf. reflexivity.
    + repeat split; assumption.
  - rewrite Hk3. trace_simpl. split; [assumption|]. right. exists e.
    rewrite Hk5, Hk6. repeat split. apply Hsrc, Ho.
  - trace_simpl. repeat split; assumption.
Qed.

Lemma move_quiet inp params (source : Thrown -> Prop) m c :
  in_params inp = Return params ->
  (forall e, in_failure inp = Some e -> source e) ->
  (forall e, m = resume (Some e) -> source e) ->
  is_abort m = false ->
  tracks inp c -> quiet inp params source c ->
  quiet inp params source (move inp m c).
Proof.
  intros Hparams Hfail Hcall Hm Ht [Hab Hq].
  destruct m as [|reply|call]; [discriminate| |].
  - unfold quiet in *. env_cases c; trace_simpl; (split; [exact Hab|]);
      destruct (pc c) as [| | |? ? ? []| |]; exact Hq.
  - assert (Hsrc : forall e, call = Some e -> source e)
      by (intros e ->; apply Hcall; reflexivity).
    unfold tracks in Ht. cbv zeta in Hq.
    resume_cases c; try (unfold quiet; rewrite Hpc; split; assumption).
    + rewrite Hparams. unfold quiet. trace_simpl. tauto.
    + unfold quiet. destruct (in_apiKey inp); trace_simpl; tauto.
    + destruct Ht as [Hev Hn]. rewrite app_nil_r in Hev.
      destruct Hq as (Hid & Hsig & Herr).
      unfold quiet. destruct (in_failure inp) as [e|] eqn:Hf; unfold_exits;
        rewrite ?Hab; trace_simpl; rewrite Hsig, Herr, ?Hid; (split; [exact Hab|]).
      * right. exists e. auto.
      * left. repeat split. rewrite Hev.
        rewrite <- (app_nil_r (forwarded _)) at 2.
        rewrite upto_terminal_app by exact Hn. simpl. rewrite app_nil_r. reflexivity.
    + destruct Ht as [Hev Hn]. destruct Hq as (Hid & Hsig & Herr). rewrite Hab.
      pose proof (handleEvent_spec ev call (world c)) as Hs. cbv zeta in Hs.
      destruct Hs as (Hk & Hf & _ & _ & Ho).
      eapply loop_body_quiet; eauto.
      * intros Hterm. rewrite Hf, Hev. symmetry. apply upto_terminal_stop; assumption.
      * destruct (handleEvent ev call (world c)); tauto.
    + destruct Ht as (Hev & Hn & Hterm). destruct Hq as (Hid & Hsig & Herr).
      pose proof (after_reply_spec agent reply call (world c)) as Hs. cbv zeta in Hs.
      destruct Hs as (Hk & _ & Hf & _ & _ & Ho).
      eapply loop_body_quiet; eauto.
      * congruence.
      * destruct (after_reply agent reply call (world c)); tauto.
Qed.

Lemma run_quiet inp params source : forall ms c,
  in_params inp = Return params ->
  (forall e, in_failure inp = Some e -> source e) ->
  (forall e, In (resume (Some e)) ms -> source e) ->
  forallb (fun m => negb (is_abort m)) ms = true ->
  tracks inp c -> quiet inp params source c ->
  quiet inp params source (run inp ms c).
Proof.
  induction ms as [|m ms IH]; intros c Hp Hf Hc Hab Ht Hq; simpl; [assumption|].
  simpl in Hab. apply andb_true_iff in Hab as [Hm Hms].
  apply IH; auto.
  - intros e He. apply Hc. right. exact He.
  - apply move_tracks, Ht.
  - apply move_quiet; auto.
    + intros e ->. apply Hc. left. reflexivity.
    + destruct (is_abort m); [discriminate|reflexivity].
Qed.

Lemma startTask_quiet inp params ms st :
  in_params inp = Return params ->
  forallb (fun m => negb (is_abort m)) ms = true ->
  quiet inp params (thrown_in inp ms) (startTask inp ms st).
Proof.
  intros Hp Hab. unfold Orchestrator.startTask. apply run_quiet; auto.
  - intros e He. left. exact He.
  - intros e He. right. exact He.
  - reflexivity.
  - repeat split; reflexivity.
Qed.






End WithHost.

End OrchestratorFacts.

(* ===================================================================== *)
(** ** Orchestrator: the claims *)
(* ===================================================================== *)

Module OrchestratorClaims.
Import SSEClient ToolExecutor Orchestrator OrchestratorFacts.

(** The scenario of the specification: an ask answered with "go ahead",
    a delegated read, the end. *)
Example end_to_end_scenario :
  let c := Sample.startTask
             (Sample.task [Sample.ask_event; Sample.read_event; Sample.end_event] None)
             [resume None; resume None; resume None; submitHumanReply (js "go ahead");
              resume None; resume None; resume None] in
  pc c = Returned
  /\ trace (world c)
     = [ Emit taskStarted;
         Forward Sample.ask_event; AskWait (JStr (js "a1"));
         ReplyResolved (js "go ahead");
         HumanReplyCall (js "p1") (JStr (js "a1")) (js "go ahead");
         Forward Sample.read_event;
         ToolRun execute_read_file (data Sample.read_event);
         ToolResultCall (js "p1") (JStr (js "r2")) execute_read_file
           {| success := true; content := Some (js "ab"); error := None |};
         Forward Sample.end_event;
         Emit (taskCompleted (js "t1")) ].
Proof. vm_compute. split; reflexivity. Qed.

(** A rejection of the key store before the loop is entered is not one of
    the terminal cases: [startTask] rejects, and the identifiers taken
    from the params stay. *)
Remark rejected_before_the_loop :
  let c := Sample.startTask
             {| in_params := Return Sample.params; in_backendUrl := None;
                in_apiKey := Throw (Error (js "secret storage unavailable"));
                in_events := []; in_failure := None |}
             [resume None; resume None] in
  pc c = Rejected (Error (js "secret storage unavailable"))
  /\ projectId (session (world c)) = js "p1"
  /\ trace (world c) = [].
Proof. vm_compute. repeat split; reflexivity. Qed.

Section WithHost.
Context `{Platform} (host : Host).
Variable untyped : ToolName -> JsVal -> FsState -> ToolResult * FsState.
Variable workspacePath : jsstring.

Local Abbreviation executeAndPostResult :=
  (executeAndPostResult host untyped workspacePath).
Local Abbreviation handleEvent := (handleEvent host untyped workspacePath).
Local Abbreviation move := (move host untyped workspacePath).
Local Abbreviation run := (run host untyped workspacePath).
Local Abbreviation startTask := (startTask host untyped workspacePath).

(** Claim C2 (terminal truncation).  Whatever the provider does and
    whenever the loop is resumed, the events forwarded to the observer are
    a prefix of the events up to and including the first terminal one; the
    events after the first terminal one have no effect at all: with them
    removed from the stream, the trace, the session and the store are the
    same, so none of them is forwarded or dispatched.  When the task
    signals completion and [abortTask] was not called, every event up to
    and including the first terminal one has been forwarded. *)
Theorem terminal_truncation (inp : TaskInput) (ms : list Move) (st : FsState) :
  let c := startTask inp ms st in
  let c' := startTask (with_events (upto_terminal (in_events inp)) inp) ms st in
  forwarded (trace (world c)) `prefix_of` upto_terminal (in_events inp)
  /\ world c' = world c
  /\ (forall params,
        in_params inp = Return params ->
        forallb (fun m => negb (is_abort m)) ms = true ->
        In (taskCompleted (task_id params)) (terminal_signals (trace (world c))) ->
        forwarded (trace (world c)) = upto_terminal (in_events inp)).
Proof.
  cbv zeta. split; [apply tracks_prefix, startTask_tracks|].
  split.
  - unfold Orchestrator.startTask.
    change (startTask_call (idle st)) with (cut (startTask_call (idle st))) at 1.
    rewrite run_cut. reflexivity.
  - intros params Hp Hab Hdone.
    destruct (startTask_quiet host untyped workspacePath inp params ms st Hp Hab)
      as [_ Hq].
    destruct (pc (startTask inp ms st));
      repeat match goal with
             | Hx : _ /\ _ |- _ => destruct Hx
             | Hx : _ \/ _ |- _ => destruct Hx
             | Hx : exists _, _ |- _ => destruct Hx
             | Hx : terminal_signals _ = _ |- _ => rewrite Hx in Hdone
             end;
      simpl in Hdone; try tauto.
    destruct Hdone as [Hdone|[]]. discriminate.
Qed.


(** Claim C4 (abort unblocks a pending reply).  When [abortTask] is
    called while a human-reply slot is pending, [startTask] is suspended
    in the wait of that slot; the abort resolves this wait at once with
    the empty string and clears the slot, and from then on, whatever
    happens, no human-reply call is made. *)
Theorem abort_unblocks_pending_reply (inp : TaskInput) (ms : list Move) (st : FsState)
    (agent : JsVal) :
  let c := startTask inp ms st in
  let c' := move inp abortTask c in
  pendingHumanReply (session (world c)) = Some agent ->
  (exists ev rest,
      pc c = AwaitReply ev agent rest None
      /\ pc c' = AwaitReply ev agent rest (Some []))
  /\ (exists t, trace (world c') = trace (world c) ++ ReplyResolved [] :: t)
  /\ pendingHumanReply (session (world c')) = None
  /\ aborted (session (world c')) = true
  /\ forall ms',
       human_reply_calls (trace (world (run inp ms' c')))
       = human_reply_calls (trace (world c)).
Proof.
  cbv zeta. intros Hpending.
  pose proof (startTask_linked host untyped workspacePath inp ms st) as Hl.
  unfold linked in Hl. rewrite Hpending in Hl. destruct Hl as (ev & rest & Hpc).
  set (c := startTask inp ms st) in *.
  assert (Hs : pc (move inp abortTask c) = AwaitReply ev agent rest (Some [])
               /\ (exists t, trace (world (move inp abortTask c))
                             = trace (world c) ++ ReplyResolved [] :: t)
               /\ pendingHumanReply (session (world (move inp abortTask c))) = None
               /\ aborted (session (world (move inp abortTask c))) = true
               /\ human_reply_calls (trace (world (move inp abortTask c)))
                  = human_reply_calls (trace (world c))).
  { unfold Orchestrator.move, do_abortTask, resolve_pending, stop_call.
    cbn [pc world session with_session set_aborted pendingHumanReply client projectId].
    rewrite Hpending, Hpc.
    cbn [pc world session with_session set_aborted set_pending log pendingHumanReply
         client projectId].
    destruct (client (session (world c)));
      [destruct (nonempty (projectId (session (world c))))|];
      trace_simpl; rewrite <- ?app_assoc; repeat split; eauto. }
  destruct Hs as (Hpc' & Htr & Hpn & Hab & Hcalls).
  split; [eauto|]. split; [exact Htr|]. split; [exact Hpn|]. split; [exact Hab|].
  intros ms'.
  destruct (run_silenced host untyped workspacePath inp ms' (move inp abortTask c))
    as [_ Heq].
  - repeat split; try assumption. intros ev' a' rest' r Hr. congruence.
  - rewrite Heq. exact Hcalls.
Qed.

(** Claim C8 (dropped delegated events).  For an event of one of the five
    delegated-execution steps whose payload has no usable [request_id], or
    that arrives when no client or no project identifier is held,
    [executeAndPostResult] returns at once without any effect; handling
    the event only forwards it: no tool is run, no tool-result call is
    made, the store and the session are unchanged, and the loop goes on to
    the next event. *)
Theorem delegated_event_dropped (ev : SSEEvent) (rest : list SSEEvent)
    (call : option Thrown) (w : World) (t : ToolName) :
  let c' := loop_body ev rest (handleEvent ev call w) in
  tool_of_step (step ev) = Some t ->
  truthy_opt (get (data ev) (js "request_id")) = false
  \/ client (session w) = None \/ projectId (session w) = [] ->
  executeAndPostResult t (data ev) call w = Done w
  /\ handleEvent ev call w = Done (log (Forward ev) w)
  /\ trace (world c') = trace w ++ [Forward ev]
  /\ tool_effects (trace (world c')) = tool_effects (trace w)
  /\ fs (world c') = fs w /\ session (world c') = session w
  /\ pc c' = AwaitNext rest.
Proof.
  cbv zeta. intros Ht Hdrop.
  destruct (tool_not_terminal _ _ Ht) as [Hterm Hask].
  assert (Hexec : forall w0,
             session w0 = session w ->
             executeAndPostResult t (data ev) call w0 = Done w0).
  { intros w0 Hw0. unfold Orchestrator.executeAndPostResult. rewrite Hw0.
    destruct (get (data ev) (js "request_id")) as [rid|]; [|reflexivity].
    destruct (client (session w)); [|reflexivity].
    destruct Hdrop as [Hd|[Hd|Hd]]; simpl in Hd.
    - rewrite Hd. reflexivity.
    - discriminate.
    - rewrite Hd, andb_false_r. reflexivity. }
  assert (Hh : handleEvent ev call w = Done (log (Forward ev) w)).
  { unfold Orchestrator.handleEvent. rewrite Hask, Ht. apply Hexec. reflexivity. }
  split; [apply Hexec; reflexivity|]. split; [exact Hh|].
  rewrite Hh. unfold loop_body. rewrite Hterm. trace_simpl.
  repeat split; reflexivity.
Qed.


End WithHost.

(** A stream of three events with the end in the middle, resumed to its
    return: the events up to the end are forwarded. *)
Lemma terminal_truncation_witness :
  let inp := Sample.task [Sample.notice_event; Sample.end_event; Sample.notice_event] None in
  let ms := [resume None; resume None; resume None; resume None] in
  forwarded (trace (world (Sample.startTask inp ms)))
  = [Sample.notice_event; Sample.end_event].
Proof.
  cbv zeta.
  refine (proj2 (proj2 (terminal_truncation (H := Sample.platform [])
            (Sample.host Sample.command_failed) Sample.untyped (js "/w")
            (Sample.task [Sample.notice_event; Sample.end_event; Sample.notice_event] None)
            [resume None; resume None; resume None; resume None] Sample.store))
          Sample.params eq_refl eq_refl _).
  vm_compute. left. reflexivity.
Defined.



(** An abort during the wait of the ask event of the scenario. *)
Lemma abort_unblocks_pending_reply_witness :
  let inp := Sample.task [Sample.ask_event; Sample.notice_event] None in
  let ms := [resume None; resume None; resume None] in
  let c' := move (H := Sample.platform []) (Sample.host Sample.command_failed)
              Sample.untyped (js "/w") inp abortTask (Sample.startTask inp ms) in
  pendingHumanReply (session (world (Sample.startTask inp ms))) = Some (JStr (js "a1"))
  /\ pendingHumanReply (session (world c')) = None
  /\ human_reply_calls
       (trace (world (run (H := Sample.platform []) (Sample.host Sample.command_failed)
                        Sample.untyped (js "/w") inp
                        [resume None; submitHumanReply (js "late"); resume None] c')))
     = [].
Proof.
  cbv zeta.
  pose proof (abort_unblocks_pending_reply (H := Sample.platform [])
                (Sample.host Sample.command_failed) Sample.untyped (js "/w")
                (Sample.task [Sample.ask_event; Sample.notice_event] None)
                [resume None; resume None; resume None] Sample.store
                (JStr (js "a1")) eq_refl) as (_ & _ & Hp & _ & Hcalls).
  split; [reflexivity|]. split; [exact Hp|].
  exact (Hcalls [resume None; submitHumanReply (js "late"); resume None]).
Defined.

(** A delegated read without [request_id], in a running session. *)
Lemma delegated_event_dropped_witness :
  let w := world (Sample.startTask (Sample.task [Sample.anonymous_read_event] None)
                    [resume None; resume None]) in
  handleEvent (H := Sample.platform []) (Sample.host Sample.command_failed)
    Sample.untyped (js "/w") Sample.anonymous_read_event None w
  = Done (log (Forward Sample.anonymous_read_event) w).
Proof.
  cbv zeta.
  exact (proj1 (proj2 (delegated_event_dropped (H := Sample.platform [])
           (Sample.host Sample.command_failed) Sample.untyped (js "/w")
           Sample.anonymous_read_event [] None
           (world (Sample.startTask (Sample.task [Sample.anonymous_read_event] None)
                     [resume None; resume None]))
           execute_read_file eq_refl (or_introl eq_refl)))).
Defined.



End OrchestratorClaims.

(* ===================================================================== *)
(** ** Chat-parameter builder: the claim *)
(* ===================================================================== *)

Module ChatParamsBuilderClaims.
Import ChatParamsBuilder.

(** Claim C10 (one identifier in both roles).  For every input of
    [buildEigentChatParams], the [project_id] and the [task_id] of the
    returned params are equal: both are the one UUID generated by the
    call. *)
Theorem buildEigentChatParams_single_id
    (model_id : ApiConfiguration -> jsstring) (randomUUID getWorkspacePath : jsstring)
    (apiConfiguration : ApiConfiguration) (question : jsstring)
    (images : option (list jsstring)) (workspacePath : option jsstring) :
  let p := buildEigentChatParams model_id randomUUID getWorkspacePath
             apiConfiguration question images workspacePath in
  project_id p = task_id p /\ project_id p = randomUUID /\ task_id p = randomUUID.
Proof. cbv zeta. repeat split; reflexivity. Qed.

End ChatParamsBuilderClaims.

(* ===================================================================== *)
(** ** Stream client: further properties *)
(* ===================================================================== *)

Module SSEClientMore.
Import SSEClient SSEClientFacts SSEControl SSEFrames.

Lemma dot_run_single_line p : single_line p = true -> dot_run p = p.
Proof.
  unfold single_line. induction p as [|c p IH]; simpl; [reflexivity|].
  intros Hp. apply andb_true_iff in Hp as [Hc Hp].
  destruct (is_line_terminator c); [discriminate|]. rewrite IH by assumption. reflexivity.
Qed.

Lemma match_data_payload p :
  one_line_payload p = true -> match_data true (js "data: " ++ p) = Some p.
Proof.
  unfold one_line_payload. intros Hp. apply andb_true_iff in Hp as [Hline Hfirst].
  destruct p as [|c p]; [discriminate|].
  cbn [js app match_data strip_prefix N_of_ascii]. simpl N.eqb.
  cbn [ws_dot_plus]. change (is_space 32) with true. cbn iota.
  apply negb_true_iff in Hfirst.
  cbn [ws_dot_plus]. rewrite Hfirst.
  unfold dot_plus. rewrite dot_run_single_line by assumption. reflexivity.
Qed.

Section WithPlatform.
Context `{Platform}.

Lemma parseSSEChunk_event_of_text chunk :
  parseSSEChunk chunk =
  match match_data true chunk with
  | None => None
  | Some m => event_of_text m
  end.
Proof. reflexivity. Qed.

Lemma parseSSEChunk_payload p :
  one_line_payload p = true -> parseSSEChunk (js "data: " ++ p) = event_of_text p.
Proof.
  intros Hp. rewrite parseSSEChunk_event_of_text, match_data_payload by assumption.
  reflexivity.
Qed.

End WithPlatform.

(** A text without line feed, followed by the blank line: the first
    delimiter is the one that follows it. *)
Lemma find_sep_after x rest :
  forallb (fun c => negb (c =? 10)) x = true ->
  find_sep frame_delimiter (x ++ frame_delimiter ++ rest) = Some (x, rest).
Proof.
  induction x as [|c x IH]; intros Hx.
  - reflexivity.
  - simpl in Hx. apply andb_true_iff in Hx as [Hc Hx].
    apply negb_true_iff in Hc.
    cbn [app find_sep]. unfold frame_delimiter at 1. cbn [strip_prefix].
    rewrite N.eqb_sym, Hc. rewrite IH by assumption. reflexivity.
Qed.

Lemma single_line_no_lf p :
  single_line p = true -> forallb (fun c => negb (c =? 10)) p = true.
Proof.
  unfold single_line. induction p as [|c p IH]; simpl; [reflexivity|].
  intros Hp. apply andb_true_iff in Hp as [Hc Hp]. rewrite IH by assumption.
  unfold is_line_terminator in Hc. destruct (c =? 10); [discriminate|reflexivity].
Qed.

Lemma split_frames ps :
  forallb one_line_payload ps = true ->
  split frame_delimiter (List.concat (map frame ps))
  = map (fun p => js "data: " ++ p) ps ++ [[]].
Proof.
  induction ps as [|p ps IH]; intros Hps.
  - reflexivity.
  - simpl in Hps. apply andb_true_iff in Hps as [Hp Hps].
    cbn [map List.concat app]. unfold frame at 1.
    rewrite split_unfold by apply frame_delimiter_nonempty.
    replace ((js "data: " ++ p ++ frame_delimiter) ++ List.concat (map frame ps))
      with ((js "data: " ++ p) ++ frame_delimiter ++ List.concat (map frame ps))
      by (rewrite <- !app_assoc; reflexivity).
    rewrite find_sep_after.
    + rewrite IH by assumption. reflexivity.
    + rewrite forallb_app. apply andb_true_iff. split; [reflexivity|].
      apply single_line_no_lf. unfold one_line_payload in Hp.
      apply andb_true_iff in Hp as [Hl _]. exact Hl.
Qed.

Section Streams.
Context `{Platform}.

Lemma frames_events_payloads ps :
  forallb one_line_payload ps = true ->
  frames_events (map (fun p => js "data: " ++ p) ps) = omap event_of_text ps.
Proof.
  unfold frames_events. induction ps as [|p ps IH]; intros Hps; [reflexivity|].
  simpl in Hps. apply andb_true_iff in Hps as [Hp Hps].
  cbn [map].
  change (omap ?f (?x :: ?l))
    with (match f x with Some y => y :: omap f l | None => omap f l end).
  rewrite parseSSEChunk_payload, IH by assumption. reflexivity.
Qed.

(** X1 (frames in, events out).  When the text decoded from the body is
    a sequence of frames, each a [data:] line with a one-line payload
    followed by the blank line, the events yielded are, in order, those of
    the payloads that parse to an object with a truthy [step]; the others
    are dropped; however the bytes are cut into reads. *)
Theorem frames_yield_their_events (reads : list (list Byte.byte))
    (payloads : list jsstring) :
  forallb one_line_payload payloads = true ->
  snd (decode_stream dec_init (List.concat reads)) = List.concat (map frame payloads) ->
  body_events reads = omap event_of_text payloads.
Proof.
  intros Hps Htext. rewrite body_events_whole.
  destruct (decode_stream dec_init (List.concat reads)) as [d txt]. simpl in Htext.
  subst txt. rewrite split_frames by assumption.
  unfold pop, popped. rewrite last_last, removelast_last.
  rewrite frames_events_payloads by assumption.
  unfold final_frame. simpl. apply app_nil_r.
Qed.

Lemma event_of_text_shape m e :
  event_of_text m = Some e -> truthy (step e) = true /\ data e <> JNull.
Proof.
  unfold event_of_text.
  destruct (JSON_parse (trim m)) as [d|]; [|discriminate].
  destruct d; try discriminate;
    (destruct (get _ (js "step")) as [st|]; [|discriminate]);
    (destruct (truthy st) eqn:Hst; [|discriminate]);
    intros [= <-]; (split; [exact Hst|]); simpl;
    repeat case_match; congruence.
Qed.

Lemma parseSSEChunk_shape chunk e :
  parseSSEChunk chunk = Some e -> truthy (step e) = true /\ data e <> JNull.
Proof.
  rewrite parseSSEChunk_event_of_text. destruct (match_data true chunk); [|discriminate].
  apply event_of_text_shape.
Qed.

Lemma frames_events_shape lines :
  Forall (fun e => truthy (step e) = true /\ data e <> JNull) (frames_events lines).
Proof.
  unfold frames_events. induction lines as [|l lines IH]; simpl; [constructor|].
  destruct (parseSSEChunk l) eqn:Hl; [|exact IH].
  constructor; [eapply parseSSEChunk_shape; eassumption|exact IH].
Qed.

(** X2 (shape of the events).  Whatever the response is, every event
    that [startChat] yields has a truthy [step] and a [data] that is not
    [null]. *)
Theorem yielded_events_have_step_and_data (c : EigentSSEClient) (params : ChatParams)
    (res : Response) :
  Forall (fun e => truthy (step e) = true /\ data e <> JNull)
    (snd (fst (startChat c params res))).
Proof.
  unfold startChat. destruct (negb (res_ok res)); [constructor|].
  destruct (res_body res) as [reads|]; [|constructor].
  destruct (res_read_error res); cbn [fst snd].
  - rewrite read_loop_whole by reflexivity.
    destruct (decode_stream dec_init (List.concat reads)). apply frames_events_shape.
  - rewrite body_events_whole.
    destruct (decode_stream dec_init (List.concat reads)) as [d txt].
    apply Forall_app. split; [apply frames_events_shape|].
    unfold final_frame. destruct (nonempty _); [|constructor].
    destruct (parseSSEChunk _) eqn:Hp; [|constructor].
    constructor; [eapply parseSSEChunk_shape; eassumption|constructor].
Qed.

Lemma match_data_occurs b s m :
  match_data b s = Some m -> find_sep (js "data:") s <> None.
Proof.
  revert b. induction s as [|c s IH]; intros b; cbn [match_data find_sep].
  - destruct b; [|discriminate].
    destruct (strip_prefix (js "data:") []); discriminate.
  - destruct (strip_prefix (js "data:") (c :: s)) as [rest|] eqn:Hp; [discriminate|].
    destruct b; intros Hm; apply IH in Hm;
      destruct (find_sep (js "data:") s) as [[? ?]|]; congruence.
Qed.

(** X3 (frames without a data field).  A frame in which the text
    [data:] does not occur, such as a comment or a keep-alive line, yields
    no event. *)
Theorem frame_without_data_is_dropped (chunk : jsstring) :
  find_sep (js "data:") chunk = None -> parseSSEChunk chunk = None.
Proof.
  intros Hnone. rewrite parseSSEChunk_event_of_text.
  destruct (match_data true chunk) as [m|] eqn:Hm; [|reflexivity].
  apply match_data_occurs in Hm. contradiction.
Qed.

(** X23 (how a chat ends).  On a successful response: without a body
    [startChat] throws the no-body error and yields nothing; when all reads
    succeed it returns after the events of the body, none for an empty
    body; when a read fails it throws that error after the events of the
    frames completed by then, which are the first events of the body had it
    ended there. *)
Theorem startChat_endings (c : EigentSSEClient) (params : ChatParams) (res : Response) :
  let events := snd (fst (startChat c params res)) in
  let ending := snd (startChat c params res) in
  res_ok res = true ->
  match res_body res, res_read_error res with
  | None, _ =>
      events = [] /\ ending = Some (Error (js "Eigent startChat: no response body"))
  | Some reads, None =>
      events = body_events reads /\ ending = None /\ (reads = [] -> events = [])
  | Some reads, Some e =>
      events `prefix_of` body_events reads /\ ending = Some e
  end.
Proof.
  cbv zeta. intros Hok. unfold startChat. rewrite Hok. cbn [negb].
  destruct (res_body res) as [reads|]; [|split; reflexivity].
  destruct (res_read_error res) as [e|]; cbn [fst snd].
  - split; [|reflexivity]. unfold body_events.
    destruct (read_loop (dec_init, []) reads) as [[d buffer] evs]. cbn [snd].
    apply prefix_app_r. reflexivity.
  - split; [reflexivity|]. split; [reflexivity|]. intros ->. reflexivity.
Qed.

End Streams.

(** The stream of the sample: two frames in single-byte reads. *)
Lemma frames_yield_their_events_witness :
  let payloads := [Sample.step_json "confirmed"; Sample.step_json "end"] in
  body_events (H := Sample.platform Sample.stream_table)
    (Sample.chop 200 1 (Sample.encode (List.concat (map frame payloads))))
  = [ {| step := JStr (js "confirmed"); data := JObj [] |};
      {| step := JStr (js "end"); data := JObj [] |} ].
Proof.
  cbv zeta.
  rewrite (frames_yield_their_events (H := Sample.platform Sample.stream_table)
             _ [Sample.step_json "confirmed"; Sample.step_json "end"]).
  - vm_compute. reflexivity.
  - vm_compute. reflexivity.
  - vm_compute. reflexivity.
Defined.

Lemma frame_without_data_is_dropped_witness :
  parseSSEChunk (H := Sample.platform Sample.stream_table) (js ": ping") = None.
Proof.
  apply (frame_without_data_is_dropped (H := Sample.platform Sample.stream_table)).
  vm_compute. reflexivity.
Defined.

(** A response without a body. *)
Lemma startChat_endings_witness :
  snd (startChat (H := Sample.platform []) Sample.sse_client Sample.params
         {| res_ok := true; res_status := 200; res_statusText := js "OK"; res_text := [];
            res_body := None; res_read_error := None |})
  = Some (Error (js "Eigent startChat: no response body")).
Proof.
  exact (proj2 (startChat_endings (H := Sample.platform []) Sample.sse_client
                  Sample.params
                  {| res_ok := true; res_status := 200; res_statusText := js "OK";
                     res_text := []; res_body := None; res_read_error := None |}
                  eq_refl)).
Defined.

Lemma strip_trailing_slash_slash (b : jsstring) :
  strip_trailing_slash (b ++ js "/") = b.
Proof.
  unfold strip_trailing_slash. rewrite rev_app_distr.
  change (rev (js "/")) with [47]. cbn [app]. apply rev_involutive.
Qed.

Lemma strip_trailing_slash_other (b : jsstring) :
  (forall b', b <> b' ++ js "/") -> strip_trailing_slash b = b.
Proof.
  intros Hno. unfold strip_trailing_slash.
  destruct (rev b) as [|x r] eqn:Hb; [reflexivity|].
  destruct (N.eqb_spec x 47) as [->|Hx].
  - exfalso. apply (Hno (rev r)).
    rewrite <- (rev_involutive b), Hb. reflexivity.
  - destruct x as [|x]; [reflexivity|].
    repeat (destruct x as [x|x|]; try reflexivity). congruence.
Qed.

(** X4 (base URL).  The constructor removes one trailing slash of the
    base URL, so that the paths of the calls, which start with a slash, are
    appended without doubling it; a base URL that does not end in a slash
    is kept as it is. *)
Theorem constructor_strips_one_slash (b : jsstring) (k : option jsstring) :
  let c := constructor {| opt_baseUrl := b ++ js "/"; opt_apiKey := k |} in
  baseUrl c = b
  /\ (forall p res, req_url (fst (stopChat c p res)) = b ++ js "/chat/" ++ p)
  /\ ((forall b', b <> b' ++ js "/") ->
      baseUrl (constructor {| opt_baseUrl := b; opt_apiKey := k |}) = b).
Proof.
  cbv zeta. unfold constructor, stopChat. cbn [opt_baseUrl baseUrl fst req_url].
  rewrite strip_trailing_slash_slash. split; [reflexivity|]. split; [reflexivity|].
  apply strip_trailing_slash_other.
Qed.

(** X5 (control calls).  Each of the seven control calls makes one
    request, with the headers of the client, to a path under
    [/chat/{projectId}] of the base URL; it returns when the response is
    successful and otherwise throws the error that names the call and
    carries the status and the response text, except that [stopChat] also
    returns on status 204. *)
Theorem control_call_contract (c : EigentSSEClient) (k : ControlCall) (res : Response) :
  let req := fst (perform c k res) in
  let out := snd (perform c k res) in
  (exists suffix, req_url req = baseUrl c ++ js "/chat/" ++ project_of k ++ suffix)
  /\ req_headers req = headers c
  /\ (out = Return tt \/ out = Throw (failed (method_name k) res))
  /\ (res_ok res = true -> out = Return tt)
  /\ (res_ok res = false ->
      (out = Return tt <-> exists p, k = StopChat p /\ res_status res = 204)).
Proof.
  cbv zeta. split.
  { destruct k; cbn [perform fst req_url project_of stopChat humanReply toolResult
                     addTask removeTask skipTask improve];
      try (eexists; rewrite <- ?app_assoc; reflexivity).
    - exists []. rewrite app_nil_r. reflexivity.
    - exists []. rewrite app_nil_r. reflexivity. }
  split; [destruct k; reflexivity|].
  destruct k; cbn [perform snd method_name stopChat humanReply toolResult addTask
                   removeTask skipTask improve]; unfold check_ok;
    destruct (res_ok res); cbn [negb andb];
    try (destruct (N.eqb_spec (res_status res) 204) as [H204|H204]; cbn [negb]);
    (split; [auto|]); (split; [auto; discriminate|]);
    intros Hok; try discriminate Hok;
    (split; [intros Hout; try discriminate Hout; eauto
            |intros (p & Hp & Hs); try discriminate Hp; try reflexivity; congruence]).
Qed.

(** X6 (request bodies).  The keys of the bodies built for [startChat],
    [addTask] and [improve] are pairwise distinct, and an option that is
    not given has no key: the keys of [addTask] are [content] and
    [project_id], then one key for each option that is given, and those of
    [improve] are [question], then one key for each option that is given;
    without options, [addTask] sends exactly [content] and [project_id],
    and [improve] exactly [question]. *)
Theorem request_bodies_are_objects (params : ChatParams) (projectId content : jsstring)
    (addOptions : option AddTaskOptions) (improveOptions : option ImproveOptions) :
  NoDup (body_keys params)
  /\ NoDup (map fst (addTask_body projectId content addOptions))
  /\ NoDup (map fst (improve_body content improveOptions))
  /\ addTask_body projectId content None
     = [(js "content", JStr content); (js "project_id", JStr projectId)]
  /\ improve_body content None = [(js "question", JStr content)]
  /\ map fst (addTask_body projectId content addOptions)
     = [js "content"; js "project_id"]
       ++ opt (option_of addOptions taskId) "task_id"
       ++ opt (option_of addOptions additionalInfo) "additional_info"
       ++ opt (option_of addOptions insertPosition) "insert_position"
       ++ opt (option_of addOptions isIndependent) "is_independent"
  /\ map fst (improve_body content improveOptions)
     = [js "question"]
       ++ opt (option_of improveOptions im_taskId) "task_id"
       ++ opt (option_of improveOptions im_attaches) "attaches".
Proof.
  repeat apply conj.
  - unfold body_keys, toChatBody.
    destruct (api_url params), (env_path params); cbn [not_nullish map fst app];
      apply (bool_decide_unpack _); vm_compute; reflexivity.
  - unfold addTask_body, option_of.
    destruct addOptions as [[[t|] [a|] [i|] [d|]]|];
      cbn [taskId additionalInfo insertPosition isIndependent optional fmap option_fmap
           option_map map fst app];
      apply (bool_decide_unpack _); vm_compute; reflexivity.
  - unfold improve_body, option_of.
    destruct improveOptions as [[[t|] [a|]]|];
      cbn [im_taskId im_attaches optional fmap option_fmap option_map map fst app];
      apply (bool_decide_unpack _); vm_compute; reflexivity.
  - reflexivity.
  - reflexivity.
  - destruct addOptions as [[[t|] [a|] [i|] [d|]]|]; reflexivity.
  - destruct improveOptions as [[[t|] [a|]]|]; reflexivity.
Qed.

End SSEClientMore.
(* ===================================================================== *)
(** ** Tool executor: the store, round trips and the form of results *)
(* ===================================================================== *)

Module ToolExecutorMore.
Import SSEClientFacts ToolExecutor ToolExecutorFacts ToolEffects.

Lemma join_singletons (s : jsstring) : join [] (map (fun c => [c]) s) = s.
Proof.
  induction s as [|c s IH]; [reflexivity|].
  destruct s as [|c' s]; [reflexivity|].
  change (join [] (map (fun c => [c]) (c :: c' :: s)))
    with (c :: join [] (map (fun c => [c]) (c' :: s))).
  rewrite IH. reflexivity.
Qed.

(** Splitting at a separator and joining with it gives the text back. *)
Lemma join_split (sep s : jsstring) : join sep (split sep s) = s.
Proof.
  destruct sep as [|x sep]; [apply join_singletons|].
  remember (length s) as n eqn:Hn. revert s Hn.
  induction n as [n IH] using lt_wf_ind. intros s Hn.
  rewrite split_unfold by discriminate.
  destruct (find_sep (x :: sep) s) as [[b a]|] eqn:Hf; [|reflexivity].
  rewrite join_cons by (apply split_ne; discriminate).
  rewrite (IH (length a)); [|subst n|reflexivity].
  - apply find_sep_spec in Hf. congruence.
  - apply find_sep_spec in Hf. rewrite Hf, !length_app. simpl. lia.
Qed.

Section WithHost.
Context `{Platform} (host : Host) (workspacePath : jsstring).

Local Abbreviation resolvePath := (resolvePath workspacePath).
Local Abbreviation executeFileWrite := (executeFileWrite host workspacePath).
Local Abbreviation executeReadFile := (executeReadFile host workspacePath).
Local Abbreviation executeSearchReplace := (executeSearchReplace host workspacePath).
Local Abbreviation executeListFiles := (executeListFiles host workspacePath).
Local Abbreviation executeTerminal := (executeTerminal host workspacePath).

Ltac unfold_ops :=
  unfold ToolExecutor.executeFileWrite, executeFileWrite_try,
    ToolExecutor.executeReadFile, executeReadFile_try,
    ToolExecutor.executeSearchReplace, executeSearchReplace_try,
    ToolExecutor.executeListFiles, executeListFiles_try,
    ToolExecutor.executeTerminal, executeTerminal_try,
    try_catch, catch_message, bind, ret, lift, fs_readFile, fs_writeFile, run_execa.

Lemma executeReadFile_cases (d : ExecuteReadFileData) (st : FsState) :
  executeReadFile d st =
  (Return match read_refused host (resolvePath (rf_path d)) with
          | Some e => message_result e
          | None =>
              match files st !! resolvePath (rf_path d) with
              | Some bytes =>
                  {| success := true; content := Some (decode bytes); error := None |}
              | None => message_result (file_not_found host (resolvePath (rf_path d)))
              end
          end, st).
Proof.
  unfold_ops. destruct (read_refused host _); [reflexivity|].
  destruct (files st !! _); reflexivity.
Qed.

(** X7 (what the operations do to the store).  Reading a file and
    listing files leave the store as it is.  Writing a file and
    search-and-replace leave it as it is or write once, to the resolved
    path of the request; when they report a failure the store is
    unchanged.  Running a command makes no write of the executor's own. *)
Theorem operations_and_the_store (st : FsState) :
  (forall d, snd (executeReadFile d st) = st)
  /\ (forall d, snd (executeListFiles d st) = st)
  /\ (forall d, wrote_at_most (resolvePath (fw_path d)) st (snd (executeFileWrite d st)))
  /\ (forall d, wrote_at_most (resolvePath (sr_path d)) st
                  (snd (executeSearchReplace d st)))
  /\ (forall d r st', executeFileWrite d st = (Return r, st') ->
                      success r = false -> st' = st)
  /\ (forall d r st', executeSearchReplace d st = (Return r, st') ->
                      success r = false -> st' = st)
  /\ (forall d, writes (snd (executeTerminal d st)) = writes st).
Proof.
  repeat apply conj.
  - intros d. rewrite executeReadFile_cases. reflexivity.
  - intros d. unfold_ops.
    destruct (includes 42 _ || includes 63 _).
    + destruct (workspaceFolder host); [|reflexivity].
      destruct (findFiles host _ _ _); reflexivity.
    + destruct (listFiles host _ _ _) as [[found hit]|e]; reflexivity.
  - intros d. unfold_ops; unfold wrote_at_most.
    destruct (write_refused host _); cbn [snd]; eauto.
  - intros d. unfold_ops; unfold wrote_at_most.
    destruct (read_refused host _); cbn [snd]; [eauto|].
    destruct (files st !! _); cbn [snd]; [|eauto].
    destruct (bool_decide _); cbn [snd]; [eauto|].
    destruct (write_refused host _); cbn [snd]; eauto.
  - intros d r st'. unfold_ops.
    destruct (write_refused host _); intros [= <- <-]; [reflexivity|discriminate].
  - intros d r st'. unfold_ops.
    destruct (read_refused host _); [intros [= <- <-]; reflexivity|].
    destruct (files st !! _); [|intros [= <- <-]; reflexivity].
    destruct (bool_decide _); [intros [= <- <-]; reflexivity|].
    destruct (write_refused host _); intros [= <- <-]; [reflexivity|discriminate].
  - intros d. unfold_ops.
    destruct (execa host _ _ _) as [[r|e] fs']; reflexivity.
Qed.

(** X8 (write, then read).  After a write that the host accepts, the
    result names the path as it was given, reading the same path returns
    the written text as the decoder reads its encoding, and reading a path
    that resolves elsewhere returns what it returned before the write. *)
Theorem write_then_read (rid path text : jsstring) (st : FsState) :
  let w := executeFileWrite {| fw_request_id := rid; fw_path := path; fw_content := text |}
             st in
  write_refused host (resolvePath path) = None ->
  read_refused host (resolvePath path) = None ->
  fst w = Return {| success := true; content := Some (js "Written to " ++ path);
                    error := None |}
  /\ (forall rid', fst (executeReadFile {| rf_request_id := rid'; rf_path := path |} (snd w))
        = Return {| success := true; content := Some (decode (utf8_encode text));
                    error := None |})
  /\ (forall rid' other,
        resolvePath other <> resolvePath path ->
        fst (executeReadFile {| rf_request_id := rid'; rf_path := other |} (snd w))
        = fst (executeReadFile {| rf_request_id := rid'; rf_path := other |} st)).
Proof.
  cbv zeta. intros Hw Hr.
  assert (Hwrite : executeFileWrite
                     {| fw_request_id := rid; fw_path := path; fw_content := text |} st
                   = (Return {| success := true; content := Some (js "Written to " ++ path);
                                error := None |},
                      {| files := <[resolvePath path := utf8_encode text]> (files st);
                         writes := writes st ++ [(resolvePath path, utf8_encode text)] |})).
  { unfold_ops. cbn [fw_path fw_content]. rewrite Hw. reflexivity. }
  rewrite Hwrite. cbn [fst snd]. split; [reflexivity|]. split.
  - intros rid'. rewrite executeReadFile_cases. cbn [fst rf_path files].
    rewrite Hr, lookup_insert_eq. reflexivity.
  - intros rid' other Hne. rewrite !executeReadFile_cases. cbn [fst rf_path files].
    rewrite lookup_insert_ne by congruence. reflexivity.
Qed.

(** X9 (replacing a string by itself).  When [old_string] and
    [new_string] are the same, search-and-replace on a readable file
    changes nothing and writes nothing, whether or not the string occurs:
    the result is the success that says no changes were needed. *)
Theorem search_replace_by_itself (d : ExecuteSearchReplaceData) (st : FsState)
    (bytes : list Byte.byte) :
  read_refused host (resolvePath (sr_path d)) = None ->
  files st !! resolvePath (sr_path d) = Some bytes ->
  old_string d = new_string d ->
  executeSearchReplace d st
  = (Return {| success := true;
               content := Some (js "No changes needed (old_string not found)");
               error := None |}, st).
Proof.
  intros Hr Hf Hsame. unfold_ops. rewrite Hr, Hf, <- Hsame, join_split.
  rewrite bool_decide_eq_true_2 by reflexivity. reflexivity.
Qed.

(** X10 (the form of a result).  A result of the four file operations
    is a success with a content and no error, or a failure with an error
    and no content.  A result of a command always has a content; its error
    field, when set, repeats the content and goes with a failure. *)
Theorem results_have_one_form (st : FsState) :
  (forall d r st', executeFileWrite d st = (Return r, st') -> file_result r)
  /\ (forall d r st', executeReadFile d st = (Return r, st') -> file_result r)
  /\ (forall d r st', executeSearchReplace d st = (Return r, st') -> file_result r)
  /\ (forall d r st', executeListFiles d st = (Return r, st') -> file_result r)
  /\ (forall d r st', executeTerminal d st = (Return r, st') -> command_result r).
Proof.
  assert (Hok : forall c, file_result {| success := true; content := Some c;
                                         error := None |})
    by (intros c; left; cbn; eauto).
  assert (Hno : forall e, file_result (message_result e))
    by (intros e; right; cbn; eauto).
  assert (Hno' : forall m, file_result {| success := false; content := None;
                                          error := Some m |})
    by (intros m; right; cbn; eauto).
  repeat apply conj; intros d r st'.
  - unfold_ops. destruct (write_refused host _); intros [= <- <-]; auto.
  - rewrite executeReadFile_cases. intros [= <- <-].
    destruct (read_refused host _); [auto|]. destruct (files st !! _); auto.
  - unfold_ops.
    destruct (read_refused host _); [intros [= <- <-]; auto|].
    destruct (files st !! _); [|intros [= <- <-]; auto].
    destruct (bool_decide _); [intros [= <- <-]; auto|].
    destruct (write_refused host _); intros [= <- <-]; auto.
  - unfold_ops.
    destruct (includes 42 _ || includes 63 _).
    + destruct (workspaceFolder host); [|intros [= <- <-]; auto].
      destruct (findFiles host _ _ _); intros [= <- <-]; auto.
    + destruct (listFiles host _ _ _) as [[found hit]|e]; intros [= <- <-]; auto.
  - unfold_ops; unfold command_result.
    destruct (execa host _ _ _) as [[res|e] fs']; intros [= <- <-]; cbn; eauto.
Qed.

End WithHost.

Lemma write_then_read_witness :
  let st := snd (executeFileWrite (H := Sample.platform []) (Sample.host Sample.command_failed)
                   (js "/w") {| fw_request_id := js "r1"; fw_path := js "new.txt";
                                fw_content := js "hi" |} Sample.store) in
  fst (executeReadFile (H := Sample.platform []) (Sample.host Sample.command_failed)
         (js "/w") {| rf_request_id := js "r2"; rf_path := js "new.txt" |} st)
  = Return {| success := true; content := Some (js "hi"); error := None |}.
Proof.
  cbv zeta.
  exact (proj1 (proj2 (write_then_read (H := Sample.platform [])
                         (Sample.host Sample.command_failed) (js "/w")
                         (js "r1") (js "new.txt") (js "hi") Sample.store
                         eq_refl eq_refl)) (js "r2")).
Defined.

Lemma search_replace_by_itself_witness :
  executeSearchReplace (H := Sample.platform []) (Sample.host Sample.command_failed)
    (js "/w") {| sr_request_id := js "r1"; sr_path := js "f.txt";
                 old_string := js "a"; new_string := js "a" |} Sample.store
  = (Return {| success := true;
               content := Some (js "No changes needed (old_string not found)");
               error := None |}, Sample.store).
Proof.
  apply (search_replace_by_itself (H := Sample.platform [])
           (Sample.host Sample.command_failed) (js "/w")
           {| sr_request_id := js "r1"; sr_path := js "f.txt";
              old_string := js "a"; new_string := js "a" |}
           Sample.store (list_byte_of_string "ab")).
  - reflexivity.
  - vm_compute. reflexivity.
  - reflexivity.
Defined.

End ToolExecutorMore.
(* ===================================================================== *)
(** ** Orchestrator: replies, delegated tools, aborts and [isRunning] *)
(* ===================================================================== *)

Module OrchestratorMore.
Import SSEClient ToolExecutor Orchestrator OrchestratorFacts TaskShape.

Lemma nonempty_true (s : jsstring) : nonempty s = true <-> s <> [].
Proof. destruct s; simpl; split; congruence. Qed.

Lemma started_resolved reply p : started (resolved reply p) = started p.
Proof. destruct p as [| | |? ? ? []| |]; reflexivity. Qed.

Lemma in_loop_resolved reply p : in_loop (resolved reply p) = in_loop p.
Proof. destruct p as [| | |? ? ? []| |]; reflexivity. Qed.

Lemma resolved_wait reply p ev a rest r :
  resolved reply p = AwaitReply ev a rest r -> exists r0, p = AwaitReply ev a rest r0.
Proof. destruct p as [| | |? ? ? []| |]; simpl; intros [= -> -> -> <-]; eauto. Qed.

Section WithHost.
Context `{Platform} (host : Host).
Variable untyped : ToolName -> JsVal -> FsState -> ToolResult * FsState.
Variable workspacePath : jsstring.

Local Abbreviation run_tool := (run_tool host untyped workspacePath).
Local Abbreviation tool_world := (tool_world host untyped workspacePath).
Local Abbreviation executeAndPostResult :=
  (executeAndPostResult host untyped workspacePath).
Local Abbreviation handleEvent := (handleEvent host untyped workspacePath).
Local Abbreviation move := (move host untyped workspacePath).
Local Abbreviation run := (run host untyped workspacePath).
Local Abbreviation startTask := (startTask host untyped workspacePath).

Lemma executeAndPostResult_run t payload call w rid k :
  get payload (js "request_id") = Some rid -> truthy rid = true ->
  client (session w) = Some k -> projectId (session w) <> [] ->
  executeAndPostResult t payload call w = control_call call (tool_world t payload rid w).
Proof.
  intros Hrid Ht Hk Hp. unfold Orchestrator.executeAndPostResult, TaskShape.tool_world.
  rewrite Hrid, Hk, Ht. apply nonempty_true in Hp. rewrite Hp. cbn [andb].
  destruct (run_tool t payload (fs w)) as [r st]. cbn [fst snd].
  unfold log, with_fs. cbn [session fs trace]. rewrite <- app_assoc. reflexivity.
Qed.

Lemma executeAndPostResult_shape t payload call w :
  executeAndPostResult t payload call w = Done w
  \/ exists rid k,
       get payload (js "request_id") = Some rid /\ truthy rid = true
       /\ client (session w) = Some k /\ projectId (session w) <> []
       /\ executeAndPostResult t payload call w
          = control_call call (tool_world t payload rid w).
Proof.
  destruct (get payload (js "request_id")) as [rid|] eqn:Hrid;
    [|left; unfold Orchestrator.executeAndPostResult; rewrite Hrid; reflexivity].
  destruct (client (session w)) as [k|] eqn:Hk;
    [|left; unfold Orchestrator.executeAndPostResult; rewrite Hrid, Hk; reflexivity].
  destruct (truthy rid) eqn:Ht;
    [|left; unfold Orchestrator.executeAndPostResult; rewrite Hrid, Hk, Ht; reflexivity].
  destruct (nonempty (projectId (session w))) eqn:Hp;
    [|left; unfold Orchestrator.executeAndPostResult;
      rewrite Hrid, Hk, Ht, Hp; reflexivity].
  right. exists rid, k. apply nonempty_true in Hp.
  repeat split; try assumption. apply (executeAndPostResult_run _ _ _ _ _ k); assumption.
Qed.

(** The three ways [handleEvent] goes on after forwarding the event. *)
Lemma handleEvent_shape ev call w :
  let w1 := log (Forward ev) w in
  (is_str (step ev) (js "ask") = true
   /\ handleEvent ev call w
      = Waiting (ask_agent ev)
          (log (AskWait (ask_agent ev))
             (with_session (set_pending (Some (ask_agent ev)) (session w1)) w1)))
  \/ (is_str (step ev) (js "ask") = false /\ handleEvent ev call w = Done w1)
  \/ (is_str (step ev) (js "ask") = false
      /\ exists t rid k,
           tool_of_step (step ev) = Some t
           /\ get (data ev) (js "request_id") = Some rid /\ truthy rid = true
           /\ client (session w) = Some k /\ projectId (session w) <> []
           /\ handleEvent ev call w
              = control_call call (tool_world t (data ev) rid w1)).
Proof.
  cbv zeta. unfold Orchestrator.handleEvent.
  destruct (is_str (step ev) (js "ask")) eqn:Hask; [left; split; reflexivity|].
  right. destruct (tool_of_step (step ev)) as [t|]; [|left; split; reflexivity].
  destruct (executeAndPostResult_shape t (data ev) call (log (Forward ev) w))
    as [Hd|(rid & k & Hrid & Ht & Hk & Hp & Hrun)].
  - left. split; [reflexivity|exact Hd].
  - right. split; [reflexivity|]. exists t, rid, k. repeat split; assumption.
Qed.

Lemma after_reply_shape agent reply call w :
  after_reply agent reply call w = Done w
  /\ (reply = [] \/ projectId (session w) = [] \/ client (session w) = None)
  \/ (reply <> [] /\ projectId (session w) <> [] /\ client (session w) <> None
      /\ after_reply agent reply call w
         = control_call call (log (HumanReplyCall (projectId (session w)) agent reply) w)).
Proof.
  unfold after_reply.
  destruct (client (session w)) as [k|]; [|left; auto].
  destruct reply as [|x reply]; [left; auto|].
  destruct (projectId (session w)) as [|y pid]; [left; auto|].
  right. cbn [nonempty andb]. repeat split; congruence.
Qed.

Ltac resume_at c :=
  unfold Orchestrator.move, do_resume;
  let Hpc := fresh "Hpc" in
  destruct (pc c) as [|params0|[|ev rest]|ev agent rest [reply|]| |e0] eqn:Hpc.

Ltac exits := unfold loop_body, completed, caught, finally in *.

Lemma resolve_pending_eq reply c :
  resolve_pending reply c
  = match pendingHumanReply (session (world c)) with
    | Some _ =>
        {| pc := resolved reply (pc c);
           world := with_session (set_pending None (session (world c)))
                      (log (ReplyResolved reply) (world c)) |}
    | None => c
    end.
Proof.
  unfold resolve_pending, resolved.
  destruct (pendingHumanReply (session (world c))); [|reflexivity].
  destruct (pc c) as [| | |? ? ? []| |]; reflexivity.
Qed.

Ltac four := split; [|split; [|split]].

Lemma established_env inp params reply (c : Config) (s : Session) :
  established inp params c ->
  projectId s = projectId (session (world c)) ->
  taskId s = taskId (session (world c)) ->
  client s = client (session (world c)) ->
  pendingHumanReply s = pendingHumanReply (session (world c)) ->
  (pendingHumanReply s <> None -> aborted s = false) \/ aborted s = true ->
  established inp params
    (resolve_pending reply {| pc := pc c; world := with_session s (world c) |}).
Proof.
  intros (Hids & Hcl & Hag & Hpe) Hp Ht Hk Hpn Hab.
  rewrite resolve_pending_eq. cbn [pc world session with_session].
  destruct (pendingHumanReply s) as [a|] eqn:Hs.
  - unfold established. trace_simpl.
    rewrite started_resolved, in_loop_resolved, Hp, Ht, Hk.
    four; try assumption; try congruence.
    intros ev1 a1 rest1 r1 Hr. apply resolved_wait in Hr as [r0 Hr]. eauto.
  - unfold established. trace_simpl. rewrite Hp, Ht, Hk, Hs.
    four; try assumption; congruence.
Qed.

Lemma stop_call_session w : session (stop_call w) = session w.
Proof.
  unfold stop_call. destruct (client (session w)); [|reflexivity].
  destruct (nonempty (projectId (session w))); reflexivity.
Qed.

Ltac settle :=
  trace_simpl; cbn [started in_loop] in *;
  four; [tauto || (split; reflexivity) || idtac
        |try (intros; discriminate); try assumption
        |try (intros; discriminate); try assumption
        |try assumption; try tauto;
         try (let Hx := fresh in
              intros Hx;
              match goal with
              | Hq : aborted _ = false |- _ => exact Hq
              | Hq : pendingHumanReply _ <> None -> _ |- _ =>
                  specialize (Hq Hx); congruence
              end)].

Lemma move_established inp params m c :
  in_params inp = Return params ->
  established inp params c -> established inp params (move inp m c).
Proof.
  intros Hin He. destruct m as [|reply|call].
  - pose proof (established_env inp params [] c (set_aborted true (session (world c)))
                  He eq_refl eq_refl eq_refl eq_refl (or_intror eq_refl)) as He'.
    unfold Orchestrator.move, do_abortTask.
    destruct (resolve_pending [] _) as [p w].
    unfold established in *. cbn [pc world log session] in *.
    rewrite stop_call_session. exact He'.
  - destruct c as [p [s f t]].
    apply (established_env inp params reply
             {| pc := p; world := {| session := s; fs := f; trace := t |} |} s He);
      try reflexivity.
    left. destruct He as (_ & _ & _ & Hpe). exact Hpe.
  - destruct He as (Hids & Hcl & Hag & Hpe).
    unfold established. resume_at c; try (rewrite Hpc; four; assumption).
    + rewrite Hin. settle.
    + destruct (in_apiKey inp) as [key|e] eqn:Hkey; settle. eauto.
    + destruct (in_failure inp); exits;
        try destruct (aborted (session (world c))) eqn:Hab; settle.
    + destruct (aborted (session (world c))) eqn:Hab; [exits; settle|].
      destruct (handleEvent_shape ev call (world c))
        as [[Hask Hh]|[[Hask Hh]|(Hask & t & rid & k & _ & _ & _ & _ & _ & Hh)]];
        rewrite Hh; clear Hh.
      * exits. settle. intros ? ? ? ? [= <- <- <- <-]. split; [reflexivity|assumption].
      * exits. destruct (is_terminal ev); settle.
      * destruct call as [e|]; cbn [control_call]; exits; unfold TaskShape.tool_world;
          try destruct (is_terminal ev); trace_simpl; rewrite ?Hab; settle.
    + destruct (after_reply_shape agent reply call (world c))
        as [[Hr _]|(_ & _ & _ & Hr)]; rewrite Hr; clear Hr;
        try (destruct call as [e|]; cbn [control_call]); exits; trace_simpl;
        try destruct (is_terminal ev);
        try destruct (aborted (session (world c))) eqn:Hab; settle.
Qed.

Lemma startTask_established inp params ms st :
  in_params inp = Return params -> established inp params (startTask inp ms st).
Proof.
  intros Hin. unfold Orchestrator.startTask.
  apply run_invariant; [intros; apply move_established; assumption|].
  unfold established. cbn. four; auto; intros; discriminate.
Qed.

(** The provider's moves add no tool effect, forward nothing, post no
    error and leave the store alone. *)
Lemma env_move_effects inp m c :
  (m = abortTask \/ exists reply, m = submitHumanReply reply) ->
  let c' := move inp m c in
  forwarded (trace (world c')) = forwarded (trace (world c))
  /\ tool_effects (trace (world c')) = tool_effects (trace (world c))
  /\ posted_errors (trace (world c')) = posted_errors (trace (world c))
  /\ fs (world c') = fs (world c).
Proof.
  cbv zeta. intros [->|[reply ->]]; unfold Orchestrator.move.
  - unfold do_abortTask. rewrite resolve_pending_eq. unfold stop_call.
    cbn [pc world session with_session set_aborted pendingHumanReply].
    destruct (pendingHumanReply (session (world c))); trace_simpl;
      (destruct (client (session (world c)));
       [destruct (nonempty (projectId (session (world c))))|]);
      trace_simpl; repeat split; reflexivity.
  - unfold do_submitHumanReply. rewrite resolve_pending_eq.
    destruct (pendingHumanReply (session (world c))); trace_simpl;
      repeat split; reflexivity.
Qed.

(** A resumption adds no tool effect, or it is the handling of a
    delegated event in a session that is not aborted and adds the run of
    the tool and the tool-result call. *)
Lemma resume_tool_effects inp call c :
  let c' := move inp (resume call) c in
  tool_effects (trace (world c')) = tool_effects (trace (world c))
  \/ exists ev rest t rid r,
       pc c = AwaitNext (ev :: rest)
       /\ get (data ev) (js "request_id") = Some rid /\ truthy rid = true
       /\ tool_effects (trace (world c'))
          = tool_effects (trace (world c))
            ++ [ToolRun t (data ev);
                ToolResultCall (projectId (session (world c))) rid t r].
Proof.
  cbv zeta. resume_at c; try (left; reflexivity).
  - left. destruct (in_params inp); reflexivity.
  - left. destruct (in_apiKey inp); trace_simpl; reflexivity.
  - left. destruct (in_failure inp); exits; trace_simpl;
      try destruct (aborted (session (world c))); trace_simpl; reflexivity.
  - destruct (aborted (session (world c))) eqn:Hab;
      [left; exits; trace_simpl; reflexivity|].
    destruct (handleEvent_shape ev call (world c))
      as [[Hask Hh]|[[Hask Hh]|(Hask & t & rid & k & _ & Hrid & Ht & _ & _ & Hh)]];
      rewrite Hh; clear Hh.
    + left. exits. trace_simpl. reflexivity.
    + left. exits. destruct (is_terminal ev); trace_simpl; reflexivity.
    + right. exists ev, rest, t, rid.
      eexists. split; [reflexivity|]. split; [exact Hrid|]. split; [exact Ht|].
      destruct call as [e|]; cbn [control_call]; exits; unfold TaskShape.tool_world;
        trace_simpl; try destruct (is_terminal ev); rewrite ?Hab; trace_simpl;
        unfold tool_effects; rewrite !List.filter_app; cbn [List.filter is_tool_effect];
        rewrite ?app_nil_r; reflexivity.
  - left.
    destruct (after_reply_shape agent reply call (world c))
      as [[Hr _]|(_ & _ & _ & Hr)]; rewrite Hr; clear Hr;
      try (destruct call as [e|]; cbn [control_call]); exits; trace_simpl;
      try destruct (is_terminal ev);
      try destruct (aborted (session (world c))); trace_simpl; reflexivity.
Qed.

Lemma move_paired inp params m c :
  in_params inp = Return params ->
  established inp params c ->
  tool_pairs (project_id params) (tool_effects (trace (world c))) ->
  tool_pairs (project_id params) (tool_effects (trace (world (move inp m c)))).
Proof.
  intros Hin (Hids & _) Hp. destruct m as [|reply|call].
  - destruct (env_move_effects inp abortTask c) as (_ & -> & _); auto.
  - destruct (env_move_effects inp (submitHumanReply reply) c) as (_ & -> & _); eauto.
  - destruct (resume_tool_effects inp call c)
      as [->|(ev & rest & t & rid & r & Hpc & Hrid & Ht & ->)]; [exact Hp|].
    rewrite Hpc in Hids. cbn [started] in Hids. destruct Hids as [-> _].
    apply tool_pairs_snoc; assumption.
Qed.

(** X11 (a reply reaches the backend).  When a reply is submitted while
    a human-reply slot is pending, [startTask] is suspended in the wait of
    an [ask] event and the slot holds the agent of its payload (the empty
    string when there is none); the submission resolves the wait and clears
    the slot.  On the next resumption a non-empty reply, for a non-empty
    project identifier, is sent by one human-reply call with the project
    identifier of the params, that agent and that reply, and the loop goes
    on to the next event; when the call fails the task ends with the error
    event and [taskAborted].  An empty reply, or an empty project
    identifier, sends nothing. *)
Theorem reply_reaches_the_backend (inp : TaskInput) (params : ChatParams)
    (ms : list Move) (st : FsState) (agent : JsVal) (reply : jsstring)
    (call : option Thrown) :
  let c := startTask inp ms st in
  let c1 := move inp (submitHumanReply reply) c in
  let c2 := move inp (resume call) c1 in
  in_params inp = Return params ->
  pendingHumanReply (session (world c)) = Some agent ->
  exists ev rest,
    pc c = AwaitReply ev agent rest None
    /\ is_str (step ev) (js "ask") = true /\ agent = ask_agent ev
    /\ pc c1 = AwaitReply ev agent rest (Some reply)
    /\ trace (world c1) = trace (world c) ++ [ReplyResolved reply]
    /\ pendingHumanReply (session (world c1)) = None
    /\ (reply = [] \/ project_id params = [] ->
        c2 = {| pc := AwaitNext rest; world := world c1 |})
    /\ (reply <> [] -> project_id params <> [] ->
        let sent := log (HumanReplyCall (project_id params) agent reply) (world c1) in
        match call with
        | None => c2 = {| pc := AwaitNext rest; world := sent |}
        | Some e =>
            pc c2 = Returned
            /\ trace (world c2)
               = trace sent ++ [PostError (error_text e); Emit taskAborted]
        end).
Proof.
  cbv zeta. intros Hin Hpending.
  pose proof (startTask_linked host untyped workspacePath inp ms st) as Hl.
  pose proof (startTask_established inp params ms st Hin) as (Hids & Hcl & Hag & Hpe).
  set (c := startTask inp ms st) in *.
  unfold linked in Hl. rewrite Hpending in Hl. destruct Hl as (ev & rest & Hpc).
  destruct (Hag _ _ _ _ Hpc) as [Hagent Hask].
  rewrite Hpc in Hids, Hcl. cbn [started in_loop] in Hids, Hcl.
  destruct Hids as [Hpid _]. destruct (Hcl eq_refl) as (key & _ & Hk).
  assert (Hab : aborted (session (world c)) = false) by (apply Hpe; congruence).
  pose proof (ask_not_terminal ev Hask) as Hterm.
  exists ev, rest. split; [exact Hpc|]. split; [exact Hask|]. split; [exact Hagent|].
  assert (Hc1 : move inp (submitHumanReply reply) c
                = {| pc := AwaitReply ev agent rest (Some reply);
                     world := with_session (set_pending None (session (world c)))
                                (log (ReplyResolved reply) (world c)) |}).
  { unfold Orchestrator.move, do_submitHumanReply. rewrite resolve_pending_eq.
    rewrite Hpending, Hpc. reflexivity. }
  rewrite Hc1. trace_simpl.
  split; [reflexivity|]. split; [reflexivity|]. split; [reflexivity|].
  unfold Orchestrator.move, do_resume. cbn [pc world]. unfold after_reply.
  trace_simpl. rewrite Hk, Hpid. split.
  - intros [-> | Hq]; try rewrite Hq; rewrite ?andb_false_r; cbn [nonempty andb];
      unfold loop_body; rewrite Hterm; reflexivity.
  - intros Hr Hp. apply nonempty_true in Hr, Hp. rewrite Hr, Hp. cbn [andb].
    destruct call as [e|]; cbn [control_call]; exits; trace_simpl.
    + rewrite Hab. trace_simpl. rewrite <- !app_assoc. split; reflexivity.
    + rewrite Hterm. reflexivity.
Qed.

(** X13 (the first reply wins).  A reply submitted when no slot is
    pending changes nothing; so of two replies submitted in a row the
    second is lost, and so is a reply submitted after an abort. *)
Theorem first_reply_wins (inp : TaskInput) (c : Config) (r1 r2 : jsstring) :
  (pendingHumanReply (session (world c)) = None ->
   move inp (submitHumanReply r1) c = c)
  /\ move inp (submitHumanReply r2) (move inp (submitHumanReply r1) c)
     = move inp (submitHumanReply r1) c
  /\ move inp (submitHumanReply r2) (move inp abortTask c) = move inp abortTask c.
Proof.
  assert (Hnone : forall r c0, pendingHumanReply (session (world c0)) = None ->
                               move inp (submitHumanReply r) c0 = c0).
  { intros r c0 Hn. unfold Orchestrator.move, do_submitHumanReply.
    rewrite resolve_pending_eq, Hn. reflexivity. }
  split; [apply Hnone|]. split; apply Hnone.
  - unfold Orchestrator.move, do_submitHumanReply. rewrite resolve_pending_eq.
    destruct (pendingHumanReply (session (world c))) eqn:Hp; [reflexivity|exact Hp].
  - unfold Orchestrator.move, do_abortTask. rewrite resolve_pending_eq.
    cbn [pc world session with_session set_aborted pendingHumanReply].
    destruct (pendingHumanReply (session (world c))) eqn:Hp; cbn [world log session];
      rewrite stop_call_session; trace_simpl; [reflexivity|exact Hp].
Qed.

(** X14 (a delegated event is executed once).  For an event of one of
    the five delegated-execution steps whose payload has a usable
    [request_id], in a session that holds a client and a project
    identifier, handling the event forwards it, runs the tool of the step
    once on the payload and the store, and makes one tool-result call for
    the project with that [request_id], that tool and the result of the
    run.  When the call succeeds the loop goes on to the next event; when
    it fails the task ends with [taskAborted], after an error event unless
    the session is aborted. *)
Theorem delegated_event_executed (ev : SSEEvent) (rest : list SSEEvent)
    (call : option Thrown) (w : World) (t : ToolName) (rid : JsVal)
    (k : EigentSSEClient) :
  let c' := loop_body ev rest (handleEvent ev call w) in
  let result := fst (run_tool t (data ev) (fs w)) in
  let ran := {| session := session w;
                fs := snd (run_tool t (data ev) (fs w));
                trace := trace w ++ [Forward ev; ToolRun t (data ev);
                                     ToolResultCall (projectId (session w)) rid t
                                       result] |} in
  tool_of_step (step ev) = Some t ->
  get (data ev) (js "request_id") = Some rid -> truthy rid = true ->
  client (session w) = Some k -> projectId (session w) <> [] ->
  handleEvent ev call w = control_call call ran
  /\ match call with
     | None => c' = {| pc := AwaitNext rest; world := ran |}
     | Some e =>
         pc c' = Returned
         /\ trace (world c')
            = trace ran
              ++ (if aborted (session w) then [] else [PostError (error_text e)])
              ++ [Emit taskAborted]
     end.
Proof.
  cbv zeta. intros Ht Hrid Htr Hk Hp.
  destruct (tool_not_terminal _ _ Ht) as [Hterm Hask].
  assert (Hh : handleEvent ev call w
               = control_call call
                   {| session := session w;
                      fs := snd (run_tool t (data ev) (fs w));
                      trace := trace w ++ [Forward ev; ToolRun t (data ev);
                                           ToolResultCall (projectId (session w)) rid t
                                             (fst (run_tool t (data ev) (fs w)))] |}).
  { unfold Orchestrator.handleEvent. rewrite Hask, Ht.
    rewrite (executeAndPostResult_run t (data ev) call (log (Forward ev) w) rid k)
      by assumption.
    unfold TaskShape.tool_world. trace_simpl. rewrite <- app_assoc. reflexivity. }
  split; [exact Hh|]. rewrite Hh.
  destruct call as [e|]; cbn [control_call]; exits; trace_simpl.
  - destruct (aborted (session w)); trace_simpl; rewrite <- ?app_assoc;
      split; reflexivity.
  - rewrite Hterm. reflexivity.
Qed.

(** X15 (tool results are paired with runs).  In the trace of a task
    with params [params], the tool effects come in pairs: every run of a
    tool is followed at once by the tool-result call for the project
    identifier of the params, with the [request_id] of the payload that
    was run, which is usable, and with the same tool; there is no
    tool-result call without its run. *)
Theorem tool_results_are_paired (inp : TaskInput) (params : ChatParams)
    (ms : list Move) (st : FsState) :
  in_params inp = Return params ->
  tool_pairs (project_id params) (tool_effects (trace (world (startTask inp ms st)))).
Proof.
  intros Hin.
  assert (Hinv : established inp params (startTask inp ms st)
                 /\ tool_pairs (project_id params)
                      (tool_effects (trace (world (startTask inp ms st)))));
    [|tauto].
  unfold Orchestrator.startTask.
  apply (run_invariant host untyped workspacePath inp
           (fun c => established inp params c
                     /\ tool_pairs (project_id params) (tool_effects (trace (world c))))).
  - intros m c [He Hp]. split; [apply move_established|apply move_paired]; assumption.
  - split; [|constructor].
    unfold established. cbn. four; auto; intros; discriminate.
Qed.

(** X16 ([isRunning] during a task).  For a task whose params carry a
    non-empty project identifier, [isRunning] is true exactly when the
    session is not aborted and [startTask] has taken the identifiers from
    the params and not yet passed its [finally] clause; this includes a
    [startTask] that was rejected by the key store, after which [isRunning]
    stays true.  While it is true the identifiers of the session are those
    of the params. *)
Theorem isRunning_during_a_task (inp : TaskInput) (params : ChatParams)
    (ms : list Move) (st : FsState) :
  let c := startTask inp ms st in
  let s := session (world c) in
  in_params inp = Return params ->
  project_id params <> [] ->
  isRunning s = started (pc c) && negb (aborted s)
  /\ (isRunning s = true ->
      projectId s = project_id params /\ taskId s = task_id params).
Proof.
  cbv zeta. intros Hin Hp.
  pose proof (startTask_established inp params ms st Hin) as (Hids & _).
  unfold isRunning. destruct (started (pc (startTask inp ms st))).
  - destruct Hids as [Hpid Htid]. rewrite Hpid.
    apply nonempty_true in Hp. rewrite Hp. split; [reflexivity|].
    intros _. split; [reflexivity|assumption].
  - destruct Hids as [-> _]. split; [reflexivity|discriminate].
Qed.

(** X24 (a terminal event completes the task).  When the next event of
    the stream is terminal ([end], [error] or [timeout]) and the session is
    not aborted, the resumption forwards the event and does nothing else
    with it, leaves the loop and emits [taskCompleted] with the task
    identifier of the params, for an [error] or a [timeout] event as for
    [end]; the identifiers are cleared and the store is unchanged. *)
Theorem terminal_event_completes_the_task (inp : TaskInput) (params : ChatParams)
    (ms : list Move) (st : FsState) (ev : SSEEvent) (rest : list SSEEvent)
    (call : option Thrown) :
  let c := startTask inp ms st in
  let c' := move inp (resume call) c in
  in_params inp = Return params ->
  pc c = AwaitNext (ev :: rest) ->
  aborted (session (world c)) = false ->
  is_terminal ev = true ->
  pc c' = Returned
  /\ trace (world c')
     = trace (world c) ++ [Forward ev; Emit (taskCompleted (task_id params))]
  /\ projectId (session (world c')) = []
  /\ taskId (session (world c')) = []
  /\ fs (world c') = fs (world c)
  /\ isRunning (session (world c')) = false.
Proof.
  cbv zeta. intros Hin Hpc Hab Hterm.
  pose proof (startTask_established inp params ms st Hin) as (Hids & _).
  set (c := startTask inp ms st) in *.
  rewrite Hpc in Hids. cbn [started] in Hids. destruct Hids as [_ Htid].
  destruct (terminal_default ev Hterm) as [Hask Htool].
  unfold Orchestrator.move, do_resume. rewrite Hpc, Hab.
  unfold Orchestrator.handleEvent. rewrite Hask, Htool.
  exits. rewrite Hterm. trace_simpl. rewrite Htid, <- app_assoc.
  repeat split; reflexivity.
Qed.

End WithHost.

(** The ask of the scenario, answered with "yes". *)
Lemma reply_reaches_the_backend_witness :
  let inp := Sample.task [Sample.ask_event; Sample.notice_event] None in
  let c := Sample.startTask inp [resume None; resume None; resume None] in
  let c2 := run (H := Sample.platform []) (Sample.host Sample.command_failed)
              Sample.untyped (js "/w") inp [submitHumanReply (js "yes"); resume None] c in
  pc c2 = AwaitNext [Sample.notice_event]
  /\ human_reply_calls (trace (world c2))
     = [HumanReplyCall (js "p1") (JStr (js "a1")) (js "yes")].
Proof.
  cbv zeta.
  destruct (reply_reaches_the_backend (H := Sample.platform [])
              (Sample.host Sample.command_failed) Sample.untyped (js "/w")
              (Sample.task [Sample.ask_event; Sample.notice_event] None) Sample.params
              [resume None; resume None; resume None] Sample.store
              (JStr (js "a1")) (js "yes") None eq_refl eq_refl)
    as (ev & rest & Hpc & _ & _ & _ & _ & _ & _ & Hsent).
  assert (Hyes : js "yes" <> []) by discriminate.
  assert (Hp1 : project_id Sample.params <> []) by discriminate.
  specialize (Hsent Hyes Hp1). cbv zeta in Hsent.
  cbn [Orchestrator.run]. unfold Sample.startTask. rewrite Hsent.
  vm_compute in Hpc. injection Hpc as _ <-.
  split; [reflexivity|]. vm_compute. reflexivity.
Defined.

(** The delegated read of the scenario, in a running session. *)
Lemma delegated_event_executed_witness :
  let w := world (Sample.startTask (Sample.task [Sample.read_event] None)
                    [resume None; resume None]) in
  exists ran,
    handleEvent (H := Sample.platform []) (Sample.host Sample.command_failed)
      Sample.untyped (js "/w") Sample.read_event None w = Done ran
    /\ tool_effects (trace ran)
       = [ToolRun execute_read_file (data Sample.read_event);
          ToolResultCall (js "p1") (JStr (js "r2")) execute_read_file
            {| success := true; content := Some (js "ab"); error := None |}]
    /\ fs ran = Sample.store.
Proof.
  cbv zeta. eexists. split.
  - exact (proj1 (delegated_event_executed (H := Sample.platform [])
             (Sample.host Sample.command_failed) Sample.untyped (js "/w")
             Sample.read_event [] None
             (world (Sample.startTask (Sample.task [Sample.read_event] None)
                       [resume None; resume None]))
             execute_read_file (JStr (js "r2")) Sample.sse_client
             eq_refl eq_refl eq_refl eq_refl ltac:(discriminate))).
  - split; vm_compute; reflexivity.
Defined.

(** The scenario of the specification, at its return. *)
Lemma tool_results_are_paired_witness :
  tool_pairs (js "p1")
    (tool_effects
       (trace (world (Sample.startTask
                        (Sample.task [Sample.ask_event; Sample.read_event;
                                      Sample.end_event] None)
                        [resume None; resume None; resume None;
                         submitHumanReply (js "go ahead");
                         resume None; resume None; resume None])))).
Proof.
  exact (tool_results_are_paired (H := Sample.platform [])
           (Sample.host Sample.command_failed) Sample.untyped (js "/w")
           (Sample.task [Sample.ask_event; Sample.read_event; Sample.end_event] None)
           Sample.params
           [resume None; resume None; resume None; submitHumanReply (js "go ahead");
            resume None; resume None; resume None] Sample.store eq_refl).
Defined.

(** A task whose key lookup is rejected: [startTask] has ended, and
    [isRunning] is true. *)
Lemma isRunning_during_a_task_witness :
  let inp := {| in_params := Return Sample.params; in_backendUrl := None;
                in_apiKey := Throw (Error (js "secret storage unavailable"));
                in_events := []; in_failure := None |} in
  let c := Sample.startTask inp [resume None; resume None] in
  pc c = Rejected (Error (js "secret storage unavailable"))
  /\ isRunning (session (world c)) = true.
Proof.
  cbv zeta. split; [vm_compute; reflexivity|]. unfold Sample.startTask.
  rewrite (proj1 (isRunning_during_a_task (H := Sample.platform [])
                    (Sample.host Sample.command_failed) Sample.untyped (js "/w")
                    {| in_params := Return Sample.params; in_backendUrl := None;
                       in_apiKey := Throw (Error (js "secret storage unavailable"));
                       in_events := []; in_failure := None |}
                    Sample.params [resume None; resume None] Sample.store
                    eq_refl ltac:(discriminate))).
  vm_compute. reflexivity.
Defined.

(** A stream whose first event is an error of the backend. *)
Lemma terminal_event_completes_the_task_witness :
  let failed := {| step := JStr (js "error"); data := JObj [] |} in
  let inp := Sample.task [failed; Sample.notice_event] None in
  let c := Sample.startTask inp [resume None; resume None; resume None] in
  pc c = Returned
  /\ trace (world c) = [Emit taskStarted; Forward failed; Emit (taskCompleted (js "t1"))]
  /\ projectId (session (world c)) = [] /\ taskId (session (world c)) = [].
Proof.
  cbv zeta.
  destruct (terminal_event_completes_the_task (H := Sample.platform [])
              (Sample.host Sample.command_failed) Sample.untyped (js "/w")
              (Sample.task [{| step := JStr (js "error"); data := JObj [] |};
                            Sample.notice_event] None)
              Sample.params [resume None; resume None] Sample.store
              {| step := JStr (js "error"); data := JObj [] |} [Sample.notice_event] None
              eq_refl eq_refl eq_refl eq_refl)
    as (Hpc & Htrace & Hpid & Htid & _).
  split; [exact Hpc|]. split; [exact Htrace|]. split; [exact Hpid|exact Htid].
Defined.

End OrchestratorMore.
(* ===================================================================== *)
(** ** Chat-parameter builder, request headers and backend configuration *)
(* ===================================================================== *)

Module ChatParamsBuilderMore.
Import SSEClient ChatParamsBuilder.

Lemma configured_Some x k : configured x = Some k -> x = Some k /\ k <> [].
Proof.
  unfold configured. destruct x as [s|]; [|discriminate].
  destruct s; simpl; [discriminate|]. intros [= <-]. split; [reflexivity|discriminate].
Qed.

Lemma for_provider_Some config name x k :
  for_provider config name x = Some k ->
  apiProvider config = Some (js name) /\ configured x = Some k.
Proof.
  unfold for_provider, provider_is. case_bool_decide; [auto|discriminate].
Qed.

Lemma for_provider_is config name x :
  apiProvider config = Some (js name) -> for_provider config name x = configured x.
Proof.
  intros Hp. unfold for_provider, provider_is.
  rewrite bool_decide_eq_true_2 by assumption. reflexivity.
Qed.

Lemma for_provider_other config name other x :
  apiProvider config = Some (js other) -> js other <> js name ->
  for_provider config name x = None.
Proof.
  intros Hp Hne. unfold for_provider, provider_is.
  rewrite bool_decide_eq_false_2 by congruence. reflexivity.
Qed.

(** X18 (the key that is sent).  [getApiKey] never returns the empty
    string: it returns one of the three configured keys, or the
    placeholder, and the placeholder only when none of the three is set to
    a non-empty string.  The key of the selected provider, when set, is the
    one returned.  Otherwise the first of the OpenAI key, the OpenRouter
    key and the Anthropic key that is set is returned, in this order,
    whatever the provider: the seven cases below fix the result for every
    configuration. *)
Theorem getApiKey_selection (config : ApiConfiguration) :
  getApiKey config <> []
  /\ (getApiKey config = js "not-provided"
      \/ In (Some (getApiKey config))
            [openRouterApiKey config; openAiApiKey config; apiKey config])
  /\ (configured (openRouterApiKey config) = None ->
      configured (openAiApiKey config) = None ->
      configured (apiKey config) = None ->
      getApiKey config = js "not-provided")
  /\ (forall k, apiProvider config = Some (js "openrouter") ->
                configured (openRouterApiKey config) = Some k -> getApiKey config = k)
  /\ (forall k, apiProvider config = Some (js "openai") ->
                configured (openAiApiKey config) = Some k -> getApiKey config = k)
  /\ (forall k, apiProvider config = Some (js "anthropic") ->
                configured (apiKey config) = Some k -> getApiKey config = k)
  /\ (forall k, configured (openAiApiKey config) = Some k ->
                for_provider config "openrouter" (openRouterApiKey config) = None ->
                for_provider config "anthropic" (apiKey config) = None ->
                getApiKey config = k)
  /\ (forall k, configured (openRouterApiKey config) = Some k ->
                configured (openAiApiKey config) = None ->
                for_provider config "anthropic" (apiKey config) = None ->
                getApiKey config = k)
  /\ (forall k, configured (apiKey config) = Some k ->
                configured (openAiApiKey config) = None ->
                configured (openRouterApiKey config) = None ->
                getApiKey config = k).
Proof.
  assert (Hra : js "openrouter" <> js "openai") by (vm_compute; discriminate).
  assert (Hrn : js "openrouter" <> js "anthropic") by (vm_compute; discriminate).
  assert (Han : js "openai" <> js "anthropic") by (vm_compute; discriminate).
  repeat apply conj.
  - unfold getApiKey.
    destruct (first_set _) as [k|] eqn:Hf; cbn [nullish]; [|vm_compute; discriminate].
    cbn [first_set] in Hf.
    repeat match type of Hf with
           | match ?x with _ => _ end = _ =>
               let Hx := fresh "Hx" in destruct x eqn:Hx
           end;
      try discriminate; injection Hf as ->;
      try apply for_provider_Some in Hx as [_ Hx];
      try apply for_provider_Some in Hx0 as [_ Hx0];
      try apply for_provider_Some in Hx1 as [_ Hx1];
      match goal with
      | Hc : configured _ = Some k |- _ => apply configured_Some in Hc as [_ Hc]; exact Hc
      end.
  - unfold getApiKey.
    destruct (first_set _) as [k|] eqn:Hf; cbn [nullish]; [right|left; reflexivity].
    cbn [first_set] in Hf.
    repeat match type of Hf with
           | match ?x with _ => _ end = _ =>
               let Hx := fresh "Hx" in destruct x eqn:Hx
           end;
      try discriminate; injection Hf as ->;
      try apply for_provider_Some in Hx as [_ Hx];
      try apply for_provider_Some in Hx0 as [_ Hx0];
      try apply for_provider_Some in Hx1 as [_ Hx1];
      match goal with
      | Hc : configured _ = Some k |- _ =>
          apply configured_Some in Hc as [Hc _]; rewrite Hc; cbn; auto
      end.
  - intros H1 H2 H3. unfold getApiKey, for_provider. rewrite H1, H2, H3.
    destruct (provider_is config "openrouter"), (provider_is config "openai"),
      (provider_is config "anthropic"); reflexivity.
  - intros k Hp Hk. unfold getApiKey.
    rewrite (for_provider_is _ _ _ Hp), Hk. reflexivity.
  - intros k Hp Hk. unfold getApiKey.
    rewrite (for_provider_other config "openrouter" "openai") by (assumption || congruence).
    rewrite (for_provider_is _ _ _ Hp), Hk. reflexivity.
  - intros k Hp Hk. unfold getApiKey.
    rewrite (for_provider_other config "openrouter" "anthropic")
      by (assumption || congruence).
    rewrite (for_provider_other config "openai" "anthropic")
      by (assumption || congruence).
    rewrite (for_provider_is _ _ _ Hp), Hk. reflexivity.
  - intros k Hk Hr Ha. unfold getApiKey. rewrite Hr, Ha, Hk. cbn [first_set].
    unfold for_provider. rewrite Hk. destruct (provider_is config "openai"); reflexivity.
  - intros k Hk Ho Ha. unfold getApiKey. rewrite Ha, Ho, Hk.
    unfold for_provider. rewrite Hk, Ho.
    destruct (provider_is config "openrouter"), (provider_is config "openai");
      reflexivity.
  - intros k Hk Ho Hr. unfold getApiKey. rewrite Ho, Hr, Hk.
    unfold for_provider. rewrite Hk, Ho, Hr.
    destruct (provider_is config "openrouter"), (provider_is config "openai"),
      (provider_is config "anthropic"); reflexivity.
Qed.

Section WithAmbient.
Variable model_id : ApiConfiguration -> jsstring.
Variable randomUUID : jsstring.
Variable getWorkspacePath : jsstring.

(** X19 (the built params in the body of the request).  In the body
    that [toChatBody] makes of the params that [buildEigentChatParams]
    returns, [api_key] is the key selected by [getApiKey]; [api_url] is
    present only when the provider is OpenRouter or OpenAI and the base URL
    of that provider is set to a non-empty string, and is that URL;
    [env_path] is never present; [attaches] is the list of images, empty
    when none are given. *)
Theorem built_params_in_the_body (apiConfiguration : ApiConfiguration)
    (question : jsstring) (images : option (list jsstring))
    (workspacePath : option jsstring) :
  let p := buildEigentChatParams model_id randomUUID getWorkspacePath apiConfiguration
             question images workspacePath in
  body_at p "api_key" = Some (JStr (getApiKey apiConfiguration))
  /\ body_at p "api_url"
     = match getApiUrl apiConfiguration with
       | Value u => Some (JStr u)
       | _ => None
       end
  /\ (forall u, getApiUrl apiConfiguration = Value u ->
        u <> []
        /\ (apiProvider apiConfiguration = Some (js "openrouter")
            /\ openRouterBaseUrl apiConfiguration = Some u
            \/ apiProvider apiConfiguration = Some (js "openai")
               /\ openAiBaseUrl apiConfiguration = Some u))
  /\ body_at p "env_path" = None
  /\ body_at p "attaches" = Some (JArr (map JStr (nullish images []))).
Proof.
  cbv zeta. unfold body_at, toChatBody, buildEigentChatParams.
  cbn [api_url env_path not_nullish task_id project_id email attaches
       model_platform model_type api_key language browser_port max_retries
       allow_local_system installed_mcp nullish].
  repeat apply conj.
  - destruct (getApiUrl apiConfiguration); reflexivity.
  - destruct (getApiUrl apiConfiguration); reflexivity.
  - intros u. unfold getApiUrl. cbn [first_set].
    destruct (for_provider _ "openrouter" _) as [a|] eqn:Ha.
    + intros [= <-]. apply for_provider_Some in Ha as [Hp Hc].
      apply configured_Some in Hc as [Hc Hne]. auto.
    + destruct (for_provider _ "openai" _) as [b|] eqn:Hb; [|discriminate].
      intros [= <-]. apply for_provider_Some in Hb as [Hp Hc].
      apply configured_Some in Hc as [Hc Hne]. auto.
  - destruct (getApiUrl apiConfiguration); reflexivity.
  - destruct (getApiUrl apiConfiguration); reflexivity.
Qed.

End WithAmbient.

(** X20 (the authorization header).  The headers of every request carry
    the JSON content type, and each header name once; an [Authorization]
    header is present exactly when the client holds a non-empty key, and is
    then the bearer form of that key. *)
Theorem authorization_header (c : EigentSSEClient) :
  In (js "Content-Type", js "application/json") (headers c)
  /\ NoDup (map fst (headers c))
  /\ forall v, In (js "Authorization", v) (headers c)
               <-> exists k, SSEClient.apiKey c = Some k /\ k <> []
                             /\ v = js "Bearer " ++ k.
Proof.
  unfold headers. destruct (SSEClient.apiKey c) as [[|x k]|]; cbn [nonempty app].
  - split; [left; reflexivity|]. split; [apply (bool_decide_unpack _); vm_compute; reflexivity|].
    intros v. split.
    + intros [[=]|[]].
    + intros (k & [= <-] & Hk & _). congruence.
  - split; [left; reflexivity|]. split.
    + apply (bool_decide_unpack _); vm_compute; reflexivity.
    + intros v. split.
      * intros [[=]|[[= <-]|[]]].
        eexists. split; [reflexivity|]. split; [discriminate|reflexivity].
      * intros (k' & [= <-] & _ & ->). right. left. reflexivity.
  - split; [left; reflexivity|]. split; [apply (bool_decide_unpack _); vm_compute; reflexivity|].
    intros v. split.
    + intros [[=]|[]].
    + intros (k & [=] & _).
Qed.

End ChatParamsBuilderMore.

Module AscendeBackendMore.
Import SSEClient AscendeBackend.

(** X21 (the stored key).  The key that [setAscendeApiKey] stores is the
    one [getAscendeApiKey] returns, the last one stored when there are
    several; after [clearAscendeApiKey] there is none.  Storing and
    clearing touch no other secret and no setting. *)
Theorem api_key_secret_round_trip (ctx : Context) (k k' : jsstring) :
  getAscendeApiKey (setAscendeApiKey ctx k) = Some k
  /\ getAscendeApiKey (setAscendeApiKey (setAscendeApiKey ctx k) k') = Some k'
  /\ getAscendeApiKey (clearAscendeApiKey ctx) = None
  /\ getAscendeApiKey (clearAscendeApiKey (setAscendeApiKey ctx k)) = None
  /\ (forall other, other <> ASCENDE_API_KEY_SECRET_KEY ->
        secrets (setAscendeApiKey ctx k) !! other = secrets ctx !! other
        /\ secrets (clearAscendeApiKey ctx) !! other = secrets ctx !! other)
  /\ settings (setAscendeApiKey ctx k) = settings ctx
  /\ settings (clearAscendeApiKey ctx) = settings ctx.
Proof.
  unfold getAscendeApiKey, setAscendeApiKey, clearAscendeApiKey. cbn [secrets settings].
  repeat apply conj; try reflexivity.
  - apply lookup_insert_eq.
  - apply lookup_insert_eq.
  - apply lookup_delete_eq.
  - apply lookup_delete_eq.
  - intros other Hne. split.
    + apply lookup_insert_ne. congruence.
    + apply lookup_delete_ne. congruence.
Qed.

(** X22 (settings and their defaults).  [getAscendeBackendUrl] and
    [getAscendeUseEigentEngine] never return null: a setting that is absent
    or null gives the default, the local URL and [false]; any other value
    is returned as it is.  A client built on the default URL keeps it
    unchanged and posts a chat to [/chat] under it. *)
Theorem backend_settings_fallback (ctx : Context) (key : option jsstring)
    (params : ChatParams) :
  let c := constructor {| opt_baseUrl := DEFAULT_ASCENDE_BACKEND_URL;
                          opt_apiKey := key |} in
  getAscendeBackendUrl ctx <> JNull
  /\ getAscendeUseEigentEngine ctx <> JNull
  /\ (settings ctx !! ASCENDE_BACKEND_URL_KEY = None
      \/ settings ctx !! ASCENDE_BACKEND_URL_KEY = Some JNull ->
      getAscendeBackendUrl ctx = JStr DEFAULT_ASCENDE_BACKEND_URL)
  /\ (settings ctx !! ASCENDE_USE_EIGENT_ENGINE_KEY = None
      \/ settings ctx !! ASCENDE_USE_EIGENT_ENGINE_KEY = Some JNull ->
      getAscendeUseEigentEngine ctx = JBool false)
  /\ (forall v, settings ctx !! ASCENDE_BACKEND_URL_KEY = Some v -> v <> JNull ->
                getAscendeBackendUrl ctx = v)
  /\ (forall v, settings ctx !! ASCENDE_USE_EIGENT_ENGINE_KEY = Some v -> v <> JNull ->
                getAscendeUseEigentEngine ctx = v)
  /\ baseUrl c = DEFAULT_ASCENDE_BACKEND_URL
  /\ req_url (startChat_request c params) = js "http://localhost:8000/chat".
Proof.
  cbv zeta. unfold getAscendeBackendUrl, getAscendeUseEigentEngine. repeat apply conj.
  - destruct (settings ctx !! ASCENDE_BACKEND_URL_KEY) as [[]|]; discriminate.
  - destruct (settings ctx !! ASCENDE_USE_EIGENT_ENGINE_KEY) as [[]|]; discriminate.
  - intros [-> | ->]; reflexivity.
  - intros [-> | ->]; reflexivity.
  - intros v -> Hv. destruct v; congruence.
  - intros v -> Hv. destruct v; congruence.
  - reflexivity.
  - reflexivity.
Qed.

End AscendeBackendMore.
(* ===================================================================== *)
(** ** Orchestrator: aborts between the awaits *)
(* ===================================================================== *)

Module InterleavedFacts.
Import SSEClient ToolExecutor Orchestrator OrchestratorFacts TaskShape Interleaved.
Import OrchestratorMore.

Lemma tool_runs_snoc t e :
  tool_runs (t ++ [e]) = tool_runs t ++ (if is_tool_run e then [e] else []).
Proof. unfold tool_runs. rewrite List.filter_app. reflexivity. Qed.

Lemma result_calls_snoc t e :
  result_calls (t ++ [e]) = result_calls t ++ (if is_result_call e then [e] else []).
Proof. unfold result_calls. rewrite List.filter_app. reflexivity. Qed.

Ltac state_simpl :=
  cbn [suspended stopping now suspend] in *; trace_simpl;
  rewrite ?tool_runs_snoc, ?result_calls_snoc in *;
  cbn [is_tool_run is_result_call] in *;
  rewrite ?app_nil_r in *.

Ltac leave := unfold called, handled, completed, caught, finally in *.

Lemma answered_holds_ids reply a : holds_ids (answered reply a) = holds_ids a.
Proof. destruct a as [| | |? ? ? []| | | | | |]; reflexivity. Qed.

Lemma answered_in_try reply a : in_try (answered reply a) = in_try a.
Proof. destruct a as [| | |? ? ? []| | | | | |]; reflexivity. Qed.

Lemma answered_not_waiting reply a ev agent rest :
  answered reply a <> AtReply ev agent rest None.
Proof. destruct a as [| | |? ? ? []| | | | | |]; discriminate. Qed.

Lemma in_try_holds_ids a : in_try a = true -> holds_ids a = true.
Proof. destruct a; simpl; congruence. Qed.

Section WithHost.
Context `{Platform} (host : Host).
Variable untyped : ToolName -> JsVal -> FsState -> ToolResult * FsState.
Variable workspacePath : jsstring.

Local Abbreviation run_tool := (run_tool host untyped workspacePath).
Local Abbreviation do_settle := (do_settle host untyped workspacePath).
Local Abbreviation turn := (turn host untyped workspacePath).
Local Abbreviation turns := (turns host untyped workspacePath).
Local Abbreviation start := (start host untyped workspacePath).
Local Abbreviation winding_down := (winding_down host untyped workspacePath).
Local Abbreviation landed := (landed host untyped workspacePath).

Lemma resolve_eq reply s :
  resolve reply s
  = match pendingHumanReply (session (now s)) with
    | Some _ =>
        suspend (answered reply (suspended s)) s
          (with_session (set_pending None (session (now s)))
             (log (ReplyResolved reply) (now s)))
    | None => s
    end.
Proof.
  unfold resolve, answered.
  destruct (pendingHumanReply (session (now s))); [|reflexivity].
  destruct (suspended s) as [| | |? ? ? []| | | | | |]; reflexivity.
Qed.

Lemma turns_invariant inp (P : State -> Prop) :
  (forall m s, P s -> P (turn inp m s)) ->
  forall ms s, P s -> P (turns inp ms s).
Proof.
  intros Hstep. induction ms as [|m ms IH]; intros s Hs; simpl; [assumption|].
  apply IH, Hstep, Hs.
Qed.

Lemma turns_app inp ms1 ms2 s :
  turns inp (ms1 ++ ms2) s = turns inp ms2 (turns inp ms1 s).
Proof. revert s. induction ms1 as [|m ms1 IH]; intros s; simpl; [reflexivity|apply IH]. Qed.

(** *** The states of a task *)

Lemma settled_in_quiet inp params a n w :
  (if holds_ids a
   then projectId (session w) = project_id params /\ taskId (session w) = task_id params
   else projectId (session w) = [] /\ taskId (session w) = []) ->
  (in_try a = true -> client (session w) <> None) ->
  pendingHumanReply (session w) = None ->
  (forall ev agent rest, a <> AtReply ev agent rest None) ->
  settled_in inp params {| suspended := a; stopping := n; now := w |}.
Proof.
  intros Hids Hcl Hp Ha. unfold settled_in. cbn [suspended now].
  rewrite Hp. auto.
Qed.

Lemma settled_in_same inp params s s' :
  suspended s' = suspended s -> session (now s') = session (now s) ->
  settled_in inp params s -> settled_in inp params s'.
Proof. unfold settled_in. intros -> ->. auto. Qed.

Lemma not_waiting inp params s :
  settled_in inp params s ->
  (forall ev agent rest, suspended s <> AtReply ev agent rest None) ->
  pendingHumanReply (session (now s)) = None.
Proof.
  intros (_ & _ & Hl) Hne.
  destruct (pendingHumanReply (session (now s))); [|reflexivity].
  destruct Hl as (ev & rest & Hs). exfalso. eapply Hne, Hs.
Qed.

Lemma resolve_settled_in inp params reply s :
  settled_in inp params s -> settled_in inp params (resolve reply s).
Proof.
  intros Hs. rewrite resolve_eq.
  destruct (pendingHumanReply (session (now s))) eqn:Hp; [|exact Hs].
  destruct Hs as (Hids & Hcl & _). unfold suspend.
  apply settled_in_quiet; state_simpl.
  - rewrite answered_holds_ids. exact Hids.
  - rewrite answered_in_try. exact Hcl.
  - reflexivity.
  - intros ev agent rest. apply answered_not_waiting.
Qed.

Lemma handled_settled_in inp params ev rest s w :
  projectId (session w) = project_id params /\ taskId (session w) = task_id params ->
  client (session w) <> None ->
  pendingHumanReply (session w) = None ->
  settled_in inp params (handled ev rest s w).
Proof.
  intros Hids Hcl Hp. unfold handled, suspend.
  destruct (is_terminal ev); apply settled_in_quiet; cbn [holds_ids in_try];
    auto; try (intros; discriminate).
Qed.

Lemma called_settled_in inp params call ev rest s w :
  projectId (session w) = project_id params /\ taskId (session w) = task_id params ->
  client (session w) <> None ->
  pendingHumanReply (session w) = None ->
  settled_in inp params (called call ev rest s w).
Proof.
  intros Hids Hcl Hp. unfold called. destruct call as [e|].
  - unfold suspend. apply settled_in_quiet; cbn [holds_ids in_try]; auto;
      try (intros; discriminate).
  - apply handled_settled_in; assumption.
Qed.

Lemma ended_settled_in inp params n w :
  pendingHumanReply (session w) = None ->
  (forall e, settled_in inp params {| suspended := AtEnd; stopping := n;
                                      now := caught e w |})
  /\ settled_in inp params {| suspended := AtEnd; stopping := n; now := completed w |}.
Proof.
  intros Hp. split; [intros e|]; leave; apply settled_in_quiet; cbn [holds_ids in_try];
    try destruct (aborted (session w)); state_simpl;
    auto; try (intros; discriminate).
Qed.

Lemma turn_settled_in inp params m s :
  in_params inp = Return params ->
  settled_in inp params s -> settled_in inp params (turn inp m s).
Proof.
  intros Hin Hs. destruct m as [|reply|call|].
  - (* abortTask *)
    assert (Hs1 : settled_in inp params
                    (resolve []
                       (suspend (suspended s) s
                          (with_session (set_aborted true (session (now s))) (now s))))).
    { apply resolve_settled_in. destruct s as [a n w]. exact Hs. }
    unfold Interleaved.turn, do_abortTask.
    destruct (resolve [] _) as [a n w]. cbn [suspended stopping now suspend] in *.
    destruct (client (session w)); [destruct (nonempty (projectId (session w)))|];
      (eapply settled_in_same; [| |exact Hs1]; reflexivity).
  - apply resolve_settled_in, Hs.
  - (* settle *)
    pose proof Hs as (Hids & Hcl & Hl).
    pose proof (not_waiting inp params s Hs) as Hnone.
    unfold Interleaved.turn, Interleaved.do_settle. destruct s as [a n w].
    cbn [suspended stopping now] in *.
    destruct a as [|params0|[|ev rest]|ev agent rest [reply|]|ev rest|ev rest t rid
                   |ev rest|[e|]| |e]; cbn [holds_ids in_try] in *;
      try exact Hs; try specialize (Hnone ltac:(intros; discriminate));
      try specialize (Hcl eq_refl).
    + rewrite Hin. unfold suspend. apply settled_in_quiet; cbn [holds_ids in_try];
        state_simpl; auto; try (intros; discriminate).
    + destruct (in_apiKey inp); unfold suspend; apply settled_in_quiet;
        cbn [holds_ids in_try]; state_simpl; auto; try (intros; discriminate).
    + destruct (ended_settled_in inp params n w Hnone) as [Hc Hd].
      destruct (in_failure inp); unfold suspend; cbn [stopping]; auto.
    + destruct (aborted (session w)).
      { unfold suspend. apply settled_in_quiet; cbn [holds_ids in_try]; auto;
          try (intros; discriminate). }
      unfold begin_event. cbn [now].
      destruct (is_str (step ev) (js "ask")).
      * unfold suspend, settled_in. state_simpl. cbn [holds_ids in_try].
        split; [exact Hids|]. split; [auto|]. eauto.
      * destruct (tool_of_step (step ev)) as [t|];
          [|apply handled_settled_in; state_simpl; auto].
        unfold begin_tool. state_simpl.
        destruct (get (data ev) (js "request_id")) as [rid|];
          [|apply handled_settled_in; state_simpl; auto].
        destruct (client (session w)) eqn:Hk; [|congruence].
        destruct (truthy rid && nonempty (projectId (session w)));
          [|apply handled_settled_in; state_simpl; rewrite ?Hk; auto].
        unfold suspend. apply settled_in_quiet; cbn [holds_ids in_try]; state_simpl;
          rewrite ?Hk; auto; try (intros; discriminate).
    + destruct (client (session w)) eqn:Hk; [|congruence].
      destruct (nonempty reply && nonempty (projectId (session w)));
        [|apply handled_settled_in; rewrite ?Hk; auto].
      unfold suspend. apply settled_in_quiet; cbn [holds_ids in_try]; state_simpl;
        rewrite ?Hk; auto; try (intros; discriminate).
    + apply called_settled_in; auto.
    + destruct (run_tool t (data ev) (fs w)) as [result st].
      unfold suspend. apply settled_in_quiet; cbn [holds_ids in_try]; state_simpl; auto;
        try (intros; discriminate).
    + apply called_settled_in; auto.
    + destruct (ended_settled_in inp params n w Hnone) as [Hc Hd]. apply Hc.
    + destruct (ended_settled_in inp params n w Hnone) as [Hc Hd]. apply Hd.
  - (* the stop call settles *)
    unfold Interleaved.turn, do_stop_settled.
    destruct (stopping s); [exact Hs|].
    eapply settled_in_same; [| |exact Hs]; reflexivity.
Qed.

Lemma start_settled_in inp params ms st :
  in_params inp = Return params -> settled_in inp params (start inp ms st).
Proof.
  intros Hin. unfold Interleaved.start.
  apply turns_invariant; [intros; apply turn_settled_in; assumption|].
  apply settled_in_quiet; cbn; auto; try (intros; discriminate).
Qed.

(** *** After an abort *)

Lemma resolve_provider_move reply s : provider_move s (resolve reply s).
Proof.
  unfold Interleaved.provider_move. rewrite resolve_eq.
  destruct (pendingHumanReply (session (now s))); state_simpl; repeat split; eauto.
Qed.

Lemma abort_provider_move s :
  provider_move s (do_abortTask s) /\ aborted (session (now (do_abortTask s))) = true.
Proof.
  unfold Interleaved.provider_move, do_abortTask. rewrite resolve_eq.
  cbn [suspended stopping now suspend]. state_simpl.
  destruct (pendingHumanReply (session (now s))); state_simpl;
    (destruct (client (session (now s)));
     [destruct (nonempty (projectId (session (now s))))|]); state_simpl;
    repeat split; eauto.
Qed.

Lemma stop_settled_provider_move s : provider_move s (do_stop_settled s).
Proof.
  unfold Interleaved.provider_move, do_stop_settled.
  destruct (stopping s); state_simpl; repeat split; eauto.
Qed.

Lemma winding_down_provider_move s0 s s' :
  winding_down s0 s -> provider_move s s' ->
  aborted (session (now s')) = true -> winding_down s0 s'.
Proof.
  intros (_ & Hf & Hr & He & Hfl) (Hsus & Hp & Hfs & Hf' & Hr' & He' & Hc') Hab.
  unfold Interleaved.winding_down. rewrite Hf', Hr', He', Hfs, Hc', Hp.
  repeat (split; [assumption|]).
  destruct Hsus as [->|[reply ->]]; [exact Hfl|].
  destruct (suspended s) as [| | |? ? ? []| | | | | |]; exact Hfl.
Qed.

Lemma abort_winding_down s : winding_down s (do_abortTask s).
Proof.
  destruct (abort_provider_move s)
    as [(Hsus & Hp & Hfs & Hf & Hr & He & Hc) Hab].
  unfold Interleaved.winding_down. repeat (split; [assumption|]).
  destruct Hsus as [->|[reply ->]];
    destruct (suspended s) as [| | |? ? ? []| | | | | |]; cbn [answered]; auto.
Qed.

Lemma turn_winding_down inp s0 m s :
  winding_down s0 s -> winding_down s0 (turn inp m s).
Proof.
  intros Hw. pose proof Hw as (Hab & Hf & Hr & He & Hfl).
  destruct m as [|reply|call|].
  - destruct (abort_provider_move s) as [Hm Hab'].
    exact (winding_down_provider_move _ _ _ Hw Hm Hab').
  - pose proof (resolve_provider_move reply s) as Hm.
    apply (winding_down_provider_move _ _ _ Hw Hm).
    cbn [Interleaved.turn]. rewrite resolve_eq.
    destruct (pendingHumanReply (session (now s))); state_simpl; exact Hab.
  - (* settle *)
    unfold Interleaved.winding_down, Interleaved.turn, Interleaved.do_settle.
    destruct s as [a n w]. cbn [suspended stopping now] in *.
    destruct a as [|params0|[|ev rest]|ev agent rest [reply|]|ev rest|ev rest t rid
                   |ev rest|[e|]| |e];
      try (repeat split; assumption).
    + destruct (in_params inp); state_simpl; repeat (split; [assumption|]); exact Hfl.
    + destruct (in_apiKey inp); state_simpl; repeat (split; [assumption|]); exact Hfl.
    + destruct (in_failure inp); leave; rewrite ?Hab; state_simpl;
        repeat (split; [assumption|]); exact Hfl.
    + rewrite Hab. state_simpl. repeat (split; [assumption|]). exact Hfl.
    + destruct (client (session w));
        [destruct (nonempty reply && nonempty (projectId (session w)))|];
        leave; try destruct (is_terminal ev); state_simpl;
        repeat (split; [assumption|]); exact Hfl.
    + destruct call; leave; try destruct (is_terminal ev); state_simpl;
        repeat (split; [assumption|]); exact Hfl.
    + destruct Hfl as (Hs0 & Hp & Hfs & Hc).
      destruct (run_tool t (data ev) (fs w)) as [result st] eqn:Hrun.
      state_simpl. repeat (split; [assumption|]).
      right. exists ev, rest, t, rid. split; [exact Hs0|].
      unfold Interleaved.landed. rewrite <- Hfs, Hrun, <- Hp, <- Hc. reflexivity.
    + destruct call; leave; try destruct (is_terminal ev); state_simpl;
        repeat (split; [assumption|]); exact Hfl.
    + leave. rewrite Hab. state_simpl. repeat (split; [assumption|]). exact Hfl.
    + leave. state_simpl. repeat (split; [assumption|]). exact Hfl.
  - pose proof (stop_settled_provider_move s) as Hm.
    apply (winding_down_provider_move _ _ _ Hw Hm).
    cbn [Interleaved.turn]. unfold do_stop_settled.
    destruct (stopping s); state_simpl; exact Hab.
Qed.

(** X12 (after an abort).  From any state of an invocation of
    [startTask], with every await of [startTask] and of [abortTask] as a
    place where the provider can come in between: once [abortTask] has been
    called the session stays aborted and [isRunning] false whatever happens
    next in this invocation, no further event is forwarded, no tool is
    started and no error event is posted.  A tool that was in flight when
    [abortTask] was called is not stopped: it is still in flight, or it has
    run to its end and its result has been posted by one tool-result call,
    after the abort; otherwise the store is not touched and no tool-result
    call is made. *)
Theorem nothing_starts_after_abort (inp : TaskInput) (s : State) (ms : list Turn) :
  let s' := turns inp ms (turn inp call_abortTask s) in
  let w := now s in
  let w' := now s' in
  aborted (session w') = true
  /\ isRunning (session w') = false
  /\ forwarded (trace w') = forwarded (trace w)
  /\ tool_runs (trace w') = tool_runs (trace w)
  /\ posted_errors (trace w') = posted_errors (trace w)
  /\ match suspended s with
     | AtTool ev rest t rid =>
         let ran := run_tool t (data ev) (fs w) in
         (fs w' = fs w /\ result_calls (trace w') = result_calls (trace w))
         \/ (fs w' = snd ran
             /\ result_calls (trace w')
                = result_calls (trace w)
                  ++ [ToolResultCall (projectId (session w)) rid t (fst ran)])
     | _ => fs w' = fs w /\ result_calls (trace w') = result_calls (trace w)
     end.
Proof.
  cbv zeta.
  assert (Hw : winding_down s (turns inp ms (turn inp call_abortTask s))).
  { apply turns_invariant; [intros; apply turn_winding_down; assumption|].
    apply abort_winding_down. }
  destruct Hw as (Hab & Hf & Hr & He & Hfl).
  split; [exact Hab|]. split; [unfold isRunning; rewrite Hab; apply andb_false_r|].
  split; [exact Hf|]. split; [exact Hr|]. split; [exact He|].
  destruct (suspended (turns inp ms (turn inp call_abortTask s)))
    as [| | | | | ev rest t rid| | | |];
    try (destruct Hfl as [Hsame|(ev0 & rest0 & t0 & rid0 & -> & Hland)];
         [destruct (suspended s); auto
         |unfold Interleaved.landed in Hland; injection Hland as Hfs Hc; auto]).
  destruct Hfl as (-> & _ & Hfs & Hc). auto.
Qed.

(** X17 (the stop call of an abort).  In a task with a non-empty
    project identifier, while [startTask] is inside its [try] block,
    [abortTask] resolves a pending wait with the empty string and makes one
    stop call for the project identifier of the params; it is then
    suspended in that call, and [taskAborted] is not emitted yet.  Whenever
    the stop call settles, with whatever [startTask] has done meanwhile,
    [taskAborted] is emitted.  After [startTask] has returned, [abortTask]
    makes no stop call and emits [taskAborted] at once. *)
Theorem abortTask_stop_call (inp : TaskInput) (params : ChatParams)
    (ms : list Turn) (st : FsState) :
  let s := start inp ms st in
  let s' := turn inp call_abortTask s in
  in_params inp = Return params ->
  (in_try (suspended s) = true -> project_id params <> [] ->
   suspended s' = answered [] (suspended s)
   /\ stopping s' = S (stopping s)
   /\ trace (now s')
      = trace (now s)
        ++ match pendingHumanReply (session (now s)) with
           | Some _ => [ReplyResolved []]
           | None => []
           end
        ++ [StopChatCall (project_id params)])
  /\ (forall ms' n,
        let s2 := turns inp ms' s' in
        stopping s2 = S n ->
        stopping (turn inp stop_settled s2) = n
        /\ suspended (turn inp stop_settled s2) = suspended s2
        /\ trace (now (turn inp stop_settled s2)) = trace (now s2) ++ [Emit taskAborted])
  /\ (suspended s = AtEnd ->
      s' = {| suspended := AtEnd; stopping := stopping s;
              now := log (Emit taskAborted)
                       (with_session (set_aborted true (session (now s))) (now s)) |}).
Proof.
  cbv zeta. intros Hin.
  pose proof (start_settled_in inp params ms st Hin) as (Hids & Hcl & Hl).
  set (s := start inp ms st) in *.
  split; [|split].
  - intros Htry Hp. rewrite (in_try_holds_ids _ Htry) in Hids.
    destruct Hids as [Hpid _]. specialize (Hcl Htry). apply nonempty_true in Hp.
    unfold Interleaved.turn, do_abortTask. rewrite resolve_eq.
    cbn [suspended stopping now suspend]. state_simpl.
    destruct (pendingHumanReply (session (now s))) eqn:Hpn; state_simpl;
      (destruct (client (session (now s))); [|congruence]); rewrite Hpid, Hp;
      state_simpl; rewrite <- ?app_assoc.
    + repeat split; reflexivity.
    + split; [|split; reflexivity].
      destruct (suspended s) as [| | |? ? ? []| | | | | |] eqn:Hs; try reflexivity.
      exfalso. eapply Hl. reflexivity.
  - intros ms' n. generalize (turns inp ms' (turn inp call_abortTask s)).
    intros s2 Hn. cbn [Interleaved.turn]. unfold do_stop_settled. rewrite Hn.
    state_simpl. repeat split; reflexivity.
  - intros Hend. rewrite Hend in Hids, Hl. cbn [holds_ids] in Hids.
    destruct Hids as [Hpid _].
    assert (Hpn : pendingHumanReply (session (now s)) = None).
    { destruct (pendingHumanReply (session (now s))); [|reflexivity].
      destruct Hl as (ev & rest & Hl). discriminate. }
    unfold Interleaved.turn, do_abortTask. rewrite resolve_eq.
    cbn [suspended stopping now suspend]. state_simpl. rewrite Hpn.
    cbn [suspended stopping now suspend]. state_simpl. rewrite Hpid, Hend.
    destruct (client (session (now s))); reflexivity.
Qed.

(** *** The moves of [Orchestrator] as turns *)

Lemma place_resolved reply p : place (resolved reply p) = answered reply (place p).
Proof. destruct p as [| | |? ? ? []| |]; reflexivity. Qed.

Lemma embed_resolve reply c : resolve reply (embed c) = embed (resolve_pending reply c).
Proof.
  rewrite resolve_eq, resolve_pending_eq. unfold embed. cbn [suspended stopping now].
  destruct (pendingHumanReply (session (world c))); [|reflexivity].
  unfold suspend. cbn [pc world stopping]. rewrite place_resolved. reflexivity.
Qed.

Ltac settle_all :=
  repeat (cbn [Interleaved.turns Interleaved.turn Interleaved.do_settle
               suspend suspended stopping now place embed pc world control_call];
          try unfold begin_event; try unfold begin_tool; try unfold called;
          try unfold handled; try unfold loop_body;
          trace_simpl;
          repeat match goal with
                 | Hq : ?x = _ |- context [?x] => rewrite Hq
                 end).

(** Every move of [Orchestrator] is a run of turns: the moves are the
    interleavings in which a tool, a control call, the closing of the
    stream and a stop call settle before anything else happens. *)
Lemma move_is_turns inp m c :
  exists ms, turns inp ms (embed c) = embed (Orchestrator.move host untyped workspacePath
                                               inp m c).
Proof.
  destruct m as [|reply|call].
  - exists [call_abortTask; stop_settled].
    cbn [Interleaved.turns Interleaved.turn]. unfold do_abortTask, Orchestrator.move,
      Orchestrator.do_abortTask.
    change (suspend (suspended (embed c)) (embed c)
              (with_session (set_aborted true (session (now (embed c)))) (now (embed c))))
      with (embed {| pc := pc c;
                     world := with_session (set_aborted true (session (world c)))
                                (world c) |}).
    rewrite embed_resolve.
    destruct (resolve_pending [] _) as [p w]. unfold embed, stop_call, do_stop_settled.
    cbn [pc world suspended stopping now suspend].
    destruct (client (session w)); [destruct (nonempty (projectId (session w)))|];
      reflexivity.
  - exists [call_submitHumanReply reply]. cbn [Interleaved.turns Interleaved.turn].
    apply embed_resolve.
  - destruct c as [p w]. unfold Orchestrator.move, do_resume. cbn [pc world].
    destruct p as [|params0|[|ev rest]|ev agent rest [reply|]| |e0].
    + exists [settle call]. settle_all. destruct (in_params inp); reflexivity.
    + exists [settle call]. settle_all. destruct (in_apiKey inp); reflexivity.
    + exists [settle call]. settle_all. destruct (in_failure inp); reflexivity.
    + destruct (aborted (session w)) eqn:Hab.
      { exists [settle call; settle call]. settle_all. reflexivity. }
      unfold Orchestrator.handleEvent, Orchestrator.executeAndPostResult.
      destruct (is_terminal ev) eqn:Hterm;
        destruct (is_str (step ev) (js "ask")) eqn:Hask;
        try (exists [settle call]; settle_all; reflexivity);
        (destruct (tool_of_step (step ev)) as [t|] eqn:Htool;
         [destruct (tool_not_terminal _ _ Htool); try congruence|]);
        try (exists [settle call; settle call]; settle_all; reflexivity);
        try (exists [settle call]; settle_all; reflexivity).
      trace_simpl.
      destruct (get (data ev) (js "request_id")) as [rid|] eqn:Hrid;
        [|exists [settle call]; settle_all; reflexivity].
      destruct (client (session w)) as [k|] eqn:Hk;
        [|exists [settle call]; settle_all; reflexivity].
      destruct (truthy rid && nonempty (projectId (session w))) eqn:Hguard;
        [|exists [settle call]; settle_all; reflexivity].
      destruct (run_tool t (data ev) (fs w)) as [result st] eqn:Hrun.
      destruct call as [e|].
      * exists [settle (Some e); settle (Some e); settle (Some e); settle (Some e)].
        settle_all. reflexivity.
      * exists [settle None; settle None; settle None]. settle_all. reflexivity.
    + unfold after_reply.
      destruct (is_terminal ev) eqn:Hterm;
        (destruct (client (session w)) as [k|] eqn:Hk;
         [destruct (nonempty reply && nonempty (projectId (session w))) eqn:Hguard|]);
        try destruct call as [e|];
        first [ exists [settle None]; settle_all; reflexivity
              | exists [settle call]; settle_all; reflexivity
              | exists [settle None; settle None]; settle_all; reflexivity
              | exists [settle call; settle call]; settle_all; reflexivity
              | exists [settle (Some e); settle (Some e)]; settle_all; reflexivity
              | exists [settle None; settle None; settle None]; settle_all; reflexivity
              | exists [settle (Some e); settle (Some e); settle (Some e)]; settle_all;
                reflexivity ].
    + exists []. reflexivity.
    + exists []. reflexivity.
    + exists []. reflexivity.
Qed.

Lemma run_is_turns inp ms : forall c,
  exists ts, turns inp ts (embed c) = embed (Orchestrator.run host untyped workspacePath
                                              inp ms c).
Proof.
  induction ms as [|m ms IH]; intros c; [exists []; reflexivity|].
  destruct (move_is_turns inp m c) as [ts1 H1].
  destruct (IH (Orchestrator.move host untyped workspacePath inp m c)) as [ts2 H2].
  exists (ts1 ++ ts2). rewrite turns_app, H1. exact H2.
Qed.

(** Every task of [Orchestrator] is a task of the machine of turns. *)
Lemma startTask_is_start inp ms st :
  exists ts, start inp ts st = embed (Orchestrator.startTask host untyped workspacePath
                                        inp ms st).
Proof.
  unfold Interleaved.start, Orchestrator.startTask.
  apply (run_is_turns inp ms (startTask_call (idle st))).
Qed.

End WithHost.

(** An abort while the delegated read of the scenario is in flight: the
    read finishes and its result is posted after the stop call. *)
Example result_posted_after_abort :
  let s := start (H := Sample.platform []) (Sample.host Sample.command_failed)
             Sample.untyped (js "/w") (Sample.task [Sample.read_event] None)
             [settle None; settle None; settle None; call_abortTask; settle None]
             Sample.store in
  suspended s = AtResultCall Sample.read_event []
  /\ trace (now s)
     = [ Emit taskStarted; Forward Sample.read_event;
         ToolRun execute_read_file (data Sample.read_event);
         StopChatCall (js "p1");
         ToolResultCall (js "p1") (JStr (js "r2")) execute_read_file
           {| success := true; content := Some (js "ab"); error := None |} ].
Proof. vm_compute. split; reflexivity. Qed.

(** An abort during the wait of an ask whose stop call settles after
    [startTask] has returned: [taskCompleted] comes before
    [taskAborted]. *)
Example completed_before_aborted :
  let s := start (H := Sample.platform []) (Sample.host Sample.command_failed)
             Sample.untyped (js "/w")
             (Sample.task [Sample.ask_event; Sample.notice_event] None)
             [settle None; settle None; settle None; call_abortTask;
              settle None; settle None; settle None; stop_settled]
             Sample.store in
  suspended s = AtEnd
  /\ trace (now s)
     = [ Emit taskStarted; Forward Sample.ask_event; AskWait (JStr (js "a1"));
         ReplyResolved []; StopChatCall (js "p1");
         Emit (taskCompleted (js "t1")); Emit taskAborted ].
Proof. vm_compute. split; reflexivity. Qed.

(** An abort during the wait of the ask event of the scenario. *)
Lemma abortTask_stop_call_witness :
  let inp := Sample.task [Sample.ask_event; Sample.notice_event] None in
  let s := start (H := Sample.platform []) (Sample.host Sample.command_failed)
             Sample.untyped (js "/w") inp [settle None; settle None; settle None]
             Sample.store in
  let s' := turn (H := Sample.platform []) (Sample.host Sample.command_failed)
              Sample.untyped (js "/w") inp call_abortTask s in
  stopping s' = 1%nat
  /\ trace (now s') = trace (now s) ++ [ReplyResolved []; StopChatCall (js "p1")].
Proof.
  cbv zeta.
  destruct (proj1 (abortTask_stop_call (H := Sample.platform [])
                     (Sample.host Sample.command_failed) Sample.untyped (js "/w")
                     (Sample.task [Sample.ask_event; Sample.notice_event] None)
                     Sample.params [settle None; settle None; settle None]
                     Sample.store eq_refl) eq_refl ltac:(discriminate))
    as (_ & Hstop & Htrace).
  split; [rewrite Hstop; vm_compute; reflexivity|].
  rewrite Htrace. vm_compute. reflexivity.
Defined.

End InterleavedFacts.
